(** * pubsub-shovel: the admission-and-relay job, checked against its specification

    The repository holds two near-duplicate entry points:

    - package [shovel] (HTTP function [Handler], job [processShovelRequest]),
      the one that [cmd/main.go] imports and that the deployment script
      registers; it gates admission on the count of messages _accepted_;
    - package [main] ([ShovelMessages], job [processMessages]), which gates
      on the count of messages _published_.

    Both are embedded below, each in a module of its own: the first in
    full, the second as far as its helpers and the value its job returns
    go.  Module [MainJob] then embeds the job of package [main] goroutine
    by goroutine as well, and module [Generator] the batching of the
    test-message generator.

    In the two jobs Go's [int] and [time.Duration] are modelled as [Z]:
    the counters only ever grow by one from zero, in package [shovel]
    they stay below [maxMessages], itself an [int], and the 64-bit
    wrap-around is not reached.  In the generator, whose arithmetic is on
    numbers the user chooses, [int] wraps around as in Go.  A Go string
    is a sequence of bytes: [range] reads it rune by rune as UTF-8, a
    byte outside any valid encoding giving U+FFFD, and [string(char)]
    writes a rune back in its encoding; [runes] below does the reading. *)

From Stdlib Require Import ZArith NArith Lia String Ascii.
From stdpp Require Import base list strings pretty.

Open Scope Z_scope.

(** ** Declarations shared verbatim by the two packages *)

(** [type ShovelRequest struct] *)
Record ShovelRequest := {
  NumMessages : Z;
  AllMessages : bool;
  SourceSubscription : string;
  TargetTopic : string
}.

(** An [error] value is modelled by its message; [None] is [nil]. *)
Definition error := option string.

(** ** Strings as Go has them

    A Go string is a sequence of bytes.  [for _, char := range name]
    reads it as UTF-8, one rune a turn: where a valid encoding of one
    to four bytes starts it yields that rune and moves past it, anywhere
    else it yields the rune U+FFFD and moves on by one byte (Go
    specification, "For statements with range clause"; the table of
    valid encodings is that of package [unicode/utf8]).  [string(char)]
    writes a rune back as its encoding.  A rune is kept below as that
    encoding, a string of one to four bytes. *)

Definition byteOf (c : ascii) : N := N_of_ascii c.

Definition between (lo hi : N) (c : ascii) : bool :=
  ((lo <=? byteOf c) && (byteOf c <=? hi))%N.

(** A continuation byte, [0x80] to [0xBF]. *)
Definition isCont (c : ascii) : bool := between 128 191 c.

(** [C2..DF] and one continuation byte. *)
Definition valid2 (b0 b1 : ascii) : bool := between 194 223 b0 && isCont b1.

(** [E0 A0..BF], [E1..EC 80..BF], [ED 80..9F], [EE..EF 80..BF], and one
    continuation byte. *)
Definition valid3 (b0 b1 b2 : ascii) : bool :=
  (between 224 224 b0 && between 160 191 b1
   || between 225 236 b0 && isCont b1
   || between 237 237 b0 && between 128 159 b1
   || between 238 239 b0 && isCont b1)
  && isCont b2.

(** [F0 90..BF], [F1..F3 80..BF], [F4 80..8F], and two continuation
    bytes. *)
Definition valid4 (b0 b1 b2 b3 : ascii) : bool :=
  (between 240 240 b0 && between 144 191 b1
   || between 241 243 b0 && isCont b1
   || between 244 244 b0 && between 128 143 b1)
  && isCont b2 && isCont b3.

(** U+FFFD as [string(char)] writes it: [EF BF BD]. *)
Definition RuneError : string :=
  String "239" (String "191" (String "189" EmptyString)).

(** The rune read where no longer encoding starts: the byte itself below
    [0x80], U+FFFD otherwise. *)
Definition single (b0 : ascii) : string :=
  if (byteOf b0 <? 128)%N then String b0 EmptyString else RuneError.

(** The runes [range] yields over a string, in order. *)
Fixpoint runes (s : string) : list string :=
  match s with
  | EmptyString => []
  | String b0 r0 =>
      match r0 with
      | String b1 r1 =>
          if valid2 b0 b1 then String b0 (String b1 EmptyString) :: runes r1
          else
            match r1 with
            | String b2 r2 =>
                if valid3 b0 b1 b2
                then String b0 (String b1 (String b2 EmptyString)) :: runes r2
                else
                  match r2 with
                  | String b3 r3 =>
                      if valid4 b0 b1 b2 b3
                      then String b0 (String b1 (String b2 (String b3 EmptyString)))
                           :: runes r3
                      else single b0 :: runes r0
                  | EmptyString => single b0 :: runes r0
                  end
            | EmptyString => single b0 :: runes r0
            end
      | EmptyString => single b0 :: runes r0
      end
  end.

(** The body of the [for _, char := range name] loop of
    [splitResourceName], over the runes still to come, with the two
    accumulators [result] and [current]; the final [if current != ""] is
    the base case. *)
Fixpoint splitLoop (chars : list string) (result : list string) (current : string)
  : list string :=
  match chars with
  | [] => if decide (current = EmptyString) then result else result ++ [current]
  | char :: rest =>
      if decide (char = "/"%string) then
        if decide (current = EmptyString) then splitLoop rest result current
        else splitLoop rest (result ++ [current]) EmptyString
      else splitLoop rest result (current +:+ char)
  end.

Definition splitResourceName (name : string) : list string :=
  splitLoop (runes name) [] EmptyString.

(** Whether a name contains the separator. *)
Fixpoint hasSlash (s : string) : bool :=
  match s with
  | EmptyString => false
  | String c rest => if decide (c = "/"%char) then true else hasSlash rest
  end.

(** [type ShovelResponse struct], the same in both packages. *)
Record ShovelResponse := {
  Status : string;
  Message : string;
  ProcessedCount : Z;
  RequestID : string
}.

(** What the handlers use of [net/http]: the method and the body of the
    request, and a response writer with its header map, the status code
    once written, and what was written to the body.  The header map is a
    list of pairs in which the first entry for a key counts. *)
Record HttpRequest := { Method : string; Body : string }.

Inductive Payload :=
| JsonBody (r : ShovelResponse)   (* json.NewEncoder(w).Encode(r) *)
| TextBody (text : string).       (* plain text *)

Record ResponseWriter := {
  Header : list (string * string);
  StatusCode : option Z;
  Written : list Payload
}.

Definition newWriter : ResponseWriter :=
  {| Header := []; StatusCode := None; Written := [] |}.

Fixpoint headerDrop (key : string) (h : list (string * string))
  : list (string * string) :=
  match h with
  | [] => []
  | (k, v) :: rest =>
      if decide (k = key) then headerDrop key rest
      else (k, v) :: headerDrop key rest
  end.

Fixpoint headerGet (key : string) (h : list (string * string)) : option string :=
  match h with
  | [] => None
  | (k, v) :: rest => if decide (k = key) then Some v else headerGet key rest
  end.

(** [w.Header().Set(key, value)] and [w.Header().Del(key)]. *)
Definition headerSet (key value : string) (w : ResponseWriter) : ResponseWriter :=
  {| Header := (key, value) :: headerDrop key (Header w);
     StatusCode := StatusCode w; Written := Written w |}.

Definition headerDel (key : string) (w : ResponseWriter) : ResponseWriter :=
  {| Header := headerDrop key (Header w);
     StatusCode := StatusCode w; Written := Written w |}.

(** [w.WriteHeader(code)]: the first call fixes the status. *)
Definition WriteHeader (code : Z) (w : ResponseWriter) : ResponseWriter :=
  match StatusCode w with
  | Some _ => w
  | None => {| Header := Header w; StatusCode := Some code;
               Written := Written w |}
  end.

(** A write to the body; it implies status 200 when none was written. *)
Definition writeBody (p : Payload) (w : ResponseWriter) : ResponseWriter :=
  {| Header := Header w;
     StatusCode := Some (default 200 (StatusCode w));
     Written := Written w ++ [p] |}.

(** The four [w.Header().Set] both handlers start with. *)
Definition setCORS (w : ResponseWriter) : ResponseWriter :=
  headerSet "Content-Type" "application/json"
    (headerSet "Access-Control-Allow-Headers" "Content-Type"
       (headerSet "Access-Control-Allow-Methods" "POST, OPTIONS"
          (headerSet "Access-Control-Allow-Origin" "*" w))).

(** [respondWithError], the same in both packages up to the logging of
    an encoding failure. *)
Definition respondWithError (w : ResponseWriter) (message : string)
    (statusCode : Z) : ResponseWriter :=
  writeBody (JsonBody {| Status := "error"; Message := message;
                         ProcessedCount := 0; RequestID := EmptyString |})
    (WriteHeader statusCode w).

(** ** Package [shovel] *)

Module Shovel.

Definition validateRequest (req : ShovelRequest) : error :=
  if decide (SourceSubscription req = EmptyString) then
    Some "sourceSubscription is required"%string
  else if decide (TargetTopic req = EmptyString) then
    Some "targetTopic is required"%string
  else if negb (AllMessages req) && (NumMessages req <=? 0) then
    Some "numMessages must be greater than 0 when allMessages is false"%string
  else if AllMessages req && (0 <? NumMessages req) then
    Some "cannot specify both allMessages=true and numMessages > 0"%string
  else None.

(** [for i, part := range parts]: the first ["projects"] that has a
    successor decides. *)
Fixpoint extractProjectID_loop (parts : list string) : string :=
  match parts with
  | part :: ((next :: _) as rest) =>
      if decide (part = "projects"%string) then next
      else extractProjectID_loop rest
  | _ => EmptyString
  end.

Definition extractProjectID (resourceName : string) : string :=
  extractProjectID_loop (splitResourceName resourceName).

(** [parts[len(parts)-1]] when there is a part, [""] otherwise. *)
Definition extractResourceName (fqdn : string) : string :=
  let parts := splitResourceName fqdn in
  if decide (0 < length parts)%nat then default EmptyString (last parts)
  else EmptyString.


(** *** The job [processShovelRequest]

    The job runs several goroutines: the caller's (select, sleep, final
    read), the one around [sourceSub.Receive], and for each delivered
    message the Receive callback followed by the goroutine it spawns to
    wait for the publish result.  They are embedded as an interleaving
    of atomic steps, one per statement that touches shared state or the
    outside world; the scheduler and the Pub/Sub service are the
    environment, given as a list of actions. *)

Definition Second : Z := 1000000000.          (* time.Second, in ns *)
Definition Minute : Z := 60 * Second.         (* time.Minute *)

(** [maxMessages] (lines 151-155) and [timeout] (lines 215-218). *)
Definition maxMessagesOf (req : ShovelRequest) : Z :=
  if AllMessages req then 10000 else NumMessages req.

Definition timeoutOf (req : ShovelRequest) : Z :=
  if AllMessages req then 10 * Minute else 5 * Minute.

(** [time.Sleep(2 * time.Second)] (line 229). *)
Definition drainGrace : Z := 2 * Second.

(** Program points of one delivery: the callback (lines 168-187), then
    the goroutine waiting for the publish result (lines 190-205).  Each
    names the statement about to run. *)
Inductive hpc :=
| HLock        (* 168  mutex.Lock() *)
| HCheck       (* 170  if acceptedCount >= maxMessages *)
| HRejUnlock   (* 171  mutex.Unlock() *)
| HRejNack     (* 172  msg.Nack() *)
| HRejCancel   (* 173  cancel() *)
| HRejected    (* 174  return *)
| HAccInc      (* 177  acceptedCount++ *)
| HAccUnlock   (* 179  mutex.Unlock() *)
| HPublish     (* 184  targetTopic.Publish(...); 190 go func() *)
| HGet         (* 191  result.Get(ctx) *)
| HFailNack    (* 194  msg.Nack() *)
| HFailed      (*      goroutine over, publish failed *)
| HOkAck       (* 198  msg.Ack() *)
| HOkLock      (* 199  mutex.Lock() *)
| HOkInc       (* 200  processedCount++ *)
| HOkUnlock    (* 202  mutex.Unlock() *)
| HPublished.  (*      goroutine over, message relayed *)

(** The goroutine around [sourceSub.Receive] (lines 166-212). *)
Inductive rpc :=
| RReceive                 (* 167  Receive is running *)
| RReturned (err : error)  (* 208  Receive has returned err *)
| RSend                    (* 211  done <- true, waiting for a receiver *)
| RExit.

(** The caller's goroutine from the [select] on (lines 220-237). *)
Inductive mpc :=
| MSelect                          (* 220 *)
| MCancel                          (* 225  cancel() *)
| MSleepCall                       (* 229  time.Sleep is called *)
| MSleeping (wakeAt : Z)           (* 229  asleep until wakeAt *)
| MLock                            (* 231 *)
| MReadAccepted                    (* 232 *)
| MReadProcessed (finalAccepted : Z)              (* 233 *)
| MUnlock (finalAccepted finalProcessed : Z)      (* 234 *)
| MReturn (finalAccepted finalProcessed : Z)      (* 236-237 *)
| MDone (count : Z) (err : error). (* returned (count, err) *)

(** What the job does to the outside world, in order. *)
Inductive event :=
| EPublish (t : nat)           (* targetTopic.Publish for message t *)
| EGet (t : nat) (ok : bool)   (* result.Get returned, without / with error *)
| EAck (t : nat)               (* msg.Ack() *)
| ENack (t : nat)              (* msg.Nack() *)
| ECancel                      (* cancel() *)
| EClose                       (* client.Close(), deferred *)
| ELogReceiveError (e : string)
| ELogCompleted                (* "Message processing completed" *)
| ELogTimeout                  (* "Processing timeout reached" *)
| ELogShovelCompleted (finalAccepted finalProcessed : Z).

(** The variables shared by the goroutines (lines 158-163), the
    goroutines' program points, the wall clock (ns since the [select]
    was entered) and the trace. *)
Record State := {
  acceptedCount : Z;
  processedCount : Z;
  mutex : bool;               (* true: locked *)
  cancelled : bool;           (* ctx of line 163 *)
  handlers : list hpc;        (* by message, in delivery order *)
  recv : rpc;
  main : mpc;
  now : Z;
  events : list event
}.

Definition init : State :=
  {| acceptedCount := 0; processedCount := 0; mutex := false;
     cancelled := false; handlers := []; recv := RReceive;
     main := MSelect; now := 0; events := [] |}.

Definition setAccepted (n : Z) (s : State) : State :=
  {| acceptedCount := n; processedCount := processedCount s;
     mutex := mutex s; cancelled := cancelled s; handlers := handlers s;
     recv := recv s; main := main s; now := now s; events := events s |}.
Definition setProcessed (n : Z) (s : State) : State :=
  {| acceptedCount := acceptedCount s; processedCount := n;
     mutex := mutex s; cancelled := cancelled s; handlers := handlers s;
     recv := recv s; main := main s; now := now s; events := events s |}.
Definition setMutex (b : bool) (s : State) : State :=
  {| acceptedCount := acceptedCount s; processedCount := processedCount s;
     mutex := b; cancelled := cancelled s; handlers := handlers s;
     recv := recv s; main := main s; now := now s; events := events s |}.
Definition cancel (s : State) : State :=
  {| acceptedCount := acceptedCount s; processedCount := processedCount s;
     mutex := mutex s; cancelled := true; handlers := handlers s;
     recv := recv s; main := main s; now := now s;
     events := events s ++ [ECancel] |}.
Definition setHandlers (l : list hpc) (s : State) : State :=
  {| acceptedCount := acceptedCount s; processedCount := processedCount s;
     mutex := mutex s; cancelled := cancelled s; handlers := l;
     recv := recv s; main := main s; now := now s; events := events s |}.
Definition goto (t : nat) (pc : hpc) (s : State) : State :=
  setHandlers (<[t := pc]> (handlers s)) s.
Definition setRecv (r : rpc) (s : State) : State :=
  {| acceptedCount := acceptedCount s; processedCount := processedCount s;
     mutex := mutex s; cancelled := cancelled s; handlers := handlers s;
     recv := r; main := main s; now := now s; events := events s |}.
Definition setMain (m : mpc) (s : State) : State :=
  {| acceptedCount := acceptedCount s; processedCount := processedCount s;
     mutex := mutex s; cancelled := cancelled s; handlers := handlers s;
     recv := recv s; main := m; now := now s; events := events s |}.
Definition setNow (n : Z) (s : State) : State :=
  {| acceptedCount := acceptedCount s; processedCount := processedCount s;
     mutex := mutex s; cancelled := cancelled s; handlers := handlers s;
     recv := recv s; main := main s; now := n; events := events s |}.
Definition emit (e : event) (s : State) : State :=
  {| acceptedCount := acceptedCount s; processedCount := processedCount s;
     mutex := mutex s; cancelled := cancelled s; handlers := handlers s;
     recv := recv s; main := main s; now := now s;
     events := events s ++ [e] |}.

(** The configuration a job is started with. *)
Record Job := { maxMessages : Z; timeout : Z }.

Definition jobOf (req : ShovelRequest) : Job :=
  {| maxMessages := maxMessagesOf req; timeout := timeoutOf req |}.

(** One step of delivery [t] standing at [pc]; [ok] is the outcome of
    the publish, looked at by [result.Get] only.  [None]: the goroutine
    is blocked (on the mutex) or over. *)
Definition hstep (j : Job) (t : nat) (ok : bool) (pc : hpc) (s : State)
  : option State :=
  match pc with
  | HLock => if mutex s then None else Some (goto t HCheck (setMutex true s))
  | HCheck =>
      if maxMessages j <=? acceptedCount s
      then Some (goto t HRejUnlock s)
      else Some (goto t HAccInc s)
  | HRejUnlock => Some (goto t HRejNack (setMutex false s))
  | HRejNack => Some (goto t HRejCancel (emit (ENack t) s))
  | HRejCancel => Some (goto t HRejected (cancel s))
  | HRejected => None
  | HAccInc => Some (goto t HAccUnlock (setAccepted (acceptedCount s + 1) s))
  | HAccUnlock => Some (goto t HPublish (setMutex false s))
  | HPublish => Some (goto t HGet (emit (EPublish t) s))
  | HGet =>
      Some (goto t (if ok then HOkAck else HFailNack) (emit (EGet t ok) s))
  | HFailNack => Some (goto t HFailed (emit (ENack t) s))
  | HFailed => None
  | HOkAck => Some (goto t HOkLock (emit (EAck t) s))
  | HOkLock => if mutex s then None else Some (goto t HOkInc (setMutex true s))
  | HOkInc => Some (goto t HOkUnlock (setProcessed (processedCount s + 1) s))
  | HOkUnlock => Some (goto t HPublished (setMutex false s))
  | HPublished => None
  end.

(** The caller's goroutine outside the [select]. *)
Definition mstep (s : State) : option State :=
  match main s with
  | MSelect => None
  | MCancel => Some (setMain MSleepCall (cancel s))
  | MSleepCall => Some (setMain (MSleeping (now s + drainGrace)) s)
  | MSleeping wakeAt =>
      if wakeAt <=? now s then Some (setMain MLock s) else None
  | MLock =>
      if mutex s then None else Some (setMain MReadAccepted (setMutex true s))
  | MReadAccepted => Some (setMain (MReadProcessed (acceptedCount s)) s)
  | MReadProcessed a => Some (setMain (MUnlock a (processedCount s)) s)
  | MUnlock a p => Some (setMain (MReturn a p) (setMutex false s))
  | MReturn a p =>
      (* log; return finalProcessed, nil; the deferred cancel() and
         client.Close() run, the last deferred first *)
      Some (setMain (MDone p None)
              (emit EClose (cancel (emit (ELogShovelCompleted a p) s))))
  | MDone _ _ => None
  end.

(** What the environment can do next.  The client library is not
    embedded: a delivery may come as long as [Receive] has not returned,
    even after the context was cancelled (the library may still hand over
    what it has pulled), and [Receive] may return at any moment; the
    properties proved below hold for all these behaviours. *)
Inductive Action :=
| ADeliver                       (* Receive invokes the callback on a new message *)
| AHandler (t : nat) (ok : bool) (* delivery t takes its next step *)
| AReceiveReturn (err : error)   (* Receive returns *)
| ARecv                          (* the Receive goroutine logs the error *)
| AMainDone                      (* select: case <-done *)
| AMainTimeout                   (* select: case <-time.After(timeout) *)
| AMain                          (* the caller's next step after the select *)
| ATick (d : Z).                 (* d ns pass *)

Definition step (j : Job) (a : Action) (s : State) : option State :=
  match a with
  | ADeliver =>
      match recv s with
      | RReceive => Some (setHandlers (handlers s ++ [HLock]) s)
      | _ => None
      end
  | AHandler t ok =>
      match handlers s !! t with
      | Some pc => hstep j t ok pc s
      | None => None
      end
  | AReceiveReturn err =>
      match recv s with
      | RReceive => Some (setRecv (RReturned err) s)
      | _ => None
      end
  | ARecv =>
      match recv s with
      | RReturned (Some e) => Some (setRecv RSend (emit (ELogReceiveError e) s))
      | RReturned None => Some (setRecv RSend s)
      | _ => None
      end
  | AMainDone =>
      match main s, recv s with
      | MSelect, RSend =>
          Some (setMain MSleepCall (setRecv RExit (emit ELogCompleted s)))
      | _, _ => None
      end
  | AMainTimeout =>
      match main s with
      | MSelect =>
          if timeout j <=? now s
          then Some (setMain MCancel (emit ELogTimeout s))
          else None
      | _ => None
      end
  | AMain => mstep s
  | ATick d => if 0 <=? d then Some (setNow (now s + d) s) else None
  end.

(** A schedule is run action by action; an action that is not enabled
    (the scheduler picked a blocked goroutine) changes nothing. *)
Definition exec (j : Job) (a : Action) (s : State) : State :=
  default s (step j a s).

Fixpoint run (j : Job) (sched : list Action) (s : State) : State :=
  match sched with
  | [] => s
  | a :: rest => run j rest (exec j a s)
  end.

(** The value the caller has returned, if it has. *)
Definition returned (s : State) : option (Z * error) :=
  match main s with
  | MDone n e => Some (n, e)
  | _ => None
  end.

(** The environment of a job: the Pub/Sub client library and the
    scheduler.  [newClient] and [topicExists] answer
    [pubsub.NewClient(ctx, projectID)] and [targetTopic.Exists(ctx)]. *)
Record Env := {
  newClient : string -> error;
  topicExists : string -> bool * error;
  schedule : list Action
}.

Record Outcome := {
  result : option (Z * error);   (* None: not yet returned *)
  effects : list event
}.

Definition processShovelRequest (env : Env) (req : ShovelRequest) : Outcome :=
  match newClient env (extractProjectID (SourceSubscription req)) with
  | Some e =>
      {| result := Some (0, Some ("failed to create pubsub client: " +:+ e));
         effects := [] |}
  | None =>
      let targetTopicName := extractResourceName (TargetTopic req) in
      match topicExists env targetTopicName with
      | (_, Some e) =>
          {| result :=
               Some (0, Some ("failed to check if target topic exists: " +:+ e));
             effects := [EClose] |}
      | (false, None) =>
          {| result :=
               Some (0, Some ("target topic " +:+ TargetTopic req
                              +:+ " does not exist"));
             effects := [EClose] |}
      | (true, None) =>
          let s := run (jobOf req) (schedule env) init in
          {| result := returned s; effects := events s |}
      end
  end.


(** *** Quantities read off a state

    The source stores two counters only, [acceptedCount] and
    [processedCount].  How many admitted messages ended in a nack (the
    failed count of the specification) and how many are still under way
    (its in-flight count) is not stored anywhere: both are read off the
    program points of the deliveries. *)

Fixpoint countIf {A : Type} (P : A -> bool) (l : list A) : Z :=
  match l with
  | [] => 0
  | x :: rest => Z.b2z (P x) + countIf P rest
  end.

(** Between a [mutex.Lock()] and the matching [mutex.Unlock()]. *)
Definition isCrit (pc : hpc) : bool :=
  match pc with
  | HCheck | HRejUnlock | HAccInc | HAccUnlock | HOkInc | HOkUnlock => true
  | _ => false
  end.

Definition mainCrit (m : mpc) : bool :=
  match m with
  | MReadAccepted | MReadProcessed _ | MUnlock _ _ => true
  | _ => false
  end.

(** Past [acceptedCount++]. *)
Definition isAccepted (pc : hpc) : bool :=
  match pc with
  | HAccUnlock | HPublish | HGet | HFailNack | HFailed
  | HOkAck | HOkLock | HOkInc | HOkUnlock | HPublished => true
  | _ => false
  end.

(** Past [processedCount++]. *)
Definition isCounted (pc : hpc) : bool :=
  match pc with
  | HOkUnlock | HPublished => true
  | _ => false
  end.

(** The publish failed and the message was given back. *)
Definition isFailed (pc : hpc) : bool :=
  match pc with
  | HFailed => true
  | _ => false
  end.

(** In flight: past [acceptedCount++], and neither [msg.Ack()] nor
    [msg.Nack()] issued yet. *)
Definition isInFlight (pc : hpc) : bool :=
  match pc with
  | HAccUnlock | HPublish | HGet | HFailNack | HOkAck => true
  | _ => false
  end.

(** Past [msg.Ack()] (line 198) and not yet past [processedCount++]
    (line 200). *)
Definition isAckedUncounted (pc : hpc) : bool :=
  match pc with
  | HOkLock | HOkInc => true
  | _ => false
  end.

(** On the rejecting branch of the check (lines 171-174). *)
Definition isRejecting (pc : hpc) : bool :=
  match pc with
  | HRejUnlock | HRejNack | HRejCancel | HRejected => true
  | _ => false
  end.

(** Past [msg.Ack()], past a [msg.Nack()], past [result.Get] without
    and with an error. *)
Definition isAcked (pc : hpc) : bool :=
  match pc with
  | HOkLock | HOkInc | HOkUnlock | HPublished => true
  | _ => false
  end.

Definition isNacked (pc : hpc) : bool :=
  match pc with
  | HRejCancel | HRejected | HFailed => true
  | _ => false
  end.

Definition gotOk (pc : hpc) : bool :=
  match pc with
  | HOkAck | HOkLock | HOkInc | HOkUnlock | HPublished => true
  | _ => false
  end.

Definition gotErr (pc : hpc) : bool :=
  match pc with
  | HFailNack | HFailed => true
  | _ => false
  end.

Definition failedRelays (s : State) : Z := countIf isFailed (handlers s).
Definition inFlight (s : State) : Z := countIf isInFlight (handlers s).
Definition ackedUncounted (s : State) : Z :=
  countIf isAckedUncounted (handlers s).

(** Whether delivery [t] exists and stands at a point of class [P]. *)
Definition standsAt (P : hpc -> bool) (s : State) (t : nat) : bool :=
  match handlers s !! t with
  | Some pc => P pc
  | None => false
  end.

Definition isAckOf (t : nat) (e : event) : bool :=
  match e with EAck t' => bool_decide (t' = t) | _ => false end.
Definition isNackOf (t : nat) (e : event) : bool :=
  match e with ENack t' => bool_decide (t' = t) | _ => false end.
Definition isGetOf (t : nat) (ok : bool) (e : event) : bool :=
  match e with
  | EGet t' ok' => bool_decide (t' = t) && Bool.eqb ok' ok
  | _ => false
  end.

Definition isPublishOf (t : nat) (e : event) : bool :=
  match e with EPublish t' => bool_decide (t' = t) | _ => false end.

(** Past [targetTopic.Publish]. *)
Definition isForwarded (pc : hpc) : bool :=
  match pc with
  | HGet | HFailNack | HFailed
  | HOkAck | HOkLock | HOkInc | HOkUnlock | HPublished => true
  | _ => false
  end.

Definition acks (t : nat) (s : State) : Z := countIf (isAckOf t) (events s).
Definition nacks (t : nat) (s : State) : Z := countIf (isNackOf t) (events s).
Definition gets (t : nat) (ok : bool) (s : State) : Z :=
  countIf (isGetOf t ok) (events s).
Definition publishes (t : nat) (s : State) : Z :=
  countIf (isPublishOf t) (events s).

(** The two counters the job keeps, as a pair. *)
Definition counters (s : State) : Z * Z := (acceptedCount s, processedCount s).

(** A state the job can be in: one that some schedule leads to. *)
Definition reachable (j : Job) (s : State) : Prop :=
  exists sched : list Action, run j sched init = s.

(** How the counters and the mutex relate to the program points. *)
Record Inv (j : Job) (s : State) : Prop := {
  inv_crit : countIf isCrit (handlers s) + Z.b2z (mainCrit (main s))
             = Z.b2z (mutex s);
  inv_accepted : acceptedCount s = countIf isAccepted (handlers s);
  inv_processed : processedCount s = countIf isCounted (handlers s);
  inv_gate : forall t, handlers s !! t = Some HAccInc ->
                       acceptedCount s < maxMessages j;
  inv_reject : forall t pc, handlers s !! t = Some pc ->
                            isRejecting pc = true ->
                            maxMessages j <= acceptedCount s;
  inv_bound : 0 <= acceptedCount s <= maxMessages j
}.

(** How the trace relates to the program points. *)
Record TraceInv (s : State) : Prop := {
  tr_ack : forall t, acks t s = Z.b2z (standsAt isAcked s t);
  tr_nack : forall t, nacks t s = Z.b2z (standsAt isNacked s t);
  tr_get_ok : forall t, gets t true s = Z.b2z (standsAt gotOk s t);
  tr_get_err : forall t, gets t false s = Z.b2z (standsAt gotErr s t);
  tr_publish : forall t, publishes t s = Z.b2z (standsAt isForwarded s t)
}.

(** How far the caller's goroutine and the Receive goroutine have got. *)
Definition mrank (m : mpc) : nat :=
  match m with
  | MSelect => 0 | MCancel => 1 | MSleepCall => 2 | MSleeping _ => 3
  | MLock => 4 | MReadAccepted => 5 | MReadProcessed _ => 6
  | MUnlock _ _ => 7 | MReturn _ _ => 8 | MDone _ _ => 9
  end%nat.

Definition rrank (r : rpc) : nat :=
  match r with
  | RReceive => 0 | RReturned _ => 1 | RSend => 2 | RExit => 3
  end%nat.

(** The state in which [n] messages have been delivered and admitted,
    one after the other, and none has been forwarded yet. *)
Definition admittedOnly (n : nat) : State :=
  {| acceptedCount := Z.of_nat n; processedCount := 0; mutex := false;
     cancelled := false; handlers := replicate n HPublish;
     recv := RReceive; main := MSelect; now := 0; events := [] |}.

(** Deliver one message and run its callback up to the publish. *)
Definition admitOne (t : nat) : list Action :=
  [ADeliver; AHandler t true; AHandler t true; AHandler t true;
   AHandler t true].

Fixpoint admitMany (n : nat) : list Action :=
  match n with
  | O => []
  | S k => admitMany k ++ admitOne k
  end.


(** What a run of deliveries alone leaves untouched. *)
Definition sameControl (s s' : State) : Prop :=
  main s' = main s /\ recv s' = recv s /\ now s' = now s.

(** *** Sample requests and schedules *)

Definition boundedReq : ShovelRequest :=
  {| NumMessages := 1; AllMessages := false;
     SourceSubscription := "projects/p/subscriptions/s";
     TargetTopic := "projects/p/topics/t" |}.

Definition unboundedReq : ShovelRequest :=
  {| NumMessages := 0; AllMessages := true;
     SourceSubscription := "projects/p/subscriptions/s";
     TargetTopic := "projects/p/topics/t" |}.

(** Two deliveries race for the single slot of [boundedReq]: the second
    finds the mutex taken twice, then locks and is turned away. *)
Definition raceSched : list Action :=
  [ADeliver; ADeliver;
   AHandler 0 true; AHandler 1 true; AHandler 0 true; AHandler 1 true;
   AHandler 0 true; AHandler 0 true;
   AHandler 1 true; AHandler 1 true].

(** The same race, stopped when the second delivery has locked and is
    about to check. *)
Definition raceAtCheck : list Action :=
  [ADeliver; ADeliver;
   AHandler 0 true; AHandler 1 true; AHandler 0 true; AHandler 1 true;
   AHandler 0 true; AHandler 0 true;
   AHandler 1 true].

(** One delivery, admitted and forwarded, waiting in [result.Get]. *)
Definition toGet : list Action :=
  [ADeliver; AHandler 0 true; AHandler 0 true; AHandler 0 true;
   AHandler 0 true; AHandler 0 true].

(** One delivery that has locked the mutex and is about to check. *)
Definition toCheck : list Action := [ADeliver; AHandler 0 true].

(** One delivery, forwarded and acknowledged, about to lock the mutex
    for [processedCount++]. *)
Definition toCount : list Action :=
  toGet ++ [AHandler 0 true; AHandler 0 true].

(** [Receive] fails at once; the caller takes [<-done], sleeps out the
    grace period, reads the counters and returns. *)
Definition receiveFails : list Action :=
  [AReceiveReturn (Some "stream broken"%string); ARecv; AMainDone;
   AMain; ATick drainGrace; AMain; AMain; AMain; AMain; AMain; AMain].

Definition healthy (sched : list Action) : Env :=
  {| newClient := fun _ => None;
     topicExists := fun _ => (true, None);
     schedule := sched |}.



(** *** Settling

    How many statements of its own a delivery has still to run before
    its ack or its nack is issued, once it is past [acceptedCount++];
    and how many steps a schedule gives to delivery [t]. *)




(** *** Totals over the trace, and what the caller has read *)

Definition isPublish (e : event) : bool :=
  match e with EPublish _ => true | _ => false end.
Definition isAck (e : event) : bool :=
  match e with EAck _ => true | _ => false end.
Definition isNack (e : event) : bool :=
  match e with ENack _ => true | _ => false end.

Definition totalPublishes (s : State) : Z := countIf isPublish (events s).
Definition totalAcks (s : State) : Z := countIf isAck (events s).
Definition totalNacks (s : State) : Z := countIf isNack (events s).

(** [finalProcessed], once the caller has read it (line 233). *)
Definition finalRead (m : mpc) : option Z :=
  match m with
  | MUnlock _ p | MReturn _ p | MDone p _ => Some p
  | _ => None
  end.


(** *** The HTTP entry point [Handler]

    [decode] stands for [json.NewDecoder(r.Body).Decode(&req)], [nowNano]
    for [time.Now().UnixNano()].  The handler returns the response and,
    when it starts one, the job it hands to a goroutine: the request id
    and the request.  Log lines are left out. *)
Definition requestIDOf (nowNano : Z) : string :=
  "shovel-" +:+ pretty (Z.quot nowNano 1000000).

Definition Handler (decode : string -> string + ShovelRequest) (nowNano : Z)
    (r : HttpRequest) (w : ResponseWriter)
  : ResponseWriter * option (string * ShovelRequest) :=
  let w := setCORS w in
  if decide (Method r = "OPTIONS"%string) then (WriteHeader 204 w, None)
  else if decide (Method r <> "POST"%string) then
    (respondWithError w "Only POST requests are allowed" 405, None)
  else
    match decode (Body r) with
    | inl err =>
        (respondWithError w ("Invalid JSON payload: " +:+ err) 400, None)
    | inr req =>
        match validateRequest req with
        | Some err => (respondWithError w err 400, None)
        | None =>
            let requestID := requestIDOf nowNano in
            let response :=
              {| Status := "accepted";
                 Message := "Message shoveling started asynchronously";
                 ProcessedCount := 0; RequestID := requestID |} in
            (writeBody (JsonBody response) (WriteHeader 202 w),
             Some (requestID, req))
        end
    end.

(** *** A schedule under which everything goes well *)

(** Deliver message [t] and let it run alone to the end of its relay. *)
Definition relayOne (t : nat) : list Action :=
  ADeliver :: replicate 10 (AHandler t true).

Fixpoint relayMany (n : nat) : list Action :=
  match n with
  | O => []
  | S k => relayMany k ++ relayOne k
  end.

(** [Receive] returns nil; the caller takes [<-done], sleeps the grace
    period, reads and returns. *)
Definition windUp : list Action :=
  [AReceiveReturn None; ARecv; AMainDone; AMain; ATick drainGrace;
   AMain; AMain; AMain; AMain; AMain; AMain].

(** [n] messages relayed, nothing under way, the caller in its [select]. *)
Definition quiet (n : nat) (s : State) : Prop :=
  acceptedCount s = Z.of_nat n /\ processedCount s = Z.of_nat n
  /\ mutex s = false /\ handlers s = replicate n HPublished
  /\ recv s = RReceive /\ main s = MSelect.

End Shovel.

(** ** Package [main] *)

Module Main.

Definition validateRequest (req : ShovelRequest) : error :=
  if decide (SourceSubscription req = EmptyString) then
    Some "sourceSubscription is required"%string
  else if decide (TargetTopic req = EmptyString) then
    Some "targetTopic is required"%string
  else if negb (AllMessages req) && (NumMessages req <=? 0) then
    Some "numMessages must be positive when allMessages is false"%string
  else if AllMessages req && (0 <? NumMessages req) then
    Some "cannot specify both allMessages=true and numMessages"%string
  else None.

Definition extractProjectID (fqdn : string) : string :=
  let parts := splitResourceName fqdn in
  if decide (2 <= length parts)%nat then
    if decide (parts !! 0%nat = Some "projects"%string)
    then default EmptyString (parts !! 1%nat)
    else EmptyString
  else EmptyString.

(** [parts[3]] when there are at least four parts, the input otherwise. *)
Definition extractResourceName (fqdn : string) : string :=
  let parts := splitResourceName fqdn in
  if decide (4 <= length parts)%nat then default EmptyString (parts !! 3%nat)
  else fqdn.


(** *** The job [processMessages]

    Only what the job returns is embedded for this package.  That
    depends on the two start-up checks, on what [sourceSub.Receive]
    returned and on the value of [processedCount] once [wg.Wait()] is
    over; the latter two are taken from the environment. *)

Inductive receiveResult :=
| ReceiveNil                      (* err == nil *)
| ReceiveCanceled                 (* err == context.Canceled *)
| ReceiveFailed (msg : string).   (* any other error *)

Record Env := {
  newClient : string -> error;
  topicExists : string -> bool * error;
  receiveErr : receiveResult;
  finalCount : Z
}.

Definition processMessages (env : Env) (req : ShovelRequest) : Z * error :=
  match newClient env (extractProjectID (SourceSubscription req)) with
  | Some e => (0, Some ("failed to create pubsub client: " +:+ e))
  | None =>
      let targetTopicName := extractResourceName (TargetTopic req) in
      match topicExists env targetTopicName with
      | (_, Some e) =>
          (0, Some ("failed to check target topic existence: " +:+ e))
      | (false, None) =>
          (0, Some ("target topic " +:+ TargetTopic req +:+ " does not exist"))
      | (true, None) =>
          match receiveErr env with
          | ReceiveFailed e =>
              (finalCount env,
               Some ("error during message processing: " +:+ e))
          | _ => (finalCount env, None)
          end
      end
  end.


(** *** The HTTP entry point [ShovelMessages]

    As [Handler] of package [shovel], except for the answer to a method
    other than POST, given with [http.Error], the message for a body
    that does not decode, and the request id, in nanoseconds.
    [http.Error] belongs to [net/http]: it deletes the Content-Length
    header, sets Content-Type to plain text and X-Content-Type-Options
    to nosniff, writes the status and the message followed by a newline. *)
Definition httpError (w : ResponseWriter) (message : string) (code : Z)
  : ResponseWriter :=
  writeBody (TextBody (message +:+ String "010"%char EmptyString))
    (WriteHeader code
       (headerSet "X-Content-Type-Options" "nosniff"
          (headerSet "Content-Type" "text/plain; charset=utf-8"
             (headerDel "Content-Length" w)))).

Definition requestIDOf (nowNano : Z) : string := "shovel-" +:+ pretty nowNano.

Definition ShovelMessages (decode : string -> string + ShovelRequest)
    (nowNano : Z) (r : HttpRequest) (w : ResponseWriter)
  : ResponseWriter * option (string * ShovelRequest) :=
  let w := setCORS w in
  if decide (Method r = "OPTIONS"%string) then (WriteHeader 204 w, None)
  else if decide (Method r <> "POST"%string) then
    (httpError w "Only POST method allowed" 405, None)
  else
    match decode (Body r) with
    | inl err => (respondWithError w "Invalid JSON payload" 400, None)
    | inr req =>
        match validateRequest req with
        | Some err => (respondWithError w err 400, None)
        | None =>
            let requestID := requestIDOf nowNano in
            let response :=
              {| Status := "accepted";
                 Message := "Message shoveling started asynchronously";
                 ProcessedCount := 0; RequestID := requestID |} in
            (writeBody (JsonBody response) (WriteHeader 202 w),
             Some (requestID, req))
        end
    end.

(** *** Sample environments *)

Definition receiveBroken : Env :=
  {| newClient := fun _ => None;
     topicExists := fun _ => (true, None);
     receiveErr := ReceiveFailed "stream broken";
     finalCount := 3 |}.

End Main.

(** ** The job [processMessages] of package [main], goroutine by goroutine

    The same kind of embedding as for [processShovelRequest]: the
    caller blocked in [sourceSub.Receive] and then in [wg.Wait()], for
    each delivered message the Receive callback (lines 157-211) and the
    goroutine it spawns (lines 168-197), interleaved step by step. *)

Module MainJob.

(** Program points of the Receive callback for one message. *)
Inductive cpc :=
| CSelect                  (* 161  select { case <-done: return; default: } *)
| CAdd                     (* 167  wg.Add(1) *)
| CSpawn                   (* 168  go func(message) {...}(msg); 200 if !req.AllMessages *)
| CLock                    (* 201  mu.Lock() *)
| CRead                    (* 202  current := processedCount *)
| CUnlock (current : Z)    (* 203  mu.Unlock(); 204 if current >= req.NumMessages *)
| CSend                    (* 205  select { case done <- true: default: } *)
| CAck (skipped : bool)    (* 158  the deferred msg.Ack() *)
| CReturned (skipped : bool).

(** Program points of the goroutine spawned for one message. *)
Inductive wpc :=
| WPublish                 (* 172  targetTopic.Publish(...) *)
| WGet                     (* 178  result.Get(ctx) *)
| WLock                    (* 183  mu.Lock() *)
| WInc                     (* 184  processedCount++; 185 current := processedCount *)
| WUnlock (current : Z)    (* 186  mu.Unlock(); 191 if !req.AllMessages && current >= ... *)
| WSend                    (* 192  select { case done <- true: default: } *)
| WDone (ok : bool)        (* 169  the deferred wg.Done() *)
| WExit (ok : bool).

(** The caller: inside [Receive], at [wg.Wait()], past it, returned. *)
Inductive mpc :=
| MReceive                             (* 157 *)
| MWait (err : Main.receiveResult)     (* 214 *)
| MReturn (err : Main.receiveResult)   (* 216-221 *)
| MDone (count : Z) (err : error).

Inductive event :=
| EPublish (t : nat)
| EGet (t : nat) (ok : bool)
| EAck (t : nat)
| ECancel                  (* the deferred cancel() *)
| EClose.                  (* the deferred client.Close() *)

(** The shared variables of lines 141-155: the counter, its mutex, the
    wait group's counter, whether the channel [done] (of capacity one)
    holds its value; then the program points, by message in delivery
    order, the goroutine of a message being [None] until it is spawned. *)
Record State := {
  processedCount : Z;
  mutex : bool;
  done : bool;
  wg : Z;
  deliveries : list (cpc * option wpc);
  main : mpc;
  events : list event
}.

Definition init : State :=
  {| processedCount := 0; mutex := false; done := false; wg := 0;
     deliveries := []; main := MReceive; events := [] |}.

Definition setProcessed (n : Z) (s : State) : State :=
  {| processedCount := n; mutex := mutex s; done := done s; wg := wg s;
     deliveries := deliveries s; main := main s; events := events s |}.
Definition setMutex (b : bool) (s : State) : State :=
  {| processedCount := processedCount s; mutex := b; done := done s;
     wg := wg s; deliveries := deliveries s; main := main s;
     events := events s |}.
Definition setDone (b : bool) (s : State) : State :=
  {| processedCount := processedCount s; mutex := mutex s; done := b;
     wg := wg s; deliveries := deliveries s; main := main s;
     events := events s |}.
Definition setWg (n : Z) (s : State) : State :=
  {| processedCount := processedCount s; mutex := mutex s; done := done s;
     wg := n; deliveries := deliveries s; main := main s;
     events := events s |}.
Definition setDeliveries (l : list (cpc * option wpc)) (s : State) : State :=
  {| processedCount := processedCount s; mutex := mutex s; done := done s;
     wg := wg s; deliveries := l; main := main s; events := events s |}.
Definition put (t : nat) (d : cpc * option wpc) (s : State) : State :=
  setDeliveries (<[t := d]> (deliveries s)) s.
Definition setMain (m : mpc) (s : State) : State :=
  {| processedCount := processedCount s; mutex := mutex s; done := done s;
     wg := wg s; deliveries := deliveries s; main := m; events := events s |}.
Definition emit (e : event) (s : State) : State :=
  {| processedCount := processedCount s; mutex := mutex s; done := done s;
     wg := wg s; deliveries := deliveries s; main := main s;
     events := events s ++ [e] |}.

(** One step of the callback of message [t], standing at [c] while the
    message's goroutine is at [w].  The receive from [done] at line 161
    takes the value out of the channel; a send to it when it is full
    falls through to [default] and leaves it full. *)
Definition cstep (req : ShovelRequest) (t : nat) (c : cpc) (w : option wpc)
    (s : State) : option State :=
  match c with
  | CSelect =>
      if done s then Some (put t (CAck true, w) (setDone false s))
      else Some (put t (CAdd, w) s)
  | CAdd => Some (put t (CSpawn, w) (setWg (wg s + 1) s))
  | CSpawn =>
      Some (put t (if AllMessages req then CAck false else CLock,
                   Some WPublish) s)
  | CLock =>
      if mutex s then None else Some (put t (CRead, w) (setMutex true s))
  | CRead => Some (put t (CUnlock (processedCount s), w) s)
  | CUnlock current =>
      Some (put t (if NumMessages req <=? current then CSend else CAck false,
                   w) (setMutex false s))
  | CSend => Some (put t (CAck false, w) (setDone true s))
  | CAck skipped => Some (put t (CReturned skipped, w) (emit (EAck t) s))
  | CReturned _ => None
  end.

(** One step of the goroutine of message [t], standing at [w]; [ok] is
    the outcome of the publish, looked at by [result.Get] only. *)
Definition wstep (req : ShovelRequest) (t : nat) (ok : bool) (c : cpc)
    (w : wpc) (s : State) : option State :=
  match w with
  | WPublish => Some (put t (c, Some WGet) (emit (EPublish t) s))
  | WGet =>
      Some (put t (c, Some (if ok then WLock else WDone false))
              (emit (EGet t ok) s))
  | WLock =>
      if mutex s then None
      else Some (put t (c, Some WInc) (setMutex true s))
  | WInc =>
      Some (put t (c, Some (WUnlock (processedCount s + 1)))
              (setProcessed (processedCount s + 1) s))
  | WUnlock current =>
      Some (put t (c, Some (if negb (AllMessages req)
                               && (NumMessages req <=? current)
                            then WSend else WDone true))
              (setMutex false s))
  | WSend => Some (put t (c, Some (WDone true)) (setDone true s))
  | WDone ok' => Some (put t (c, Some (WExit ok')) (setWg (wg s - 1) s))
  | WExit _ => None
  end.

(** The caller after [Receive] has returned: [wg.Wait()] lets it pass
    when the counter is zero; then it reads [processedCount] and
    returns, and the deferred [cancel()] and [client.Close()] run. *)
Definition mstep (s : State) : option State :=
  match main s with
  | MReceive => None
  | MWait err => if wg s =? 0 then Some (setMain (MReturn err) s) else None
  | MReturn err =>
      Some (setMain
              (MDone (processedCount s)
                 match err with
                 | Main.ReceiveFailed e =>
                     Some ("error during message processing: " +:+ e)
                 | _ => None
                 end)
              (emit EClose (emit ECancel s)))
  | MDone _ _ => None
  end.

Definition callbackOver (d : cpc * option wpc) : bool :=
  match fst d with CReturned _ => true | _ => false end.

Definition callbackRunning (d : cpc * option wpc) : bool :=
  negb (callbackOver d).

(** [ReceiveSettings.MaxOutstandingMessages] (line 148). *)
Definition maxOutstanding : Z := 100.

(** The deadline of [receiveCtx] (line 151), the same whatever the
    request.  It is one of the reasons for which [Receive] returns;
    below [Receive] may return at any moment. *)
Definition receiveTimeout (req : ShovelRequest) : Z := 10 * Shovel.Minute.

(** What the environment can do next.  Of the client library this much
    is embedded: it hands over a message only while [Receive] runs and
    fewer than [maxOutstanding] callbacks are under way, and [Receive]
    returns only once every callback has returned. *)
Inductive Action :=
| ADeliver
| ACallback (t : nat)
| AWorker (t : nat) (ok : bool)
| AReceiveReturn (err : Main.receiveResult)
| AMain.

Definition step (req : ShovelRequest) (a : Action) (s : State) : option State :=
  match a with
  | ADeliver =>
      match main s with
      | MReceive =>
          if Shovel.countIf callbackRunning (deliveries s) <? maxOutstanding
          then Some (setDeliveries (deliveries s ++ [(CSelect, None)]) s)
          else None
      | _ => None
      end
  | ACallback t =>
      match deliveries s !! t with
      | Some (c, w) => cstep req t c w s
      | None => None
      end
  | AWorker t ok =>
      match deliveries s !! t with
      | Some (c, Some w) => wstep req t ok c w s
      | _ => None
      end
  | AReceiveReturn err =>
      match main s with
      | MReceive =>
          if forallb callbackOver (deliveries s)
          then Some (setMain (MWait err) s) else None
      | _ => None
      end
  | AMain => mstep s
  end.

Definition exec (req : ShovelRequest) (a : Action) (s : State) : State :=
  default s (step req a s).

Fixpoint run (req : ShovelRequest) (sched : list Action) (s : State) : State :=
  match sched with
  | [] => s
  | a :: rest => run req rest (exec req a s)
  end.

Definition reachable (req : ShovelRequest) (s : State) : Prop :=
  exists sched : list Action, run req sched init = s.

Definition returned (s : State) : option (Z * error) :=
  match main s with
  | MDone n e => Some (n, e)
  | _ => None
  end.

(** *** Quantities read off a state *)

(** Between [mu.Lock()] and [mu.Unlock()], in the callback and in the
    goroutine. *)
Definition cCrit (d : cpc * option wpc) : bool :=
  match fst d with CRead | CUnlock _ => true | _ => false end.

Definition wCrit (d : cpc * option wpc) : bool :=
  match snd d with Some WInc | Some (WUnlock _) => true | _ => false end.

(** Past [processedCount++]. *)
Definition counted (d : cpc * option wpc) : bool :=
  match snd d with
  | Some (WUnlock _) | Some WSend => true
  | Some (WDone ok) | Some (WExit ok) => ok
  | _ => false
  end.

(** Between [wg.Add(1)] and [wg.Done()]. *)
Definition wgHeld (d : cpc * option wpc) : bool :=
  match snd d with
  | Some (WExit _) => false
  | Some _ => true
  | None => match fst d with CSpawn => true | _ => false end
  end.

(** Whether the goroutine exists is told by where the callback stands. *)
Definition wellFormed (d : cpc * option wpc) : bool :=
  match fst d with
  | CSelect | CAdd | CSpawn | CAck true | CReturned true =>
      match snd d with None => true | Some _ => false end
  | _ => match snd d with None => false | Some _ => true end
  end.

(** On the branch of the callback taken when [!req.AllMessages]. *)
Definition boundedOnly (d : cpc * option wpc) : bool :=
  match fst d with CLock | CRead | CUnlock _ | CSend => true | _ => false end.

(** Having found the target reached, or the value in [done]. *)
Definition sawTarget (d : cpc * option wpc) : bool :=
  match fst d, snd d with
  | CSend, _ | CAck true, _ | CReturned true, _ => true
  | _, Some WSend => true
  | _, _ => false
  end.

(** Past [targetTopic.Publish], past [result.Get] with and without an
    error, the message skipped. *)
Definition published (d : cpc * option wpc) : bool :=
  match snd d with
  | Some WPublish | None => false
  | Some _ => true
  end.

Definition confirmed (d : cpc * option wpc) : bool :=
  match snd d with
  | Some WLock | Some WInc | Some (WUnlock _) | Some WSend => true
  | Some (WDone ok) | Some (WExit ok) => ok
  | _ => false
  end.

Definition failed (d : cpc * option wpc) : bool :=
  match snd d with
  | Some (WDone ok) | Some (WExit ok) => negb ok
  | _ => false
  end.

Definition skipped (d : cpc * option wpc) : bool :=
  match fst d with CAck true | CReturned true => true | _ => false end.

Definition at_ (P : cpc * option wpc -> bool) (s : State) (t : nat) : bool :=
  match deliveries s !! t with
  | Some d => P d
  | None => false
  end.

Definition isAckOf (t : nat) (e : event) : bool :=
  match e with EAck t' => bool_decide (t' = t) | _ => false end.
Definition isPublishOf (t : nat) (e : event) : bool :=
  match e with EPublish t' => bool_decide (t' = t) | _ => false end.
Definition isGetOf (t : nat) (ok : bool) (e : event) : bool :=
  match e with
  | EGet t' ok' => bool_decide (t' = t) && Bool.eqb ok' ok
  | _ => false
  end.
Definition isAck (e : event) : bool :=
  match e with EAck _ => true | _ => false end.
Definition isPublish (e : event) : bool :=
  match e with EPublish _ => true | _ => false end.
Definition isGetOk (e : event) : bool :=
  match e with EGet _ true => true | _ => false end.

Definition acks (t : nat) (s : State) : Z :=
  Shovel.countIf (isAckOf t) (events s).
Definition publishes (t : nat) (s : State) : Z :=
  Shovel.countIf (isPublishOf t) (events s).
Definition gets (t : nat) (ok : bool) (s : State) : Z :=
  Shovel.countIf (isGetOf t ok) (events s).
Definition totalAcks (s : State) : Z := Shovel.countIf isAck (events s).
Definition totalPublishes (s : State) : Z :=
  Shovel.countIf isPublish (events s).
Definition totalConfirmed (s : State) : Z := Shovel.countIf isGetOk (events s).

(** How the shared variables relate to the program points. *)
Record Inv (req : ShovelRequest) (s : State) : Prop := {
  inv_crit : Shovel.countIf cCrit (deliveries s)
             + Shovel.countIf wCrit (deliveries s) = Z.b2z (mutex s);
  inv_processed : processedCount s = Shovel.countIf counted (deliveries s);
  inv_wg : wg s = Shovel.countIf wgHeld (deliveries s);
  inv_shape : forall t d, deliveries s !! t = Some d -> wellFormed d = true;
  inv_bounded : forall t d, deliveries s !! t = Some d ->
                            boundedOnly d = true -> AllMessages req = false;
  inv_held : forall t d c, deliveries s !! t = Some d ->
                           fst d = CUnlock c \/ snd d = Some (WUnlock c) ->
                           c <= processedCount s;
  inv_target : forall t d, deliveries s !! t = Some d -> sawTarget d = true ->
                           AllMessages req = false
                           /\ NumMessages req <= processedCount s;
  inv_done : done s = true ->
             AllMessages req = false /\ NumMessages req <= processedCount s;
  inv_over : main s <> MReceive ->
             forall t d, deliveries s !! t = Some d -> callbackOver d = true;
  inv_waited : match main s with
               | MReturn _ | MDone _ _ => wg s = 0
               | _ => True
               end;
  inv_returned : forall n e, main s = MDone n e -> n = processedCount s
}.

(** How the trace relates to the program points. *)
Record TraceInv (s : State) : Prop := {
  tr_ack : forall t, acks t s = Z.b2z (at_ callbackOver s t);
  tr_publish : forall t, publishes t s = Z.b2z (at_ published s t);
  tr_get_ok : forall t, gets t true s = Z.b2z (at_ confirmed s t);
  tr_get_err : forall t, gets t false s = Z.b2z (at_ failed s t);
  tr_acks : totalAcks s = Shovel.countIf callbackOver (deliveries s);
  tr_publishes : totalPublishes s = Shovel.countIf published (deliveries s);
  tr_confirmed : totalConfirmed s = Shovel.countIf confirmed (deliveries s)
}.

(** *** Schedules *)

(** Message [t] is delivered and its callback runs to its end; the
    steps left over when the callback is shorter change nothing. *)
Definition callbackOnly (t : nat) : list Action :=
  ADeliver :: replicate 8 (ACallback t).

Fixpoint callbacksOnly (n : nat) : list Action :=
  match n with
  | O => []
  | S k => callbacksOnly k ++ callbackOnly k
  end.

(** The goroutine of message [t] runs to its end, its publish confirmed. *)
Definition workerOnly (t : nat) : list Action := replicate 8 (AWorker t true).

Fixpoint workersOnly (n : nat) : list Action :=
  match n with
  | O => []
  | S k => workersOnly k ++ workerOnly k
  end.

(** [Receive] returns nil; the caller passes [wg.Wait()] and returns. *)
Definition windUp : list Action := [AReceiveReturn Main.ReceiveNil; AMain; AMain].

(** One message whose publish fails: acknowledged all the same. *)
Definition lostOnFailure : list Action :=
  callbackOnly 0 ++ replicate 3 (AWorker 0 false).



(** [Receive] has returned while a goroutine is still at work. *)
Definition returnedEarly : list Action :=
  callbackOnly 0 ++ [AReceiveReturn Main.ReceiveNil].

End MainJob.

(** ** The test-message generator (package [main] of the generator tool)

    Its [generateMessages] cuts the message numbers into batches, has
    a pool of workers publish them and checks the total. *)

Module Generator.

(** [type Config struct] *)
Record Config := {
  ProjectID : string;
  TopicName : string;
  NumMessages : Z;
  Concurrency : Z;
  BatchSize : Z
}.

(** [type workBatch struct { start, end int }] *)
Record workBatch := { start : Z; end_ : Z }.

(** Go's [int], 64 bits wide on the platforms the tool is built for: the
    operators wrap around in two's complement, [/] truncates towards
    zero (Go specification, "Arithmetic operators"). *)
Definition maxInt : Z := 2 ^ 63 - 1.
Definition minInt : Z := - 2 ^ 63.
Definition wrap (z : Z) : Z := (z + 2 ^ 63) mod 2 ^ 64 - 2 ^ 63.
Definition intAdd (a b : Z) : Z := wrap (a + b).
Definition intSub (a b : Z) : Z := wrap (a - b).
Definition intMul (a b : Z) : Z := wrap (a * b).
Definition intQuo (a b : Z) : Z := wrap (Z.quot a b).

(** Line 124, for a batch size other than zero; with zero the division
    panics, which [generateMessages] below takes care of. *)
Definition batchCount (config : Config) : Z :=
  intQuo (intSub (intAdd (NumMessages config) (BatchSize config)) 1)
    (BatchSize config).

(** The body of the loop of lines 128-135 for index [i]. *)
Definition batchAt (config : Config) (i : Z) : workBatch :=
  let start := intAdd (intMul i (BatchSize config)) 1 in
  let end0 := intSub (intAdd start (BatchSize config)) 1 in
  {| start := start;
     end_ := if NumMessages config <? end0 then NumMessages config else end0 |}.

(** What is sent to [workChan], in order: the loop runs for
    [i = 0, ..., batchCount - 1], not at all when [batchCount <= 0]. *)
Definition workBatches (config : Config) : list workBatch :=
  map (batchAt config) (seqZ 0 (batchCount config)).

(** The numbers from [batch.start] to [batch.end]. *)
Definition numbered (batch : workBatch) : list Z :=
  seqZ (start batch) (end_ batch - start batch + 1).

(** The message numbers [publishBatch] goes through:
    [for msgNum := batch.start; msgNum <= batch.end; msgNum++].  With
    [batch.end] the largest [int] the condition never fails, [msgNum++]
    wrapping around: the loop does not end ([None]). *)
Definition msgNums (batch : workBatch) : option (list Z) :=
  if end_ batch =? maxInt then None else Some (numbered batch).

(** The outside world: whether [json.Marshal] succeeds on the message of
    a number, whether [result.Get] confirms its publish, and whether
    [make] gets a channel of the given element size and capacity
    (the run time refuses sizes out of its range, and memory may run
    out). *)
Record Env := {
  marshalOk : Z -> bool;
  getOk : Z -> bool;
  chanFits : Z -> Z -> bool
}.

(** [publishBatch] (lines 174-216): the messages that marshal are
    published; the number of publishes confirmed is returned. *)
Definition publishBatch (env : Env) (batch : workBatch) : option Z :=
  match msgNums batch with
  | None => None
  | Some nums =>
      let results := List.filter (marshalOk env) nums in
      Some (wrap (Z.of_nat (length (List.filter (getOk env) results))))
  end.

(** [published += int64(batchPublished)] under [mu], for the batches in
    the order [taken] in which the workers received them. *)
Definition publishedAfter (env : Env) (taken : list workBatch) : option Z :=
  foldl (fun published batch =>
           match published, publishBatch env batch with
           | Some p, Some n => Some (wrap (p + n))
           | _, _ => None
           end) (Some 0) taken.

(** How a call ends: in a run-time panic or fatal error, never, or by
    returning. *)
Inductive Outcome :=
| Crashes (why : string)
| Hangs
| Returns (err : error).

(** [generateMessages] (lines 114-168).  [make] panics on a negative
    size; the division panics on a zero divisor.  With no worker
    ([Concurrency <= 0]) nothing is taken from [workChan]. *)
Definition generateMessages (env : Env) (config : Config)
    (taken : list workBatch) : Outcome :=
  if (NumMessages config <? 0) || negb (chanFits env 8 (NumMessages config))
  then Crashes "makechan: size out of range"
  else if BatchSize config =? 0 then Crashes "integer divide by zero"
  else if (batchCount config <? 0)
          || negb (chanFits env 16 (batchCount config))
  then Crashes "makechan: size out of range"
  else
    match (if 0 <? Concurrency config then publishedAfter env taken
           else Some 0) with
    | None => Hangs
    | Some published =>
        if negb (published =? NumMessages config) then
          Returns (Some ("expected to publish " +:+ pretty (NumMessages config)
                         +:+ " messages, but published " +:+ pretty published))
        else Returns None
    end.

(** Whether message [m] gets through. *)
Definition delivered (env : Env) (m : Z) : bool := marshalOk env m && getOk env m.

Definition sampleConfig : Config :=
  {| ProjectID := "p"; TopicName := "shoveltest.v1"; NumMessages := 5;
     Concurrency := 2; BatchSize := 2 |}.

(** A batch size for which [NumMessages + BatchSize] wraps around. *)
Definition hugeBatch : Config :=
  {| ProjectID := "p"; TopicName := "shoveltest.v1"; NumMessages := 5;
     Concurrency := 2; BatchSize := maxInt |}.

Definition allFine : Env :=
  {| marshalOk := fun _ => true; getOk := fun _ => true;
     chanFits := fun _ _ => true |}.

End Generator.

(** * Words for the properties of resource names *)

(** A segment free of the separator: not empty, no ['/']. *)
Definition cleanSegment (seg : string) : Prop :=
  seg <> EmptyString /\ hasSlash seg = false.

(** The encoding of one rune. *)
Definition isRune (c : string) : bool :=
  match c with
  | String b0 EmptyString => (byteOf b0 <? 128)%N
  | String b0 (String b1 EmptyString) => valid2 b0 b1
  | String b0 (String b1 (String b2 EmptyString)) => valid3 b0 b1 b2
  | String b0 (String b1 (String b2 (String b3 EmptyString))) =>
      valid4 b0 b1 b2 b3
  | _ => false
  end.

(** A string as a loop over its runes writes it back with [string(char)]:
    U+FFFD stands in for every byte that belongs to no valid encoding. *)
Definition rebuilt (s : string) : string :=
  foldr String.append EmptyString (runes s).

(** Valid UTF-8: read and written back, the string is the same.  (One
    byte turned into U+FFFD makes it two bytes longer.) *)
Definition validUTF8 (s : string) : Prop := rebuilt s = s.

(** A segment as [splitResourceName] yields them. *)
Definition segment (seg : string) : Prop := cleanSegment seg /\ validUTF8 seg.

(** Bytes below [0x80] only. *)
Fixpoint isASCII (s : string) : bool :=
  match s with
  | EmptyString => true
  | String c rest => (byteOf c <? 128)%N && isASCII rest
  end.

(** The string without its first [n] bytes. *)
Fixpoint skip (n : nat) (s : string) : string :=
  match n, s with
  | S n', String _ rest => skip n' rest
  | _, _ => s
  end.

(** Empty, or starting with a byte that continues no encoding. *)
Definition barrier (X : string) : Prop :=
  match X with
  | EmptyString => True
  | String x _ => isCont x = false
  end.

(** The segments written one after the other with ['/'] in between, the
    way the fully qualified names of Pub/Sub are built. *)
Fixpoint joinSlash (parts : list string) : string :=
  match parts with
  | [] => EmptyString
  | [seg] => seg
  | seg :: rest => seg +:+ String "/"%char (joinSlash rest)
  end.

(** Whether a name is made of separators only. *)
Fixpoint onlySlashes (s : string) : bool :=
  match s with
  | EmptyString => true
  | String c rest => if decide (c = "/"%char) then onlySlashes rest else false
  end.

(** * Request validation *)

(** The four reasons for which a request is turned down, as the
    specification words them; compared below with what the two
    [validateRequest] compute. *)
Definition invalidRequest (req : ShovelRequest) : Prop :=
  SourceSubscription req = EmptyString
  \/ TargetTopic req = EmptyString
  \/ (AllMessages req = false /\ NumMessages req <= 0)
  \/ (AllMessages req = true /\ 0 < NumMessages req).

Lemma shovel_validate_iff (req : ShovelRequest) :
  Shovel.validateRequest req <> None <-> invalidRequest req.
Proof.
  unfold Shovel.validateRequest, invalidRequest.
  destruct (decide (SourceSubscription req = EmptyString)) as [Hs|Hs];
    [split; [auto | discriminate] |].
  destruct (decide (TargetTopic req = EmptyString)) as [Ht|Ht];
    [split; [auto | discriminate] |].
  destruct (AllMessages req); simpl.
  - destruct (Z.ltb_spec 0 (NumMessages req)); split; intros H';
      try discriminate; try congruence; auto.
    + destruct H' as [?|[?|[[? ?]|[? ?]]]]; try congruence; lia.
  - destruct (Z.leb_spec (NumMessages req) 0); split; intros H';
      try discriminate; try congruence; auto.
    + destruct H' as [?|[?|[[? ?]|[? ?]]]]; try congruence; lia.
Qed.

Lemma main_validate_iff (req : ShovelRequest) :
  Main.validateRequest req <> None <-> invalidRequest req.
Proof.
  unfold Main.validateRequest, invalidRequest.
  destruct (decide (SourceSubscription req = EmptyString)) as [Hs|Hs];
    [split; [auto | discriminate] |].
  destruct (decide (TargetTopic req = EmptyString)) as [Ht|Ht];
    [split; [auto | discriminate] |].
  destruct (AllMessages req); simpl.
  - destruct (Z.ltb_spec 0 (NumMessages req)); split; intros H';
      try discriminate; try congruence; auto.
    + destruct H' as [?|[?|[[? ?]|[? ?]]]]; try congruence; lia.
  - destruct (Z.leb_spec (NumMessages req) 0); split; intros H';
      try discriminate; try congruence; auto.
    + destruct H' as [?|[?|[[? ?]|[? ?]]]]; try congruence; lia.
Qed.

(** C9: in both packages [validateRequest] returns an error exactly when
    the source subscription is empty, or the target topic is empty, or
    [allMessages] is false with [numMessages <= 0], or [allMessages] is true
    with [numMessages > 0]; a request with [allMessages = true] and a
    negative [numMessages] therefore passes. *)
Theorem validateRequest_error_iff :
  (forall req : ShovelRequest,
      (Shovel.validateRequest req <> None <-> invalidRequest req)
      /\ (Main.validateRequest req <> None <-> invalidRequest req))
  /\ (forall (n : Z) (src tgt : string),
         n < 0 -> src <> EmptyString -> tgt <> EmptyString ->
         let req := {| NumMessages := n; AllMessages := true;
                       SourceSubscription := src; TargetTopic := tgt |} in
         Shovel.validateRequest req = None /\ Main.validateRequest req = None).
Proof.
  split.
  - intros req. split; [apply shovel_validate_iff | apply main_validate_iff].
  - intros n src tgt Hn Hsrc Htgt req.
    assert (Hok : ~ invalidRequest req).
    { unfold invalidRequest, req; simpl.
      intros [?|[?|[[? ?]|[? ?]]]]; try congruence; lia. }
    split.
    + destruct (Shovel.validateRequest req) eqn:E; [|reflexivity].
      exfalso. apply Hok. apply shovel_validate_iff. congruence.
    + destruct (Main.validateRequest req) eqn:E; [|reflexivity].
      exfalso. apply Hok. apply main_validate_iff. congruence.
Qed.

(** * The job of package [shovel] *)

Import Shovel.

(** ** Counting program points *)

Lemma countIf_app {A : Type} (P : A -> bool) (l1 l2 : list A) :
  countIf P (l1 ++ l2) = countIf P l1 + countIf P l2.
Proof. induction l1 as [|x l1 IH]; simpl; [reflexivity | rewrite IH; lia]. Qed.

Lemma countIf_nonneg {A : Type} (P : A -> bool) (l : list A) :
  0 <= countIf P l.
Proof. induction l as [|x l IH]; simpl; [lia | destruct (P x); simpl; lia]. Qed.

Lemma countIf_insert {A : Type} (P : A -> bool) (l : list A) (i : nat) (x y : A) :
  l !! i = Some x ->
  countIf P (<[i := y]> l) = countIf P l - Z.b2z (P x) + Z.b2z (P y).
Proof.
  revert i. induction l as [|a l IH]; intros [|i] Hi; simpl in *;
    try discriminate.
  - injection Hi as ->. lia.
  - rewrite (IH i Hi). lia.
Qed.

Lemma countIf_lookup {A : Type} (P : A -> bool) (l : list A) (i : nat) (x : A) :
  l !! i = Some x -> P x = true -> 1 <= countIf P l.
Proof.
  revert i. induction l as [|a l IH]; intros [|i] Hi HP; simpl in *;
    try discriminate.
  - injection Hi as ->. rewrite HP. pose proof (countIf_nonneg P l). simpl. lia.
  - pose proof (IH i Hi HP). destruct (P a); simpl; lia.
Qed.

Lemma countIf_lookup2 {A : Type} (P : A -> bool) (l : list A) (i k : nat) (x y : A) :
  i <> k -> l !! i = Some x -> l !! k = Some y ->
  P x = true -> P y = true -> 2 <= countIf P l.
Proof.
  revert i k. induction l as [|a l IH]; intros [|i] [|k] Hne Hi Hk Hx Hy;
    simpl in *; try discriminate; try congruence.
  - injection Hi as ->. rewrite Hx.
    pose proof (countIf_lookup P l k y Hk Hy). simpl. lia.
  - injection Hk as ->. rewrite Hy.
    pose proof (countIf_lookup P l i x Hi Hx). simpl. lia.
  - assert (i <> k) by congruence.
    pose proof (IH i k H Hi Hk Hx Hy). destruct (P a); simpl; lia.
Qed.

(** Four classes partition the admitted points: counted, failed, in
    flight, and acknowledged but not counted yet. *)
Lemma admitted_partition (l : list hpc) :
  countIf isAccepted l
  = countIf isCounted l + countIf isFailed l + countIf isInFlight l
    + countIf isAckedUncounted l.
Proof.
  induction l as [|pc l IH]; simpl; [reflexivity|].
  rewrite IH. destruct pc; simpl; lia.
Qed.

(** ** The invariants are kept by every step *)

Ltac invert_step H :=
  unfold step, hstep, mstep in H;
  repeat match type of H with
  | context [match ?x with _ => _ end] => destruct x eqn:?; try discriminate
  end;
  first [discriminate H | injection H as <-].

Ltac pick_lookup t t' :=
  destruct (decide (t = t')) as [->|?];
  [ rewrite list_lookup_insert_eq by (eapply lookup_lt_Some; eassumption)
  | rewrite list_lookup_insert_ne by assumption ].

Lemma lookup_snoc_Some {A : Type} (l : list A) (x y : A) (i : nat) :
  (l ++ [x]) !! i = Some y -> l !! i = Some y \/ (i = length l /\ y = x).
Proof.
  intros H. destruct (decide (i < length l)%nat) as [Hlt|Hge].
  - left. rewrite lookup_app_l in H by assumption. exact H.
  - right. rewrite lookup_app_r in H by lia.
    destruct (i - length l)%nat as [|k] eqn:E; simpl in H.
    + injection H as <-. split; [lia | reflexivity].
    + destruct k; discriminate.
Qed.

Lemma step_Inv (j : Job) (a : Action) (s s' : State) :
  Inv j s -> step j a s = Some s' -> Inv j s'.
Proof.
  intros [Hcrit Hacc Hproc Hgate Hrej Hbound] Hstep.
  destruct a as [|t ok|err| | | | |d].
  - (* a new delivery *)
    invert_step Hstep.
    split; simpl; rewrite ?countIf_app; simpl; try lia.
    + intros t Ht. apply lookup_snoc_Some in Ht as [Ht|[_ Ht]];
        [eauto | discriminate].
    + intros t pc Ht Hpc. apply lookup_snoc_Some in Ht as [Ht|[_ ->]];
        [eauto | discriminate].
  - (* a delivery moves on *)
    unfold step in Hstep.
    destruct (handlers s !! t) as [pc|] eqn:Hpc; [|discriminate].
    pose proof (countIf_nonneg isCrit (handlers s)) as Hnn.
    assert (Hone : isCrit pc = true -> 1 <= countIf isCrit (handlers s))
      by (apply countIf_lookup with (i := t); exact Hpc).
    assert (Hexcl : forall t' pc', t <> t' -> isCrit pc = true ->
                      handlers s !! t' = Some pc' -> isCrit pc' = true -> False).
    { intros t' pc' Hne Hc Ht' Hc'.
      pose proof (countIf_lookup2 isCrit _ _ _ _ _ Hne Hpc Ht' Hc Hc').
      destruct (mainCrit (main s)), (mutex s); simpl in *; lia. }
    destruct pc; invert_step Hstep;
      (split; simpl;
       [ rewrite (countIf_insert _ _ _ _ _ Hpc); simpl;
         try (specialize (Hone eq_refl));
         destruct (mainCrit (main s)), (mutex s); simpl in *;
         try discriminate; lia
       | rewrite (countIf_insert _ _ _ _ _ Hpc); simpl; lia
       | rewrite (countIf_insert _ _ _ _ _ Hpc); simpl; lia
       | intros t' Ht'; revert Ht'; pick_lookup t t'; intros Ht';
         try discriminate; try lia;
         try (exfalso; eapply (Hexcl t'); eauto; reflexivity);
         try (specialize (Hgate _ Ht'); lia)
       | intros t' pc' Ht'; revert Ht'; pick_lookup t t'; intros Ht' Hr;
         try (injection Ht' as <-; try discriminate);
         try (specialize (Hrej _ _ Hpc eq_refl));
         try (specialize (Hrej _ _ Ht' Hr));
         try lia
       | try (specialize (Hgate _ Hpc)); lia ]).
  - invert_step Hstep. split; simpl; eauto.
  - invert_step Hstep; split; simpl; eauto.
  - invert_step Hstep. split; simpl; eauto.
    all: try (rewrite Heqm in Hcrit; exact Hcrit).
  - invert_step Hstep. split; simpl; eauto.
    all: try (rewrite Heqm in Hcrit; exact Hcrit).
  - pose proof (countIf_nonneg isCrit (handlers s)) as Hnn.
    invert_step Hstep; split; simpl; eauto;
      rewrite ?Heqm in Hcrit; simpl in Hcrit;
      destruct (mutex s); simpl in *; try discriminate; lia.
  - invert_step Hstep. split; simpl; eauto.
Qed.

Ltac trace_facts H t :=
  destruct H as [Hack Hnack Hok Herr Hpub];
  pose proof (Hack t); pose proof (Hnack t); pose proof (Hok t);
  pose proof (Herr t); pose proof (Hpub t);
  clear Hack Hnack Hok Herr Hpub;
  unfold acks, nacks, gets, publishes, standsAt in *; simpl.

Lemma step_TraceInv (j : Job) (a : Action) (s s' : State) :
  TraceInv s -> step j a s = Some s' -> TraceInv s'.
Proof.
  intros HT Hstep.
  destruct a as [|t ok|err| | | | |d].
  - invert_step Hstep.
    split; intros t; trace_facts HT t;
      (destruct (handlers s !! t) as [pc|] eqn:Hpc;
       [ rewrite lookup_app_l by (eapply lookup_lt_Some; eassumption);
         rewrite Hpc; assumption
       | destruct ((handlers s ++ [HLock]) !! t) as [pc'|] eqn:Hpc';
         [ apply lookup_snoc_Some in Hpc' as [Hpc'|[_ ->]];
           [congruence | assumption]
         | assumption ] ]).
  - unfold step in Hstep.
    destruct (handlers s !! t) as [pc|] eqn:Hpc; [|discriminate].
    destruct pc; invert_step Hstep;
      (split; intros t'; trace_facts HT t';
       rewrite ?countIf_app; simpl;
       pick_lookup t t'; try rewrite Hpc in *; simpl in *;
       repeat case_bool_decide; simpl; try congruence; try lia).
  - invert_step Hstep. destruct HT. split; assumption.
  - invert_step Hstep; split; intros t; trace_facts HT t;
      rewrite ?countIf_app; simpl; lia.
  - invert_step Hstep. split; intros t; trace_facts HT t;
      rewrite ?countIf_app; simpl; lia.
  - invert_step Hstep. split; intros t; trace_facts HT t;
      rewrite ?countIf_app; simpl; lia.
  - invert_step Hstep; split; intros t; trace_facts HT t;
      rewrite ?countIf_app; simpl; lia.
  - invert_step Hstep. destruct HT. split; assumption.
Qed.

(** ** ... hence hold in every state the job can be in *)

Lemma Inv_init (j : Job) : 0 <= maxMessages j -> Inv j init.
Proof.
  intros Hj. split; simpl; try reflexivity; try lia.
  - intros t Ht. rewrite lookup_nil in Ht. discriminate.
  - intros t pc Ht. rewrite lookup_nil in Ht. discriminate.
Qed.

Lemma TraceInv_init : TraceInv init.
Proof. split; intros t; reflexivity. Qed.

Lemma exec_cases (j : Job) (a : Action) (s : State) :
  exec j a s = s \/ step j a s = Some (exec j a s).
Proof. unfold exec. destruct (step j a s); simpl; auto. Qed.

Lemma run_app (j : Job) (l1 l2 : list Action) (s : State) :
  run j (l1 ++ l2) s = run j l2 (run j l1 s).
Proof. revert s. induction l1 as [|a l1 IH]; intros s; simpl; auto. Qed.

Lemma run_Inv (j : Job) (sched : list Action) (s : State) :
  Inv j s -> Inv j (run j sched s).
Proof.
  revert s. induction sched as [|a sched IH]; intros s HI; simpl; [exact HI|].
  apply IH. destruct (exec_cases j a s) as [->|Hs]; [exact HI|].
  eapply step_Inv; eassumption.
Qed.

Lemma run_TraceInv (j : Job) (sched : list Action) (s : State) :
  TraceInv s -> TraceInv (run j sched s).
Proof.
  revert s. induction sched as [|a sched IH]; intros s HI; simpl; [exact HI|].
  apply IH. destruct (exec_cases j a s) as [->|Hs]; [exact HI|].
  eapply step_TraceInv; eassumption.
Qed.

Lemma reachable_Inv (j : Job) (s : State) :
  0 <= maxMessages j -> reachable j s -> Inv j s.
Proof. intros Hj [sched <-]. apply run_Inv, Inv_init, Hj. Qed.

Lemma reachable_TraceInv (j : Job) (s : State) :
  reachable j s -> TraceInv s.
Proof. intros [sched <-]. apply run_TraceInv, TraceInv_init. Qed.

Lemma reachable_run (j : Job) (sched : list Action) (s : State) :
  reachable j s -> reachable j (run j sched s).
Proof. intros [l <-]. exists (l ++ sched). apply run_app. Qed.

Lemma reachable_init (j : Job) : reachable j init.
Proof. exists []. reflexivity. Qed.



(** ** Running one delivery *)

Lemma exec_handler (j : Job) (s s' : State) (t : nat) (ok : bool) (pc : hpc) :
  handlers s !! t = Some pc -> hstep j t ok pc s = Some s' ->
  exec j (AHandler t ok) s = s'.
Proof. intros Ht Hs. unfold exec, step. rewrite Ht, Hs. reflexivity. Qed.

Lemma goto_lookup (s : State) (t : nat) (pc pc' : hpc) :
  handlers s !! t = Some pc -> handlers (goto t pc' s) !! t = Some pc'.
Proof.
  intros Ht. simpl. apply list_lookup_insert_eq.
  eapply lookup_lt_Some. eassumption.
Qed.


(** The four statements of the rejecting branch, run in a row. *)
Lemma run_reject (j : Job) (s : State) (t : nat) (ok : bool) :
  handlers s !! t = Some HCheck -> maxMessages j <= acceptedCount s ->
  run j [AHandler t ok; AHandler t ok; AHandler t ok; AHandler t ok] s
  = goto t HRejected (cancel (goto t HRejCancel (emit (ENack t)
      (goto t HRejNack (setMutex false (goto t HRejUnlock s)))))).
Proof.
  intros Ht Hfull. simpl.
  assert (E1 : exec j (AHandler t ok) s = goto t HRejUnlock s).
  { apply exec_handler with (pc := HCheck); [assumption|]. simpl.
    destruct (Z.leb_spec (maxMessages j) (acceptedCount s)); [reflexivity|lia]. }
  rewrite E1.
  pose proof (goto_lookup s t HCheck HRejUnlock Ht) as H1.
  rewrite (exec_handler j _ _ t ok HRejUnlock H1 eq_refl).
  assert (H2 : handlers (goto t HRejNack (setMutex false (goto t HRejUnlock s)))
               !! t = Some HRejNack).
  { apply goto_lookup with (pc := HRejUnlock). exact H1. }
  rewrite (exec_handler j _ _ t ok HRejNack H2 eq_refl).
  assert (H3 : handlers (goto t HRejCancel (emit (ENack t)
                 (goto t HRejNack (setMutex false (goto t HRejUnlock s)))))
               !! t = Some HRejCancel).
  { apply goto_lookup with (pc := HRejNack). exact H2. }
  rewrite (exec_handler j _ _ t ok HRejCancel H3 eq_refl).
  reflexivity.
Qed.


(** ** The counters only grow *)

Lemma step_monotone (j : Job) (a : Action) (s s' : State) :
  step j a s = Some s' ->
  acceptedCount s <= acceptedCount s'
  /\ processedCount s <= processedCount s'
  /\ failedRelays s <= failedRelays s'.
Proof.
  intros Hstep. unfold failedRelays. destruct a as [|t ok|err| | | | |d].
  2: { unfold step in Hstep.
       destruct (handlers s !! t) as [pc|] eqn:Hpc; [|discriminate].
       destruct pc; invert_step Hstep; simpl;
         rewrite (countIf_insert _ _ _ _ _ Hpc); simpl; lia. }
  all: invert_step Hstep; simpl; rewrite ?countIf_app; simpl; lia.
Qed.

Lemma run_monotone (j : Job) (sched : list Action) (s : State) :
  acceptedCount s <= acceptedCount (run j sched s)
  /\ processedCount s <= processedCount (run j sched s)
  /\ failedRelays s <= failedRelays (run j sched s).
Proof.
  revert s. induction sched as [|a sched IH]; intros s; simpl; [lia|].
  specialize (IH (exec j a s)).
  destruct (exec_cases j a s) as [E|Hs].
  - rewrite E in *. exact IH.
  - pose proof (step_monotone j a s _ Hs). lia.
Qed.

(** C4 as stated fails: [msg.Ack()] comes before [processedCount++].  In
    the job of [boundedReq], when the one message has been forwarded and
    acknowledged and its goroutine is about to lock the mutex, the
    message is accepted, not yet counted as processed, not failed, and
    no longer in flight. *)
Lemma acked_before_counted :
  reachable (jobOf boundedReq) (run (jobOf boundedReq) toCount init)
  /\ handlers (run (jobOf boundedReq) toCount init) = [HOkLock]
  /\ acks 0 (run (jobOf boundedReq) toCount init) = 1
  /\ acceptedCount (run (jobOf boundedReq) toCount init) = 1
  /\ processedCount (run (jobOf boundedReq) toCount init) = 0
  /\ failedRelays (run (jobOf boundedReq) toCount init) = 0
  /\ inFlight (run (jobOf boundedReq) toCount init) = 0
  /\ acceptedCount (run (jobOf boundedReq) toCount init)
     <> processedCount (run (jobOf boundedReq) toCount init)
        + failedRelays (run (jobOf boundedReq) toCount init)
        + inFlight (run (jobOf boundedReq) toCount init).
Proof.
  split; [exists toCount; reflexivity|].
  repeat (split; [reflexivity|]). vm_compute. discriminate.
Qed.

(** C4, as the source has it: in every state of a job with target
    [maxMessages j >= 0], the accepted messages are those counted as
    processed, those whose relay ended in a nack, those in flight
    (neither ack nor nack issued) and those acknowledged whose
    [processedCount++] is still to come; the equation of the claim holds
    whenever there is none of the last kind.  [acceptedCount] is at most
    the target; and along any further run neither [acceptedCount] nor
    [processedCount] nor the number of failed relays decreases.  The
    source stores the first two counters; the others are read off the
    goroutines. *)
Theorem counters_invariant (j : Job) (s : State) :
  0 <= maxMessages j -> reachable j s ->
  acceptedCount s
  = processedCount s + failedRelays s + inFlight s + ackedUncounted s
  /\ (ackedUncounted s = 0 ->
      acceptedCount s = processedCount s + failedRelays s + inFlight s)
  /\ 0 <= processedCount s /\ 0 <= failedRelays s /\ 0 <= inFlight s
  /\ 0 <= ackedUncounted s
  /\ acceptedCount s <= maxMessages j
  /\ forall sched,
       acceptedCount s <= acceptedCount (run j sched s)
       /\ processedCount s <= processedCount (run j sched s)
       /\ failedRelays s <= failedRelays (run j sched s).
Proof.
  intros Hj Hreach. pose proof (reachable_Inv j s Hj Hreach) as HI.
  destruct HI as [_ Hacc Hproc _ _ Hbound].
  pose proof (admitted_partition (handlers s)) as Hpart.
  unfold failedRelays, inFlight, ackedUncounted. rewrite Hacc, Hproc.
  split; [exact Hpart|]. split; [intros H0; rewrite Hpart, H0; lia|].
  split; [apply countIf_nonneg|]. split; [apply countIf_nonneg|].
  split; [apply countIf_nonneg|]. split; [apply countIf_nonneg|].
  split; [rewrite <- Hacc; lia|].
  intros sched. rewrite <- Hacc, <- Hproc. apply run_monotone.
Qed.

(** ** The relay of an admitted message *)



(** ** Unbounded jobs and the ceiling of 10000 *)

Lemma replicate_snoc_lookup {A : Type} (n : nat) (a x : A) :
  (replicate n a ++ [x]) !! n = Some x.
Proof.
  rewrite lookup_app_r by (rewrite length_replicate; lia).
  rewrite length_replicate, Nat.sub_diag. reflexivity.
Qed.

Lemma replicate_snoc_insert {A : Type} (n : nat) (a x y : A) :
  <[n := y]> (replicate n a ++ [x]) = replicate n a ++ [y].
Proof. induction n as [|n IH]; simpl; [reflexivity | rewrite IH; reflexivity]. Qed.

Lemma replicate_snoc {A : Type} (n : nat) (a : A) :
  replicate n a ++ [a] = replicate (S n) a.
Proof. induction n as [|n IH]; simpl; [reflexivity | rewrite IH; reflexivity]. Qed.

Lemma State_ext (s s' : State) :
  acceptedCount s = acceptedCount s' -> processedCount s = processedCount s' ->
  mutex s = mutex s' -> cancelled s = cancelled s' ->
  handlers s = handlers s' -> recv s = recv s' -> main s = main s' ->
  now s = now s' -> events s = events s' -> s = s'.
Proof. destruct s, s'; simpl; intros; subst; reflexivity. Qed.

(** One more message is delivered and admitted while below the target. *)
Lemma run_admitOne (j : Job) (n : nat) :
  Z.of_nat n < maxMessages j ->
  run j (admitOne n) (admittedOnly n) = admittedOnly (S n).
Proof.
  intros Hlt. unfold admitOne, run, exec, step, admittedOnly. simpl.
  rewrite (replicate_snoc_lookup n HPublish). simpl.
  rewrite !(replicate_snoc_insert n HPublish),
    (replicate_snoc_lookup n HPublish). simpl.
  destruct (Z.leb_spec (maxMessages j) (Z.of_nat n)); [lia|]. simpl.
  rewrite !(replicate_snoc_insert n HPublish),
    (replicate_snoc_lookup n HPublish). simpl.
  rewrite !(replicate_snoc_insert n HPublish),
    (replicate_snoc_lookup n HPublish). simpl.
  apply State_ext; simpl; try reflexivity; [lia|].
  rewrite !(replicate_snoc_insert n HPublish), replicate_snoc. reflexivity.
Qed.

Lemma run_admitMany (j : Job) (n : nat) :
  Z.of_nat n <= maxMessages j ->
  run j (admitMany n) init = admittedOnly n.
Proof.
  induction n as [|n IH]; intros Hle; [reflexivity|].
  simpl admitMany. rewrite run_app, IH by lia. apply run_admitOne. lia.
Qed.

(** With the target reached, the next delivery locks and its check turns
    it away, with [Receive] still running and no time elapsed. *)
Lemma reject_at_target (j : Job) (n : nat) :
  Z.of_nat n = maxMessages j ->
  exists s,
    s = run j (admitMany n ++ [ADeliver; AHandler n true]) init
    /\ reachable j s
    /\ recv s = RReceive /\ now s = 0 /\ cancelled s = false
    /\ acceptedCount s = maxMessages j
    /\ handlers s !! n = Some HCheck
    /\ exists s', step j (AHandler n true) s = Some s'
                  /\ handlers s' !! n = Some HRejUnlock.
Proof.
  intros Hn. set (s := run j (admitMany n ++ [ADeliver; AHandler n true]) init).
  exists s. split; [reflexivity|].
  split; [apply reachable_run, reachable_init|].
  assert (Hs : s = goto n HCheck (setMutex true
                 (setHandlers (replicate n HPublish ++ [HLock])
                    (admittedOnly n)))).
  { unfold s. rewrite run_app, run_admitMany by lia.
    unfold run, exec, step, admittedOnly. simpl.
    rewrite (replicate_snoc_lookup n HPublish HLock). reflexivity. }
  clearbody s.
  assert (Hpc : handlers s !! n = Some HCheck).
  { rewrite Hs. simpl. rewrite replicate_snoc_insert.
    apply replicate_snoc_lookup. }
  assert (Hacc : acceptedCount s = maxMessages j)
    by (rewrite Hs; simpl; exact Hn).
  split; [rewrite Hs; reflexivity|].
  split; [rewrite Hs; reflexivity|].
  split; [rewrite Hs; reflexivity|].
  split; [exact Hacc|]. split; [exact Hpc|].
  exists (goto n HRejUnlock s). split.
  - unfold step. rewrite Hpc. simpl. rewrite Hacc, Z.leb_refl. reflexivity.
  - eapply goto_lookup. exact Hpc.
Qed.

(** C5 as stated fails: in the unbounded job of [unboundedReq], once 10000
    messages have been accepted, the next message delivered is turned away
    at its check although [Receive] is still running and the timeout has
    not elapsed. *)
Lemma unbounded_stops_at_ceiling :
  ~ (forall (s s' : State) (t : nat),
       reachable (jobOf unboundedReq) s ->
       recv s = RReceive -> now s < timeout (jobOf unboundedReq) ->
       handlers s !! t = Some HCheck ->
       step (jobOf unboundedReq) (AHandler t true) s = Some s' ->
       handlers s' !! t = Some HAccInc).
Proof.
  intros Hall.
  destruct (reject_at_target (jobOf unboundedReq) (Z.to_nat 10000))
    as (s & _ & Hreach & Hrecv & Hnow & _ & _ & Hpc & s' & Hstep & Hpc').
  { rewrite Z2Nat.id by lia. reflexivity. }
  assert (Hlt : now s < timeout (jobOf unboundedReq))
    by (rewrite Hnow; reflexivity).
  specialize (Hall s s' _ Hreach Hrecv Hlt Hpc Hstep).
  rewrite Hpc' in Hall. discriminate Hall.
Qed.

(** C5, as the source has it: an unbounded job runs with the target 10000.
    Its check admits a delivered message while fewer than 10000 have been
    accepted; with 10000 accepted it turns the message away, nacks it and
    cancels the job's context, so that never more than 10000 messages are
    accepted. *)
Theorem unbounded_admits_up_to_ceiling (req : ShovelRequest) (s : State) (t : nat) :
  AllMessages req = true -> reachable (jobOf req) s ->
  maxMessages (jobOf req) = 10000
  /\ acceptedCount s <= 10000
  /\ (handlers s !! t = Some HCheck ->
      forall ok,
        (acceptedCount s < 10000 ->
         exists s', step (jobOf req) (AHandler t ok) s = Some s'
                    /\ handlers s' !! t = Some HAccInc)
        /\ (acceptedCount s = 10000 ->
            let s' := run (jobOf req) [AHandler t ok; AHandler t ok;
                                       AHandler t ok; AHandler t ok] s in
            handlers s' !! t = Some HRejected
            /\ events s' = events s ++ [ENack t; ECancel]
            /\ cancelled s' = true
            /\ acceptedCount s' = 10000)).
Proof.
  intros Hall Hreach.
  assert (Hmax : maxMessages (jobOf req) = 10000)
    by (simpl; unfold maxMessagesOf; rewrite Hall; reflexivity).
  assert (HI : Inv (jobOf req) s) by (apply reachable_Inv; [lia|assumption]).
  split; [exact Hmax|]. split; [rewrite <- Hmax; apply (inv_bound _ _ HI)|].
  intros Ht ok. split.
  - intros Hlt. exists (goto t HAccInc s). split.
    + unfold step. rewrite Ht. unfold hstep. rewrite Hmax.
      destruct (Z.leb_spec 10000 (acceptedCount s)); [lia|reflexivity].
    + eapply goto_lookup. exact Ht.
  - intros Heq s'.
    assert (Hs' : s' = goto t HRejected (cancel (goto t HRejCancel
                    (emit (ENack t) (goto t HRejNack (setMutex false
                       (goto t HRejUnlock s)))))))
      by (apply run_reject; [assumption | rewrite Hmax; lia]).
    rewrite Hs'. simpl. split; [|split; [|split]].
    + apply list_lookup_insert_eq. rewrite !length_insert.
      eapply lookup_lt_Some. eassumption.
    + rewrite <- app_assoc. reflexivity.
    + reflexivity.
    + exact Heq.
Qed.

(** ** When [Receive] returns *)

Lemma countIf_pos_exists {A : Type} (P : A -> bool) (l : list A) :
  1 <= countIf P l -> exists i x, l !! i = Some x /\ P x = true.
Proof.
  induction l as [|a l IH]; simpl; [lia|].
  destruct (P a) eqn:Ha; intros H.
  - exists 0%nat, a. auto.
  - destruct IH as (i & x & Hi & Hx); [simpl in H; lia|].
    exists (S i), x. auto.
Qed.

(** Whoever holds the mutex can always go on and release it: a few steps
    of the holder, and of nobody else, free it. *)
Lemma holder_releases (j : Job) (s : State) :
  Inv j s -> mainCrit (main s) = false ->
  exists sched, mutex (run j sched s) = false
                /\ sameControl s (run j sched s).
Proof.
  intros HI Hm. destruct (mutex s) eqn:Hmx.
  2: { exists []. simpl. unfold sameControl. auto. }
  pose proof (inv_crit _ _ HI) as Hc. rewrite Hm, Hmx in Hc. simpl in Hc.
  destruct (countIf_pos_exists isCrit (handlers s)) as (t & pc & Ht & Hpc);
    [lia|].
  pose proof (lookup_lt_Some _ _ _ Ht) as Hlt.
  destruct pc; try discriminate Hpc;
    try (exists [AHandler t true]; unfold run, exec, step; rewrite Ht;
         simpl; unfold sameControl; auto; fail);
    try (exists [AHandler t true; AHandler t true];
         unfold run, exec, step; rewrite Ht; simpl;
         rewrite list_lookup_insert_eq by assumption; simpl;
         unfold sameControl; auto; fail).
  (* at the check: two more steps if it rejects, three if it admits *)
  destruct (Z.leb_spec (maxMessages j) (acceptedCount s)) as [Hle|Hgt].
  - exists [AHandler t true; AHandler t true].
    unfold run, exec, step. rewrite Ht. simpl.
    destruct (Z.leb_spec (maxMessages j) (acceptedCount s)); [|lia].
    simpl. rewrite list_lookup_insert_eq by assumption. simpl.
    unfold sameControl. auto.
  - exists [AHandler t true; AHandler t true; AHandler t true].
    unfold run, exec, step. rewrite Ht. simpl.
    destruct (Z.leb_spec (maxMessages j) (acceptedCount s)); [lia|].
    simpl. rewrite list_lookup_insert_eq by assumption. simpl.
    rewrite list_lookup_insert_eq by (rewrite length_insert; assumption).
    simpl. unfold sameControl. auto.
Qed.

Lemma run_cons_step (j : Job) (a : Action) (l : list Action) (s s' : State) :
  step j a s = Some s' -> run j (a :: l) s = run j l s'.
Proof. intros H. simpl. unfold exec. rewrite H. reflexivity. Qed.

(** Runs the first action of the schedule; [tac] rewrites with what is
    known of the state. *)
Ltac run_one tac :=
  lazymatch goal with
  | |- context [run ?j (?a :: ?l) ?s] =>
      erewrite (run_cons_step j a l s)
        by (unfold step, mstep; simpl; try tac; simpl; try tac; simpl;
            reflexivity)
  end.

(** From the [select] with [Receive] back: the error is logged, the
    caller takes [<-done], calls [time.Sleep], the grace period passes
    and the caller wakes up. *)
Lemma run_to_wakeup (j : Job) (s : State) (err : error) :
  recv s = RReturned err -> main s = MSelect ->
  let s' := run j [ARecv; AMainDone; AMain; ATick drainGrace; AMain] s in
  main s' = MLock /\ now s' = now s + drainGrace
  /\ processedCount s' = processedCount s
  /\ (forall e, err = Some e -> ELogReceiveError e ∈ events s').
Proof.
  intros Hr Hm. cbv zeta.
  destruct err as [e|].
  - run_one ltac:(rewrite Hr). run_one ltac:(rewrite Hm).
    run_one idtac. run_one idtac. run_one ltac:(rewrite Z.leb_refl).
    simpl. repeat split.
    intros e' [= <-]. rewrite !elem_of_app, !list_elem_of_singleton. auto.
  - run_one ltac:(rewrite Hr). run_one ltac:(rewrite Hm).
    run_one idtac. run_one idtac. run_one ltac:(rewrite Z.leb_refl).
    simpl. repeat split. discriminate.
Qed.

(** With the mutex free the caller locks, reads both counters, unlocks
    and returns the second with a nil error. *)
Lemma run_final_read (j : Job) (s : State) :
  main s = MLock -> mutex s = false ->
  let s' := run j [AMain; AMain; AMain; AMain; AMain] s in
  returned s' = Some (processedCount s, None)
  /\ processedCount s' = processedCount s /\ now s' = now s.
Proof.
  intros Hm Hmx. cbv zeta.
  run_one ltac:(rewrite Hm, Hmx).
  run_one idtac. run_one idtac. run_one idtac. run_one idtac.
  simpl. auto.
Qed.

(** Whatever the schedule, the error the caller returns is nil. *)
Lemma returned_error_nil (j : Job) (sched : list Action) (n : Z) (e : error) :
  returned (run j sched init) = Some (n, e) -> e = None.
Proof.
  assert (H : forall s, (forall n e, main s = MDone n e -> e = None) ->
                forall n e, main (run j sched s) = MDone n e -> e = None).
  { induction sched as [|a sched IH]; intros s Hs; simpl; [exact Hs|].
    apply IH. destruct (exec_cases j a s) as [->|Hstep]; [exact Hs|].
    intros n' e' Hd. revert Hstep Hd. generalize (exec j a s). intros s' Hstep Hd.
    destruct a as [|t ok|err| | | | |d].
    2: { unfold step in Hstep.
         destruct (handlers s !! t) as [pc|] eqn:Hpc; [|discriminate].
         destruct pc; invert_step Hstep; simpl in Hd; eauto. }
    all: invert_step Hstep; simpl in Hd; try discriminate; eauto;
      congruence. }
  unfold returned. intros Hret.
  destruct (main (run j sched init)) eqn:Hm; try discriminate.
  injection Hret as <- <-. eapply H; [|exact Hm]. simpl. discriminate.
Qed.

(** The trace is only ever extended. *)
Lemma step_events_grow (j : Job) (a : Action) (s s' : State) :
  step j a s = Some s' -> exists l, events s' = events s ++ l.
Proof.
  intros Hstep. destruct a as [|t ok|err| | | | |d].
  2: { unfold step in Hstep.
       destruct (handlers s !! t) as [pc|] eqn:Hpc; [|discriminate].
       destruct pc; invert_step Hstep; simpl;
         first [ by exists [] ; rewrite app_nil_r | by eexists ]. }
  all: invert_step Hstep; simpl;
    first [ by exists [] ; rewrite app_nil_r
          | by eexists
          | by rewrite <- !app_assoc; eexists ].
Qed.

Lemma run_events_grow (j : Job) (sched : list Action) (s : State) :
  exists l, events (run j sched s) = events s ++ l.
Proof.
  revert s. induction sched as [|a sched IH]; intros s; simpl.
  - exists []. rewrite app_nil_r. reflexivity.
  - destruct (IH (exec j a s)) as [l Hl]. rewrite Hl.
    destruct (exec_cases j a s) as [->|Hstep]; [eauto|].
    destruct (step_events_grow j a s _ Hstep) as [l' ->].
    exists (l' ++ l). rewrite app_assoc. reflexivity.
Qed.

(** C6 as stated fails for [processShovelRequest]: [Receive] fails at once,
    the job ends after the grace period and returns its count with a nil
    error; the failure is in the log only. *)
Lemma receive_error_not_surfaced :
  let out := processShovelRequest (healthy receiveFails) boundedReq in
  effects out = [ELogReceiveError "stream broken"; ELogCompleted;
                 ELogShovelCompleted 0 0; ECancel; EClose]
  /\ result out = Some (0, None)
  /\ ~ (exists n e, result out = Some (n, Some e)).
Proof.
  vm_compute. repeat split. intros (n & e & H). discriminate H.
Qed.

(** C6, as the source has it.  In [processShovelRequest], once [Receive] has
    returned, with an error or without, the job need not wait for its
    timeout: under a schedule that lets the goroutines run it logs the
    error, waits the grace period and returns the value of
    [processedCount], at least what had been counted so far, with a nil
    error; whatever the schedule, the error it returns after the start-up
    checks is nil.  In [processMessages] an error of [Receive] other than
    [context.Canceled] is returned, wrapped, with the count, and
    [context.Canceled] is not returned. *)
Theorem receive_failure_outcome :
  (forall (j : Job) (s : State) (err : error),
      0 <= maxMessages j -> reachable j s ->
      recv s = RReturned err -> main s = MSelect ->
      exists sched,
        let s' := run j sched s in
        returned s' = Some (processedCount s', None)
        /\ processedCount s <= processedCount s'
        /\ now s' = now s + drainGrace
        /\ (forall e, err = Some e -> ELogReceiveError e ∈ events s'))
  /\ (forall (env : Env) (req : ShovelRequest) (n : Z) (e : string),
        result (processShovelRequest env req) = Some (n, Some e) ->
        n = 0 /\ (effects (processShovelRequest env req) = []
                  \/ effects (processShovelRequest env req) = [EClose]))
  /\ (forall (env : Main.Env) (req : ShovelRequest) (e : string),
        Main.newClient env (Main.extractProjectID (SourceSubscription req))
          = None ->
        Main.topicExists env (Main.extractResourceName (TargetTopic req))
          = (true, None) ->
        (Main.receiveErr env = Main.ReceiveFailed e ->
         Main.processMessages env req
         = (Main.finalCount env,
            Some ("error during message processing: " +:+ e)))
        /\ (Main.receiveErr env = Main.ReceiveCanceled ->
            Main.processMessages env req = (Main.finalCount env, None))).
Proof.
  split; [|split].
  - intros j s err Hj Hreach Hr Hm.
    set (s1 := run j [ARecv; AMainDone; AMain; ATick drainGrace; AMain] s).
    destruct (run_to_wakeup j s err Hr Hm) as (Hm1 & Hnow1 & Hp1 & Hlog1).
    fold s1 in Hm1, Hnow1, Hp1, Hlog1.
    assert (HI1 : Inv j s1)
      by (apply reachable_Inv; [assumption | apply reachable_run; assumption]).
    destruct (holder_releases j s1 HI1) as (rel & Hmx2 & Hm2 & _ & Hnow2);
      [rewrite Hm1; reflexivity|].
    set (s2 := run j rel s1) in *.
    destruct (run_final_read j s2) as (Hret & Hp3 & Hnow3);
      [rewrite Hm2; exact Hm1 | exact Hmx2 |].
    exists ([ARecv; AMainDone; AMain; ATick drainGrace; AMain] ++ rel
            ++ [AMain; AMain; AMain; AMain; AMain]).
    cbv zeta. rewrite !run_app. fold s1. fold s2.
    set (s3 := run j [AMain; AMain; AMain; AMain; AMain] s2) in *.
    split; [rewrite Hp3; exact Hret|].
    split; [|split].
    + rewrite Hp3, <- Hp1. apply run_monotone.
    + rewrite Hnow3, Hnow2, Hnow1. reflexivity.
    + intros e He. specialize (Hlog1 e He).
      unfold s3, s2. rewrite <- run_app.
      destruct (run_events_grow j (rel ++ [AMain; AMain; AMain; AMain; AMain])
                  s1) as [l ->].
      apply elem_of_app. left. exact Hlog1.
  - intros env req n e. unfold processShovelRequest.
    destruct (newClient env _) as [e0|]; simpl.
    { intros [= <- _]. auto. }
    destruct (topicExists env _) as [[] [e1|]]; simpl;
      try (intros [= <- _]; auto).
    intros Hret. apply returned_error_nil in Hret. discriminate Hret.
  - intros env req e Hc Ht. unfold Main.processMessages.
    rewrite Hc, Ht. split; intros ->; reflexivity.
Qed.

(** ** Start-up checks *)


(** ** Timeouts *)

Lemma step_forward (j : Job) (a : Action) (s s' : State) :
  step j a s = Some s' ->
  (mrank (main s) <= mrank (main s'))%nat
  /\ (rrank (recv s) <= rrank (recv s'))%nat.
Proof.
  intros Hstep. destruct a as [|t ok|err| | | | |d].
  2: { unfold step in Hstep.
       destruct (handlers s !! t) as [pc|] eqn:Hpc; [|discriminate].
       destruct pc; invert_step Hstep; simpl; lia. }
  all: invert_step Hstep; simpl;
    repeat match goal with H : _ = _ |- _ => rewrite H end; simpl; lia.
Qed.

(** * Resource names *)

Lemma append_cons (c : ascii) (s t : string) :
  String c s +:+ t = String c (s +:+ t).
Proof. reflexivity. Qed.

Lemma append_nil_l (t : string) : EmptyString +:+ t = t.
Proof. reflexivity. Qed.

Lemma append_empty_r (s : string) : s +:+ EmptyString = s.
Proof. induction s as [|c s IH]; [reflexivity|]. rewrite append_cons, IH. reflexivity. Qed.

Lemma append_assoc (a b c : string) : (a +:+ b) +:+ c = a +:+ (b +:+ c).
Proof.
  induction a as [|x a IH]; [reflexivity|].
  rewrite !append_cons, IH. reflexivity.
Qed.

(** ** Bytes *)

Ltac bytes :=
  unfold valid2, valid3, valid4, isCont, between in *;
  repeat match goal with
         | H : _ && _ = true |- _ => apply andb_true_iff in H; destruct H
         | H : _ || _ = true |- _ => apply orb_true_iff in H; destruct H
         | H : (_ <=? _)%N = true |- _ => apply N.leb_le in H
         | H : (_ <? _)%N = true |- _ => apply N.ltb_lt in H
         | H : (_ <=? _)%N = false |- _ => apply N.leb_gt in H
         | H : (_ <? _)%N = false |- _ => apply N.ltb_ge in H
         | H : _ && _ = false |- _ => apply andb_false_iff in H; destruct H
         | H : _ || _ = false |- _ => apply orb_false_iff in H; destruct H
         end;
  try lia.

Lemma bool_false (b : bool) : (b = true -> False) -> b = false.
Proof. destruct b; [intros H; destruct (H eq_refl)|reflexivity]. Qed.

Lemma v2_nc (b0 b1 : ascii) : isCont b1 = false -> valid2 b0 b1 = false.
Proof. intros H. apply bool_false. intros V. bytes. Qed.

Lemma v3_nc1 (b0 b1 b2 : ascii) : isCont b1 = false -> valid3 b0 b1 b2 = false.
Proof. intros H. apply bool_false. intros V. bytes. Qed.

Lemma v3_nc2 (b0 b1 b2 : ascii) : isCont b2 = false -> valid3 b0 b1 b2 = false.
Proof. intros H. apply bool_false. intros V. bytes. Qed.

Lemma v4_nc1 (b0 b1 b2 b3 : ascii) : isCont b1 = false -> valid4 b0 b1 b2 b3 = false.
Proof. intros H. apply bool_false. intros V. bytes. Qed.

Lemma v4_nc2 (b0 b1 b2 b3 : ascii) : isCont b2 = false -> valid4 b0 b1 b2 b3 = false.
Proof. intros H. apply bool_false. intros V. bytes. Qed.

Lemma v4_nc3 (b0 b1 b2 b3 : ascii) : isCont b3 = false -> valid4 b0 b1 b2 b3 = false.
Proof. intros H. apply bool_false. intros V. bytes. Qed.

Lemma v2_lead (b0 b1 : ascii) : valid2 b0 b1 = true -> (194 <= byteOf b0 <= 223)%N.
Proof. intros V. bytes. Qed.

Lemma v3_lead (b0 b1 b2 : ascii) : valid3 b0 b1 b2 = true -> (224 <= byteOf b0 <= 239)%N.
Proof. intros V. bytes. Qed.

Lemma v4_lead (b0 b1 b2 b3 : ascii) : valid4 b0 b1 b2 b3 = true -> (240 <= byteOf b0 <= 244)%N.
Proof. intros V. bytes. Qed.

Lemma v2_cont (b0 b1 : ascii) : valid2 b0 b1 = true -> isCont b1 = true.
Proof. intros V. unfold valid2 in V. apply andb_true_iff in V. tauto. Qed.

Lemma v3_cont (b0 b1 b2 : ascii) :
  valid3 b0 b1 b2 = true -> (128 <= byteOf b1)%N /\ (128 <= byteOf b2)%N.
Proof. intros V. bytes. Qed.

Lemma v4_cont (b0 b1 b2 b3 : ascii) :
  valid4 b0 b1 b2 b3 = true ->
  (128 <= byteOf b1)%N /\ (128 <= byteOf b2)%N /\ (128 <= byteOf b3)%N.
Proof. intros V. bytes. Qed.

Lemma byteOf_slash : byteOf "/" = 47%N.
Proof. reflexivity. Qed.

Lemma slash_not_cont : isCont "/" = false.
Proof. reflexivity. Qed.

Lemma single_rune (b0 : ascii) : isRune (single b0) = true.
Proof.
  unfold single. destruct (byteOf b0 <? 128)%N eqn:H; [exact H | reflexivity].
Qed.

Lemma single_slash (b0 : ascii) : single b0 = "/"%string <-> b0 = "/"%char.
Proof.
  unfold single. destruct (byteOf b0 <? 128)%N eqn:H.
  - split; [intros [= ->]; reflexivity | intros ->; reflexivity].
  - split; [discriminate|]. intros ->. discriminate H.
Qed.

Lemma single_keeps (b0 : ascii) :
  single b0 = RuneError \/ single b0 = String b0 EmptyString.
Proof. unfold single. destruct (byteOf b0 <? 128)%N; auto. Qed.

Lemma lead_not_slash (b0 : ascii) : (128 <= byteOf b0)%N -> b0 <> "/"%char.
Proof. intros H ->. rewrite byteOf_slash in H. lia. Qed.

(** One turn of the loop over a string [String b0 (a0 +:+ X)], where [X]
    is empty or starts with a byte that continues no encoding: the rune
    [c] read, and the number [k] of bytes of [a0] that went into it. *)
Lemma runes_step (b0 : ascii) (a0 X : string) :
  barrier X ->
  exists (c : string) (k : nat),
    (k <= String.length a0)%nat
    /\ runes (String b0 (a0 +:+ X)) = c :: runes (skip k a0 +:+ X)
    /\ runes (String b0 a0) = c :: runes (skip k a0)
    /\ isRune c = true
    /\ (c = "/"%string <-> b0 = "/"%char)
    /\ (b0 = "/"%char -> k = 0%nat).
Proof.
  intros HX.
  assert (Hsingle : forall k a, (k <= String.length a0)%nat ->
            runes (String b0 (a0 +:+ X)) = single b0 :: runes (a0 +:+ X) ->
            runes (String b0 a0) = single b0 :: runes a0 ->
            k = 0%nat -> a = a0 ->
            exists (c : string) (k : nat),
              (k <= String.length a0)%nat
              /\ runes (String b0 (a0 +:+ X)) = c :: runes (skip k a0 +:+ X)
              /\ runes (String b0 a0) = c :: runes (skip k a0)
              /\ isRune c = true
              /\ (c = "/"%string <-> b0 = "/"%char)
              /\ (b0 = "/"%char -> k = 0%nat)).
  { intros k a Hk H1 H2 -> ->. exists (single b0), 0%nat.
    split; [lia|]. split; [exact H1|]. split; [exact H2|].
    split; [apply single_rune|]. split; [apply single_slash|]. reflexivity. }
  destruct a0 as [|b1 a1].
  - rewrite append_nil_l. apply (Hsingle 0%nat EmptyString); try reflexivity.
    destruct X as [|x [|y [|z X']]]; simpl in HX; simpl;
      rewrite ?(v2_nc _ _ HX), ?(v3_nc1 _ _ _ HX), ?(v4_nc1 _ _ _ _ HX);
      reflexivity.
  - rewrite append_cons.
    destruct (valid2 b0 b1) eqn:V2.
    { exists (String b0 (String b1 EmptyString)), 1%nat.
      split; [simpl; lia|]. split; [simpl; rewrite V2; reflexivity|].
      split; [simpl; rewrite V2; reflexivity|].
      split; [exact V2|].
      pose proof (v2_lead _ _ V2) as Hl.
      split; [split; [discriminate|]|];
        intros ->; rewrite byteOf_slash in Hl; lia. }
    destruct a1 as [|b2 a2].
    + rewrite append_nil_l. apply (Hsingle 0%nat (String b1 EmptyString));
        try reflexivity; [simpl; lia| |simpl; rewrite V2; reflexivity].
      destruct X as [|y [|z X']]; simpl in HX; simpl; rewrite V2;
        rewrite ?(v3_nc2 _ _ _ HX), ?(v4_nc2 _ _ _ _ HX); reflexivity.
    + rewrite append_cons.
      destruct (valid3 b0 b1 b2) eqn:V3.
      { exists (String b0 (String b1 (String b2 EmptyString))), 2%nat.
        split; [simpl; lia|]. split; [simpl; rewrite V2, V3; reflexivity|].
        split; [simpl; rewrite V2, V3; reflexivity|].
        split; [exact V3|].
        pose proof (v3_lead _ _ _ V3) as Hl.
        split; [split; [discriminate|]|];
          intros ->; rewrite byteOf_slash in Hl; lia. }
      destruct a2 as [|b3 a3].
      * rewrite append_nil_l.
        apply (Hsingle 0%nat (String b1 (String b2 EmptyString)));
          try reflexivity; [simpl; lia| |simpl; rewrite V2, V3; reflexivity].
        destruct X as [|z X']; simpl in HX; simpl; rewrite V2, V3;
          rewrite ?(v4_nc3 _ _ _ _ HX); reflexivity.
      * rewrite append_cons.
        destruct (valid4 b0 b1 b2 b3) eqn:V4.
        { exists (String b0 (String b1 (String b2 (String b3 EmptyString)))), 3%nat.
          split; [simpl; lia|]. split; [simpl; rewrite V2, V3, V4; reflexivity|].
          split; [simpl; rewrite V2, V3, V4; reflexivity|].
          split; [exact V4|].
          pose proof (v4_lead _ _ _ _ V4) as Hl.
          split; [split; [discriminate|]|];
            intros ->; rewrite byteOf_slash in Hl; lia. }
        rewrite <- !append_cons.
        apply (Hsingle 0%nat (String b1 (String b2 (String b3 a3))));
          try reflexivity; [simpl; lia| |].
        -- rewrite !append_cons. simpl. rewrite V2, V3, V4. reflexivity.
        -- simpl. rewrite V2, V3, V4. reflexivity.
Qed.

Lemma runes_cons (b0 : ascii) (r0 : string) :
  exists (c : string) (k : nat),
    (k <= String.length r0)%nat
    /\ runes (String b0 r0) = c :: runes (skip k r0)
    /\ isRune c = true
    /\ (c = "/"%string <-> b0 = "/"%char)
    /\ (b0 = "/"%char -> k = 0%nat).
Proof.
  destruct (runes_step b0 r0 EmptyString I) as (c & k & Hk & _ & H & Hr & Hs & H0).
  exists c, k. auto.
Qed.

Lemma skip_length (k : nat) (s : string) :
  (String.length (skip k s) <= String.length s)%nat.
Proof.
  revert s. induction k as [|k IH]; intros s; [simpl; lia|].
  destruct s as [|c s]; simpl; [lia|]. specialize (IH s). lia.
Qed.

Lemma skip_append (k : nat) (a X : string) :
  (k <= String.length a)%nat -> skip k (a +:+ X) = skip k a +:+ X.
Proof.
  revert a. induction k as [|k IH]; intros a Hk.
  - destruct a; reflexivity.
  - destruct a as [|c a]; simpl in Hk; [lia|].
    rewrite append_cons. simpl. apply IH. lia.
Qed.

Lemma skip_hasSlash (k : nat) (s : string) :
  hasSlash s = false -> hasSlash (skip k s) = false.
Proof.
  revert s. induction k as [|k IH]; intros s Hs; [destruct s; exact Hs|].
  destruct s as [|c s]; [exact Hs|]. simpl in *.
  destruct (decide (c = "/"%char)); [discriminate|]. apply IH, Hs.
Qed.

(** Induction on strings along the suffixes the loop visits. *)
Lemma string_suffix_ind (P : string -> Prop) :
  P EmptyString ->
  (forall b0 r0, (forall k, P (skip k r0)) -> P (String b0 r0)) ->
  forall s, P s.
Proof.
  intros H0 Hstep s.
  assert (H : forall n s, (String.length s <= n)%nat -> P s).
  { clear s. induction n as [|n IH]; intros s Hn.
    - destruct s; [exact H0 | simpl in Hn; lia].
    - destruct s as [|b0 r0]; [exact H0|]. apply Hstep. intros k.
      apply IH. pose proof (skip_length k r0). simpl in Hn. lia. }
  apply (H (String.length s)). lia.
Qed.

(** Every rune the loop sees is the encoding of one rune. *)
Lemma runes_isRune (s : string) : Forall (fun c => isRune c = true) (runes s).
Proof.
  induction s as [|b0 r0 IH] using string_suffix_ind; [constructor|].
  destruct (runes_cons b0 r0) as (c & k & _ & -> & Hr & _).
  constructor; [exact Hr | apply IH].
Qed.

Lemma runes_nil (s : string) : runes s = [] <-> s = EmptyString.
Proof.
  split; [|intros ->; reflexivity].
  destruct s as [|b0 r0]; [reflexivity|].
  destruct (runes_cons b0 r0) as (c & k & _ & -> & _). discriminate.
Qed.

(** The separator is a rune of its own exactly where the byte ['/'] stands. *)
Lemma runes_through_slash (a b : string) :
  runes (a +:+ String "/"%char b) = runes a ++ "/"%string :: runes b.
Proof.
  induction a as [|b0 a0 IH] using string_suffix_ind.
  - rewrite append_nil_l.
    destruct (runes_cons "/"%char b) as (c & k & _ & -> & _ & Hs & H0).
    rewrite (H0 eq_refl). replace c with "/"%string by (symmetry; apply Hs; reflexivity).
    destruct b; reflexivity.
  - rewrite append_cons.
    destruct (runes_step b0 a0 (String "/"%char b) slash_not_cont)
      as (c & k & Hk & -> & -> & _).
    rewrite IH. reflexivity.
Qed.

Lemma runes_no_slash (s : string) :
  hasSlash s = false -> Forall (fun c => c <> "/"%string) (runes s).
Proof.
  induction s as [|b0 r0 IH] using string_suffix_ind; intros Hs; [constructor|].
  simpl in Hs. destruct (decide (b0 = "/"%char)) as [|Hne]; [discriminate|].
  destruct (runes_cons b0 r0) as (c & k & _ & -> & _ & Hc & _).
  constructor; [intros H; apply Hne, Hc, H|].
  apply IH, skip_hasSlash, Hs.
Qed.

Lemma runes_onlySlashes (s : string) :
  Forall (fun c => c = "/"%string) (runes s) <-> onlySlashes s = true.
Proof.
  induction s as [|b0 r0 IH] using string_suffix_ind; [split; [reflexivity|constructor]|].
  destruct (runes_cons b0 r0) as (c & k & _ & -> & _ & Hc & H0).
  simpl. destruct (decide (b0 = "/"%char)) as [->|Hne].
  - rewrite (H0 eq_refl). specialize (IH 0%nat).
    assert (Hsk : skip 0 r0 = r0) by (destruct r0; reflexivity).
    rewrite Hsk in *. rewrite <- IH. split.
    + intros H. inversion H; assumption.
    + intros H. constructor; [apply Hc; reflexivity | exact H].
  - split; [|discriminate]. intros H. inversion H as [|? ? H1 H2]; subst.
    exfalso. apply Hne, Hc. reflexivity.
Qed.

(** What [string(char)] writes is read back as the same rune. *)
Lemma runes_rune_app (c rest : string) :
  isRune c = true -> runes (c +:+ rest) = c :: runes rest.
Proof.
  intros Hc.
  destruct c as [|b0 [|b1 [|b2 [|b3 [|b4 c']]]]]; simpl in Hc; try discriminate.
  - rewrite append_cons, append_nil_l.
    assert (H2 : forall b1, valid2 b0 b1 = false)
      by (intros b1; apply bool_false; intros V; bytes).
    assert (H3 : forall b1 b2, valid3 b0 b1 b2 = false)
      by (intros b1 b2; apply bool_false; intros V; bytes).
    assert (H4 : forall b1 b2 b3, valid4 b0 b1 b2 b3 = false)
      by (intros b1 b2 b3; apply bool_false; intros V; bytes).
    assert (Hs : single b0 = String b0 EmptyString)
      by (unfold single; rewrite Hc; reflexivity).
    destruct rest as [|x [|y [|z r]]]; simpl; rewrite ?H2, ?H3, ?H4, Hs;
      reflexivity.
  - rewrite !append_cons, append_nil_l. simpl. rewrite Hc. reflexivity.
  - rewrite !append_cons, append_nil_l.
    assert (H2 : valid2 b0 b1 = false)
      by (apply bool_false; intros V; bytes).
    simpl. rewrite H2, Hc. reflexivity.
  - rewrite !append_cons, append_nil_l.
    assert (H2 : valid2 b0 b1 = false)
      by (apply bool_false; intros V; bytes).
    assert (H3 : valid3 b0 b1 b2 = false)
      by (apply bool_false; intros V; bytes).
    simpl. rewrite H2, H3, Hc. reflexivity.
Qed.

Lemma runes_concat_app (cs : list string) (rest : string) :
  Forall (fun c => isRune c = true) cs ->
  runes (foldr String.append EmptyString cs +:+ rest) = cs ++ runes rest.
Proof.
  induction cs as [|c cs IH]; intros Hcs; [reflexivity|].
  inversion Hcs as [|? ? Hc Hrest]; subst. simpl foldr.
  rewrite append_assoc, (runes_rune_app _ _ Hc), (IH Hrest). reflexivity.
Qed.

Lemma runes_concat (cs : list string) :
  Forall (fun c => isRune c = true) cs ->
  runes (foldr String.append EmptyString cs) = cs.
Proof.
  intros Hcs. rewrite <- (append_empty_r (foldr _ _ cs)).
  rewrite (runes_concat_app cs EmptyString Hcs). apply app_nil_r.
Qed.

(** Rebuilding is idempotent: what the loop writes is valid UTF-8. *)
Lemma rebuilt_valid (s : string) : validUTF8 (rebuilt s).
Proof.
  unfold validUTF8, rebuilt. rewrite (runes_concat _ (runes_isRune s)).
  reflexivity.
Qed.

Lemma runes_rebuilt (s : string) : runes (rebuilt s) = runes s.
Proof. unfold rebuilt. apply runes_concat, runes_isRune. Qed.

Lemma isRune_nonempty (c : string) : isRune c = true -> c <> EmptyString.
Proof. intros H ->. discriminate H. Qed.

Lemma isRune_hasSlash (c : string) :
  isRune c = true -> c <> "/"%string -> hasSlash c = false.
Proof.
  intros Hc Hne.
  assert (Hhi : forall b, (128 <= byteOf b)%N ->
                          (if decide (b = "/"%char) then true else false) = false).
  { intros b Hb. destruct (decide (b = "/"%char)) as [->|]; [|reflexivity].
    rewrite byteOf_slash in Hb. lia. }
  destruct c as [|b0 [|b1 [|b2 [|b3 [|b4 c']]]]]; simpl in Hc; try discriminate.
  - simpl. destruct (decide (b0 = "/"%char)) as [->|]; [congruence|reflexivity].
  - pose proof (v2_lead _ _ Hc). pose proof (v2_cont _ _ Hc) as Hb1.
    assert (128 <= byteOf b1)%N by bytes.
    simpl. destruct (decide (b0 = "/"%char)) as [->|];
      [rewrite byteOf_slash in *; lia|].
    destruct (decide (b1 = "/"%char)) as [->|];
      [rewrite byteOf_slash in *; lia|]. reflexivity.
  - pose proof (v3_lead _ _ _ Hc). pose proof (v3_cont _ _ _ Hc) as [? ?].
    simpl. destruct (decide (b0 = "/"%char)) as [->|];
      [rewrite byteOf_slash in *; lia|].
    destruct (decide (b1 = "/"%char)) as [->|];
      [rewrite byteOf_slash in *; lia|].
    destruct (decide (b2 = "/"%char)) as [->|];
      [rewrite byteOf_slash in *; lia|]. reflexivity.
  - pose proof (v4_lead _ _ _ _ Hc). pose proof (v4_cont _ _ _ _ Hc) as (? & ? & ?).
    simpl. destruct (decide (b0 = "/"%char)) as [->|];
      [rewrite byteOf_slash in *; lia|].
    destruct (decide (b1 = "/"%char)) as [->|];
      [rewrite byteOf_slash in *; lia|].
    destruct (decide (b2 = "/"%char)) as [->|];
      [rewrite byteOf_slash in *; lia|].
    destruct (decide (b3 = "/"%char)) as [->|];
      [rewrite byteOf_slash in *; lia|]. reflexivity.
Qed.

Lemma hasSlash_append (a b : string) :
  hasSlash (a +:+ b) = hasSlash a || hasSlash b.
Proof.
  induction a as [|x a IH]; [reflexivity|].
  rewrite append_cons. simpl. destruct (decide (x = "/"%char)); auto.
Qed.

Lemma append_nonempty_r (a c : string) :
  c <> EmptyString -> a +:+ c <> EmptyString.
Proof. destruct a; [intros H; exact H | discriminate]. Qed.

(** The segments collected so far are a prefix of the result. *)
Lemma splitLoop_prefix (chars : list string) (r1 r2 : list string) (current : string) :
  splitLoop chars (r1 ++ r2) current = r1 ++ splitLoop chars r2 current.
Proof.
  revert r2 current. induction chars as [|c rest IH]; intros r2 current; simpl.
  - destruct (decide (current = EmptyString)); [reflexivity|].
    rewrite app_assoc. reflexivity.
  - destruct (decide (c = "/"%string)); [|apply IH].
    destruct (decide (current = EmptyString)); [apply IH|].
    rewrite <- IH, app_assoc. reflexivity.
Qed.

Lemma splitLoop_through_slash (l1 l2 : list string) (result : list string) (current : string) :
  splitLoop (l1 ++ "/"%string :: l2) result current
  = splitLoop l2 (splitLoop l1 result current) EmptyString.
Proof.
  revert result current. induction l1 as [|c l1 IH]; intros result current.
  - simpl. destruct (decide ("/"%string = "/"%string)); [|congruence].
    destruct (decide (current = EmptyString)) as [->|]; reflexivity.
  - simpl. destruct (decide (c = "/"%string)); [|apply IH].
    destruct (decide (current = EmptyString)); apply IH.
Qed.

(** Splitting goes through a separator: what comes before it is split on
    its own. *)
Lemma split_through_slash (a b : string) :
  splitResourceName (a +:+ String "/"%char b)
  = splitResourceName a ++ splitResourceName b.
Proof.
  unfold splitResourceName.
  rewrite runes_through_slash, splitLoop_through_slash.
  rewrite <- (app_nil_r (splitLoop (runes a) [] EmptyString)) at 1.
  apply splitLoop_prefix.
Qed.

(** Runes other than the separator all go into the current segment. *)
Lemma splitLoop_no_slash (chars : list string) (result : list string) (current : string) :
  Forall (fun c => c <> "/"%string) chars ->
  splitLoop chars result current
  = if decide (current +:+ foldr String.append EmptyString chars = EmptyString)
    then result
    else result ++ [current +:+ foldr String.append EmptyString chars].
Proof.
  revert current. induction chars as [|c rest IH]; intros current Hs; simpl.
  - rewrite append_empty_r. reflexivity.
  - inversion Hs as [|? ? Hc Hrest]; subst.
    destruct (decide (c = "/"%string)); [contradiction|].
    rewrite (IH _ Hrest), append_assoc. reflexivity.
Qed.

Lemma rebuilt_empty (name : string) : rebuilt name = EmptyString <-> name = EmptyString.
Proof.
  split; [|intros ->; reflexivity].
  destruct name as [|b0 r0]; [reflexivity|]. unfold rebuilt.
  destruct (runes_cons b0 r0) as (c & k & _ & -> & Hc & _). simpl.
  intros H. exfalso. destruct c; [discriminate Hc | discriminate H].
Qed.

(** A name without ['/'] is one segment, the name as the loop rebuilds
    it, unless empty. *)
Lemma split_no_slash (name : string) :
  hasSlash name = false ->
  splitResourceName name
  = if decide (name = EmptyString) then [] else [rebuilt name].
Proof.
  intros Hs. unfold splitResourceName.
  rewrite (splitLoop_no_slash _ _ _ (runes_no_slash name Hs)).
  rewrite append_nil_l. fold (rebuilt name).
  destruct (decide (name = EmptyString)) as [->|Hne]; [reflexivity|].
  destruct (decide (rebuilt name = EmptyString)) as [He|]; [|reflexivity].
  exfalso. apply Hne, rebuilt_empty, He.
Qed.

Lemma foldr_append_acc (cs : list string) (x : string) :
  foldr String.append x cs = foldr String.append EmptyString cs +:+ x.
Proof.
  induction cs as [|c cs IH]; [reflexivity|]. simpl.
  rewrite IH, append_assoc. reflexivity.
Qed.

Lemma runes_valid_app (current rest : string) :
  validUTF8 current -> runes (current +:+ rest) = runes current ++ runes rest.
Proof.
  intros Hv. unfold validUTF8, rebuilt in Hv.
  rewrite <- Hv at 1. apply runes_concat_app, runes_isRune.
Qed.

Lemma rebuilt_app_rune (current c : string) :
  validUTF8 current -> isRune c = true -> validUTF8 (current +:+ c).
Proof.
  intros Hv Hc. unfold validUTF8, rebuilt.
  rewrite (runes_valid_app current c Hv).
  rewrite <- (append_empty_r c) at 1.
  rewrite (runes_rune_app c EmptyString Hc). simpl runes.
  rewrite foldr_app. simpl foldr at 2. rewrite append_empty_r.
  rewrite foldr_append_acc. unfold validUTF8, rebuilt in Hv. rewrite Hv.
  reflexivity.
Qed.

Lemma splitLoop_segments (chars : list string) (result : list string) (current : string) :
  Forall (fun c => isRune c = true) chars ->
  Forall segment result -> hasSlash current = false -> validUTF8 current ->
  Forall segment (splitLoop chars result current).
Proof.
  revert result current. induction chars as [|c rest IH];
    intros result current Hcs Hr Hc Hv; simpl.
  - destruct (decide (current = EmptyString)); [exact Hr|].
    apply Forall_app. split; [exact Hr|]. constructor; [|constructor].
    repeat split; assumption.
  - inversion Hcs as [|? ? Hrune Hrest]; subst.
    destruct (decide (c = "/"%string)) as [->|Hne].
    + destruct (decide (current = EmptyString)); [apply IH; assumption|].
      apply IH; [exact Hrest| |reflexivity|reflexivity].
      apply Forall_app. split; [exact Hr|]. constructor; [|constructor].
      repeat split; assumption.
    + apply IH; [exact Hrest|exact Hr| |].
      * rewrite hasSlash_append, Hc. simpl. apply isRune_hasSlash; assumption.
      * apply rebuilt_app_rune; assumption.
Qed.

Lemma split_segments (name : string) : Forall segment (splitResourceName name).
Proof.
  apply splitLoop_segments;
    [apply runes_isRune | constructor | reflexivity | reflexivity].
Qed.

Lemma splitLoop_nil_iff (chars : list string) (current : string) :
  Forall (fun c => isRune c = true) chars ->
  splitLoop chars [] current = []
  <-> current = EmptyString /\ Forall (fun c => c = "/"%string) chars.
Proof.
  revert current. induction chars as [|c rest IH]; intros current Hcs; simpl.
  - destruct (decide (current = EmptyString)); split; intros H;
      try discriminate; try (split; [assumption|constructor]).
    + reflexivity.
    + destruct H; contradiction.
  - inversion Hcs as [|? ? Hrune Hrest]; subst.
    destruct (decide (c = "/"%string)) as [->|Hnc].
    + destruct (decide (current = EmptyString)) as [->|Hne].
      * rewrite (IH _ Hrest). split; intros [H1 H2]; split; auto.
        inversion H2; assumption.
      * split; [|intros [? _]; contradiction].
        intros H. exfalso.
        change [current] with ([current] ++ []) in H.
        rewrite splitLoop_prefix in H. discriminate H.
    + rewrite (IH _ Hrest). split.
      * intros [H _]. exfalso.
        apply (append_nonempty_r current c (isRune_nonempty c Hrune)). exact H.
      * intros [_ H]. inversion H; contradiction.
Qed.

Lemma split_nil_iff (name : string) :
  splitResourceName name = [] <-> onlySlashes name = true.
Proof.
  unfold splitResourceName.
  rewrite (splitLoop_nil_iff _ _ (runes_isRune name)), runes_onlySlashes.
  intuition.
Qed.

Lemma split_clean_lookup (name : string) (i : nat) (seg : string) :
  splitResourceName name !! i = Some seg -> segment seg.
Proof.
  intros Hi. pose proof (split_segments name) as Hall.
  rewrite Forall_lookup in Hall. eapply Hall. exact Hi.
Qed.

Lemma split_clean_segment (seg : string) :
  cleanSegment seg -> splitResourceName seg = [rebuilt seg].
Proof.
  intros [Hne Hs]. rewrite (split_no_slash seg Hs).
  destruct (decide (seg = EmptyString)); [contradiction|reflexivity].
Qed.

Lemma split_segment (seg : string) :
  segment seg -> splitResourceName seg = [seg].
Proof.
  intros [Hc Hv]. rewrite (split_clean_segment seg Hc), Hv. reflexivity.
Qed.

Lemma split_join (parts : list string) :
  Forall cleanSegment parts ->
  splitResourceName (joinSlash parts) = map rebuilt parts.
Proof.
  induction parts as [|seg rest IH]; intros Hall; [reflexivity|].
  inversion Hall as [|? ? Hseg Hrest]; subst.
  destruct rest as [|seg' rest'].
  - apply split_clean_segment. exact Hseg.
  - change (joinSlash (seg :: seg' :: rest'))
      with (seg +:+ String "/"%char (joinSlash (seg' :: rest'))).
    rewrite split_through_slash, (split_clean_segment seg Hseg), (IH Hrest).
    reflexivity.
Qed.

Lemma map_rebuilt_valid (parts : list string) :
  Forall validUTF8 parts -> map rebuilt parts = parts.
Proof.
  induction 1 as [|seg rest Hv _ IH]; [reflexivity|].
  simpl. rewrite Hv, IH. reflexivity.
Qed.

Lemma ascii_valid (s : string) : isASCII s = true -> validUTF8 s.
Proof.
  unfold validUTF8, rebuilt. induction s as [|c s IH]; [reflexivity|].
  simpl isASCII. intros H. apply andb_true_iff in H as [Hc Hs].
  change (String c s) with (String c EmptyString +:+ s).
  rewrite (runes_rune_app (String c EmptyString) s Hc). simpl.
  rewrite (IH Hs). reflexivity.
Qed.

(** On a name without ['/'] package [main] returns the name, package
    [shovel] the name as the loop rebuilds it. *)
Lemma extractResourceName_no_slash (fqdn : string) :
  hasSlash fqdn = false ->
  Main.extractResourceName fqdn = fqdn
  /\ Shovel.extractResourceName fqdn = rebuilt fqdn.
Proof.
  intros Hs. unfold Main.extractResourceName, Shovel.extractResourceName.
  rewrite (split_no_slash fqdn Hs).
  destruct (decide (fqdn = EmptyString)) as [->|Hne]; split; reflexivity.
Qed.

(** C10 as stated fails: on ["topics/t"], two segments, package [main]
    returns the whole input and package [shovel] the last segment; and on
    the single byte [0xFF], which is no valid UTF-8, package [main]
    returns the input and package [shovel] the rune U+FFFD. *)
Lemma extractResourceName_differ :
  Main.extractResourceName "topics/t" = "topics/t"%string
  /\ Shovel.extractResourceName "topics/t" = "t"%string
  /\ Main.extractResourceName (String "255" EmptyString)
     = String "255" EmptyString
  /\ Shovel.extractResourceName (String "255" EmptyString) = RuneError
  /\ ~ (forall fqdn : string,
          Main.extractResourceName fqdn = Shovel.extractResourceName fqdn).
Proof.
  split; [reflexivity|]. split; [reflexivity|].
  split; [reflexivity|]. split; [reflexivity|].
  intros H. specialize (H "topics/t"%string). vm_compute in H. discriminate H.
Qed.

(** C10, as the source has it: the two [extractResourceName] return the same
    on every input of exactly four non-empty segments, the documented
    [projects/P/topics/T] form, and on every input without a ['/'] that
    is valid UTF-8. *)
Theorem extractResourceName_agree (fqdn : string) :
  length (splitResourceName fqdn) = 4%nat
  \/ (hasSlash fqdn = false /\ validUTF8 fqdn) ->
  Main.extractResourceName fqdn = Shovel.extractResourceName fqdn.
Proof.
  intros [H4|[Hs Hv]].
  - unfold Main.extractResourceName, Shovel.extractResourceName.
    destruct (splitResourceName fqdn) as [|a [|b [|c [|d [|e l]]]]];
      try discriminate H4. reflexivity.
  - destruct (extractResourceName_no_slash fqdn Hs) as [-> ->].
    symmetry. exact Hv.
Qed.

(** * The theorems at sample inputs *)

Lemma counters_invariant_witness :
  0 <= maxMessages (jobOf boundedReq)
  /\ reachable (jobOf boundedReq) (run (jobOf boundedReq) toCount init)
  /\ acceptedCount (run (jobOf boundedReq) toCount init)
     = processedCount (run (jobOf boundedReq) toCount init)
       + failedRelays (run (jobOf boundedReq) toCount init)
       + inFlight (run (jobOf boundedReq) toCount init)
       + ackedUncounted (run (jobOf boundedReq) toCount init).
Proof.
  assert (H0 : 0 <= maxMessages (jobOf boundedReq))
    by (vm_compute; discriminate).
  assert (Hr : reachable (jobOf boundedReq)
                 (run (jobOf boundedReq) toCount init))
    by (exists toCount; reflexivity).
  split; [exact H0|]. split; [exact Hr|].
  exact (proj1 (counters_invariant _ _ H0 Hr)).
Defined.

Lemma unbounded_admits_up_to_ceiling_witness :
  AllMessages unboundedReq = true
  /\ reachable (jobOf unboundedReq) (run (jobOf unboundedReq) toCheck init)
  /\ handlers (run (jobOf unboundedReq) toCheck init) !! 0%nat = Some HCheck
  /\ acceptedCount (run (jobOf unboundedReq) toCheck init) < 10000
  /\ exists s',
       step (jobOf unboundedReq) (AHandler 0 true)
         (run (jobOf unboundedReq) toCheck init) = Some s'
       /\ handlers s' !! 0%nat = Some HAccInc.
Proof.
  assert (Hr : reachable (jobOf unboundedReq)
                 (run (jobOf unboundedReq) toCheck init))
    by (exists toCheck; reflexivity).
  assert (Hlt : acceptedCount (run (jobOf unboundedReq) toCheck init) < 10000)
    by (vm_compute; reflexivity).
  split; [reflexivity|]. split; [exact Hr|]. split; [reflexivity|].
  split; [exact Hlt|].
  exact (proj1 (proj2 (proj2 (unbounded_admits_up_to_ceiling unboundedReq
                                (run (jobOf unboundedReq) toCheck init) 0%nat
                                eq_refl Hr))
                  eq_refl true) Hlt).
Defined.

Lemma receive_failure_outcome_witness :
  (0 <= maxMessages (jobOf boundedReq)
   /\ reachable (jobOf boundedReq)
        (run (jobOf boundedReq) [AReceiveReturn (Some "stream broken"%string)]
           init)
   /\ exists sched n,
        returned (run (jobOf boundedReq) sched
                    (run (jobOf boundedReq)
                       [AReceiveReturn (Some "stream broken"%string)] init))
        = Some (n, None))
  /\ Main.receiveErr Main.receiveBroken = Main.ReceiveFailed "stream broken"
  /\ Main.processMessages Main.receiveBroken boundedReq
     = (3, Some "error during message processing: stream broken"%string).
Proof.
  assert (H0 : 0 <= maxMessages (jobOf boundedReq))
    by (vm_compute; discriminate).
  assert (Hr : reachable (jobOf boundedReq)
                 (run (jobOf boundedReq)
                    [AReceiveReturn (Some "stream broken"%string)] init))
    by (eexists; reflexivity).
  split; [split; [exact H0 | split; [exact Hr|]]|].
  - destruct (proj1 receive_failure_outcome (jobOf boundedReq) _
                (Some "stream broken"%string) H0 Hr eq_refl eq_refl)
      as (sched & Hret & _).
    exists sched. eexists. exact Hret.
  - split; [reflexivity|].
    exact (proj1 (proj2 (proj2 receive_failure_outcome) Main.receiveBroken
                    boundedReq "stream broken"%string eq_refl eq_refl)
             eq_refl).
Defined.


Lemma validateRequest_error_iff_witness :
  -1 < 0
  /\ Shovel.validateRequest
       {| NumMessages := -1; AllMessages := true;
          SourceSubscription := "projects/p/subscriptions/s";
          TargetTopic := "projects/p/topics/t" |} = None.
Proof.
  split; [lia|].
  refine (proj1 (proj2 validateRequest_error_iff (-1)
                   "projects/p/subscriptions/s"%string
                   "projects/p/topics/t"%string _ _ _));
    [lia | discriminate | discriminate].
Defined.

Lemma extractResourceName_agree_witness :
  length (splitResourceName "projects/p/topics/t") = 4%nat
  /\ Main.extractResourceName "projects/p/topics/t"
     = Shovel.extractResourceName "projects/p/topics/t".
Proof.
  split; [reflexivity|].
  apply (extractResourceName_agree "projects/p/topics/t"%string).
  left. reflexivity.
Defined.

(** * Further properties: resource names *)

(** X1: every segment [splitResourceName] returns is non-empty and free of
    ['/']; there is none exactly when the name holds separators only
    (the empty name included): leading, trailing and repeated separators
    leave no empty segment behind. *)
Theorem split_segments_clean (name : string) :
  Forall cleanSegment (splitResourceName name)
  /\ (splitResourceName name = [] <-> onlySlashes name = true).
Proof.
  split.
  - eapply Forall_impl; [apply split_segments|]. intros seg [Hc _]. exact Hc.
  - unfold splitResourceName.
    rewrite (splitLoop_nil_iff _ _ (runes_isRune name)), runes_onlySlashes.
    intuition.
Qed.

(** X2: round trip: a name built from non-empty segments free of ['/'], with
    ['/'] in between, splits into those segments as the loop rebuilds
    them, and so does the same name with a separator put in front of it
    or after it; segments that are valid UTF-8 come back as they were
    (the others with U+FFFD in place of each byte outside an encoding). *)
Theorem split_joinSlash (parts : list string) :
  Forall cleanSegment parts ->
  (splitResourceName (joinSlash parts) = map rebuilt parts
   /\ splitResourceName (String "/"%char (joinSlash parts)) = map rebuilt parts
   /\ splitResourceName (joinSlash parts +:+ "/") = map rebuilt parts)
  /\ (Forall validUTF8 parts ->
      splitResourceName (joinSlash parts) = parts
      /\ splitResourceName (String "/"%char (joinSlash parts)) = parts
      /\ splitResourceName (joinSlash parts +:+ "/") = parts).
Proof.
  intros Hall.
  assert (H3 : splitResourceName (joinSlash parts) = map rebuilt parts
               /\ splitResourceName (String "/"%char (joinSlash parts))
                  = map rebuilt parts
               /\ splitResourceName (joinSlash parts +:+ "/") = map rebuilt parts).
  { split; [apply split_join; exact Hall|]. split.
    - change (String "/"%char (joinSlash parts))
        with (EmptyString +:+ String "/"%char (joinSlash parts)).
      rewrite split_through_slash. apply split_join. exact Hall.
    - change (joinSlash parts +:+ "/")
        with (joinSlash parts +:+ String "/"%char EmptyString).
      rewrite split_through_slash, (split_join parts Hall). apply app_nil_r. }
  split; [exact H3|].
  intros Hv. rewrite (map_rebuilt_valid parts Hv) in H3. exact H3.
Qed.

Lemma last_lookup_Some {A : Type} (l : list A) (x : A) :
  last l = Some x -> exists i, l !! i = Some x.
Proof.
  induction l as [|a l IH]; [discriminate|].
  destruct l as [|b l'].
  - intros [= <-]. exists 0%nat. reflexivity.
  - intros H. destruct (IH H) as [i Hi]. exists (S i). exact Hi.
Qed.

(** X3: what [extractResourceName] of package [shovel] returns never holds a
    ['/']; it is empty exactly when the input holds separators only; and
    a name already extracted is returned as it is. *)
Theorem shovel_extractResourceName_bare (fqdn : string) :
  hasSlash (Shovel.extractResourceName fqdn) = false
  /\ (Shovel.extractResourceName fqdn = EmptyString <-> onlySlashes fqdn = true)
  /\ Shovel.extractResourceName (Shovel.extractResourceName fqdn)
     = Shovel.extractResourceName fqdn.
Proof.
  assert (Hcases : (splitResourceName fqdn = []
                    /\ Shovel.extractResourceName fqdn = EmptyString)
                   \/ segment (Shovel.extractResourceName fqdn)).
  { unfold Shovel.extractResourceName.
    destruct (splitResourceName fqdn) as [|a l] eqn:Hs; [left; auto|].
    right. simpl length. destruct (decide (0 < S (length l))%nat); [|lia].
    destruct (last (a :: l)) as [x|] eqn:Hl.
    - destruct (last_lookup_Some _ _ Hl) as [i Hi]. rewrite <- Hs in Hi.
      simpl. eapply split_clean_lookup. exact Hi.
    - apply last_None in Hl. discriminate Hl. }
  pose proof (split_nil_iff fqdn) as Hnil.
  destruct Hcases as [[Hs He]|Hc].
  - rewrite He. split; [reflexivity|]. split; [|reflexivity].
    split; [intros _; apply Hnil; exact Hs | reflexivity].
  - split; [apply Hc|]. split.
    + split; [intros He; destruct Hc as [[Hc _] _]; contradiction|].
      intros Ho. apply Hnil in Ho. exfalso. destruct Hc as [[Hc _] _]. apply Hc.
      unfold Shovel.extractResourceName. rewrite Ho. reflexivity.
    + unfold Shovel.extractResourceName at 1.
      rewrite (split_segment _ Hc). reflexivity.
Qed.

(** X4: what [extractResourceName] of package [main] returns is either the
    input itself or a segment free of ['/']; applied to its own result it
    returns it unchanged. *)
Theorem main_extractResourceName_bare (fqdn : string) :
  (Main.extractResourceName fqdn = fqdn
   \/ cleanSegment (Main.extractResourceName fqdn))
  /\ Main.extractResourceName (Main.extractResourceName fqdn)
     = Main.extractResourceName fqdn.
Proof.
  assert (Hcases : Main.extractResourceName fqdn = fqdn
                   \/ segment (Main.extractResourceName fqdn)).
  { unfold Main.extractResourceName.
    destruct (decide (4 <= length (splitResourceName fqdn))%nat) as [H4|H4];
      [|left; reflexivity].
    destruct (splitResourceName fqdn !! 3%nat) as [seg|] eqn:H3.
    - right. simpl. eapply split_clean_lookup. exact H3.
    - apply lookup_ge_None in H3. lia. }
  split; [destruct Hcases as [He|[Hc _]]; [left; exact He | right; exact Hc]|].
  destruct Hcases as [He|Hc].
  - rewrite He. exact He.
  - unfold Main.extractResourceName at 1.
    rewrite (split_segment _ Hc). reflexivity.
Qed.

(** X5: on a name of the documented form [projects/P/KIND/NAME], with [P],
    [KIND] and [NAME] non-empty and free of ['/'], both packages extract
    the project [P] and the resource [NAME] as the loop rebuilds them:
    [P] and [NAME] themselves when these are valid UTF-8. *)
Theorem documented_name_parsed (project kind name : string) :
  cleanSegment project -> cleanSegment kind -> cleanSegment name ->
  let fqdn := "projects/" +:+ project +:+ "/" +:+ kind +:+ "/" +:+ name in
  splitResourceName fqdn
  = ["projects"%string; rebuilt project; rebuilt kind; rebuilt name]
  /\ Shovel.extractProjectID fqdn = rebuilt project
  /\ Main.extractProjectID fqdn = rebuilt project
  /\ Shovel.extractResourceName fqdn = rebuilt name
  /\ Main.extractResourceName fqdn = rebuilt name
  /\ (validUTF8 project ->
      Shovel.extractProjectID fqdn = project
      /\ Main.extractProjectID fqdn = project)
  /\ (validUTF8 name ->
      Shovel.extractResourceName fqdn = name
      /\ Main.extractResourceName fqdn = name).
Proof.
  intros Hp Hk Hn fqdn.
  assert (Hsplit : splitResourceName fqdn
                   = ["projects"%string; rebuilt project; rebuilt kind;
                      rebuilt name]).
  { change fqdn with (joinSlash ["projects"%string; project; kind; name]).
    rewrite split_join; [reflexivity|].
    repeat constructor; try discriminate; try apply Hp; try apply Hk;
      try apply Hn. }
  split; [exact Hsplit|].
  unfold Shovel.extractProjectID, Main.extractProjectID,
    Shovel.extractResourceName, Main.extractResourceName.
  rewrite Hsplit. simpl.
  split; [reflexivity|]. split; [reflexivity|]. split; [reflexivity|].
  split; [reflexivity|].
  split; intros Hv; rewrite Hv; split; reflexivity.
Qed.

(** The loop of [extractProjectID] in package [shovel] returns the
    successor of the first ["projects"] that has one. *)
Lemma extractProjectID_loop_spec (parts : list string) :
  (exists i x, parts !! i = Some "projects"%string /\ parts !! S i = Some x
               /\ (forall k, (k < i)%nat -> parts !! k <> Some "projects"%string)
               /\ Shovel.extractProjectID_loop parts = x)
  \/ ((forall i, parts !! i = Some "projects"%string -> parts !! S i = None)
      /\ Shovel.extractProjectID_loop parts = EmptyString).
Proof.
  induction parts as [|part rest IH]; [right; split; [intros i H|]; auto|].
  destruct rest as [|next rest'].
  - right. split; [|reflexivity]. intros [|i] H; [reflexivity|discriminate].
  - simpl. destruct (decide (part = "projects"%string)) as [->|Hne].
    + left. exists 0%nat, next. repeat split. intros k Hk. lia.
    + destruct IH as [(i & x & Hi & Hx & Hfirst & Hr)|[Hnone Hr]].
      * left. exists (S i), x. repeat split; try assumption.
        intros [|k] Hk; simpl; [congruence|]. apply Hfirst. lia.
      * right. split; [|exact Hr].
        intros [|i] Hi; simpl in *; [congruence|]. apply Hnone. exact Hi.
Qed.

(** X6: [extractProjectID] of package [shovel] returns a project exactly when
    some segment ["projects"] is followed by another segment, and then
    the one that follows the first such ["projects"]; a name without
    ["projects"], or with it in last place only, gives the empty string. *)
Theorem shovel_extractProjectID_found (resourceName : string) :
  let parts := splitResourceName resourceName in
  (Shovel.extractProjectID resourceName <> EmptyString
   <-> exists i, parts !! i = Some "projects"%string /\ is_Some (parts !! S i))
  /\ (forall i x,
        parts !! i = Some "projects"%string -> parts !! S i = Some x ->
        (forall k, (k < i)%nat -> parts !! k <> Some "projects"%string) ->
        Shovel.extractProjectID resourceName = x).
Proof.
  intros parts. unfold Shovel.extractProjectID. fold parts.
  destruct (extractProjectID_loop_spec parts)
    as [(i & x & Hi & Hx & Hfirst & Hr)|[Hnone Hr]]; rewrite Hr.
  - split.
    + split; [intros _; exists i; split; [exact Hi | eauto]|].
      intros _ He.
      destruct (split_clean_lookup _ _ _ Hx) as [[Hne _] _]. apply Hne.
      exact He.
    + intros i' x' Hi' Hx' Hfirst'.
      destruct (Nat.lt_trichotomy i i') as [Hlt|[->|Hgt]].
      * exfalso. apply (Hfirst' i Hlt). exact Hi.
      * congruence.
      * exfalso. apply (Hfirst i' Hgt). exact Hi'.
  - split.
    + split; [intros H; contradiction|].
      intros (i & Hi & x & Hx). rewrite (Hnone i Hi) in Hx. discriminate Hx.
    + intros i x Hi Hx _. rewrite (Hnone i Hi) in Hx. discriminate Hx.
Qed.

(** X7: the two [extractProjectID] agree on every name whose first segment is
    ["projects"]; on the others package [main] gives the empty string,
    where package [shovel] still looks for a later ["projects"]. *)
Theorem extractProjectID_agree (fqdn : string) :
  (splitResourceName fqdn !! 0%nat = Some "projects"%string ->
   Main.extractProjectID fqdn = Shovel.extractProjectID fqdn)
  /\ (splitResourceName fqdn !! 0%nat <> Some "projects"%string ->
      Main.extractProjectID fqdn = EmptyString).
Proof.
  unfold Main.extractProjectID, Shovel.extractProjectID.
  destruct (splitResourceName fqdn) as [|a [|b l]]; simpl; split; intros H;
    try discriminate; try reflexivity.
  - destruct (decide (Some a = Some "projects"%string)); [|contradiction].
    injection H as ->.
    destruct (decide ("projects"%string = "projects"%string)); [|congruence].
    reflexivity.
  - destruct (decide (Some a = Some "projects"%string)); [contradiction|].
    reflexivity.
Qed.

(** * Further properties: the job of package [shovel] *)

Lemma countIf_le {A : Type} (P Q : A -> bool) (l : list A) :
  (forall x, P x = true -> Q x = true) -> countIf P l <= countIf Q l.
Proof.
  intros HPQ. induction l as [|x l IH]; simpl; [lia|].
  specialize (HPQ x). destruct (P x), (Q x); simpl; try lia.
  all: discriminate (HPQ eq_refl).
Qed.

(** The totals of the trace are the numbers of deliveries past the
    publish, past the ack, past a nack. *)
Lemma step_totals (j : Job) (a : Action) (s s' : State) :
  totalPublishes s = countIf isForwarded (handlers s)
  /\ totalAcks s = countIf isAcked (handlers s)
  /\ totalNacks s = countIf isNacked (handlers s) ->
  step j a s = Some s' ->
  totalPublishes s' = countIf isForwarded (handlers s')
  /\ totalAcks s' = countIf isAcked (handlers s')
  /\ totalNacks s' = countIf isNacked (handlers s').
Proof.
  unfold totalPublishes, totalAcks, totalNacks.
  intros (Hp & Ha & Hn) Hstep. destruct a as [|t ok|err| | | | |d].
  2: { unfold step in Hstep.
       destruct (handlers s !! t) as [pc|] eqn:Hpc; [|discriminate].
       destruct pc; invert_step Hstep; simpl;
         rewrite ?countIf_app, !(countIf_insert _ _ _ _ _ Hpc); simpl; lia. }
  all: invert_step Hstep; simpl; rewrite ?countIf_app; simpl; lia.
Qed.

Lemma run_totals (j : Job) (sched : list Action) (s : State) :
  totalPublishes s = countIf isForwarded (handlers s)
  /\ totalAcks s = countIf isAcked (handlers s)
  /\ totalNacks s = countIf isNacked (handlers s) ->
  totalPublishes (run j sched s) = countIf isForwarded (handlers (run j sched s))
  /\ totalAcks (run j sched s) = countIf isAcked (handlers (run j sched s))
  /\ totalNacks (run j sched s) = countIf isNacked (handlers (run j sched s)).
Proof.
  revert s. induction sched as [|a sched IH]; intros s H; simpl; [exact H|].
  apply IH. destruct (exec_cases j a s) as [->|Hs]; [exact H|].
  eapply step_totals; eassumption.
Qed.

(** X8: in a job with target [maxMessages j >= 0], whatever the schedule: no
    more messages are forwarded to the target topic than were accepted,
    hence never more than the target; no more are acknowledged than were
    forwarded; and [processedCount] never exceeds the number of messages
    acknowledged.  Every nack is that of a rejected delivery or of a
    failed relay, so that acks and nacks together never exceed the
    number of deliveries. *)
Theorem forwards_bounded (j : Job) (s : State) :
  0 <= maxMessages j -> reachable j s ->
  0 <= processedCount s <= totalAcks s
  /\ totalAcks s <= totalPublishes s
  /\ totalPublishes s <= acceptedCount s
  /\ acceptedCount s <= maxMessages j
  /\ totalAcks s + totalNacks s <= Z.of_nat (length (handlers s)).
Proof.
  intros Hj Hreach. pose proof (reachable_Inv j s Hj Hreach) as HI.
  destruct Hreach as [sched <-].
  destruct (run_totals j sched init) as (Hp & Ha & Hn); [repeat split|].
  rewrite Hp, Ha, Hn, (inv_processed _ _ HI).
  pose proof (inv_bound _ _ HI) as Hb. rewrite (inv_accepted _ _ HI) in *.
  split; [split; [apply countIf_nonneg|]|].
  { apply countIf_le. intros []; simpl; congruence. }
  split; [apply countIf_le; intros []; simpl; congruence|].
  split; [apply countIf_le; intros []; simpl; congruence|].
  split; [lia|].
  generalize (handlers (run j sched init)). intros l.
  induction l as [|pc l IH]; simpl; [lia|].
  rewrite Nat2Z.inj_succ. destruct pc; simpl; lia.
Qed.

(** What the caller has read is a former value of [processedCount]. *)
Lemma step_finalRead (j : Job) (a : Action) (s s' : State) :
  (0 <= processedCount s
   /\ forall p, finalRead (main s) = Some p -> 0 <= p <= processedCount s) ->
  step j a s = Some s' ->
  0 <= processedCount s'
  /\ forall p, finalRead (main s') = Some p -> 0 <= p <= processedCount s'.
Proof.
  intros [H0 Hread] Hstep. destruct a as [|t ok|err| | | | |d].
  2: { unfold step in Hstep.
       destruct (handlers s !! t) as [pc|] eqn:Hpc; [|discriminate].
       destruct pc; invert_step Hstep; simpl; (split; [lia|]);
         intros p Hp; specialize (Hread p Hp); lia. }
  all: invert_step Hstep; simpl; (split; [lia|]); intros p Hp;
    try discriminate;
    repeat match goal with
           | H : main _ = _ |- _ => rewrite H in Hread; simpl in Hread
           end;
    try (injection Hp as <-); try lia; try (apply Hread; reflexivity);
    try (specialize (Hread p Hp); lia).
Qed.

Lemma run_finalRead (j : Job) (sched : list Action) (s : State) :
  (0 <= processedCount s
   /\ forall p, finalRead (main s) = Some p -> 0 <= p <= processedCount s) ->
  0 <= processedCount (run j sched s)
  /\ forall p, finalRead (main (run j sched s)) = Some p ->
               0 <= p <= processedCount (run j sched s).
Proof.
  revert s. induction sched as [|a sched IH]; intros s H; simpl; [exact H|].
  apply IH. destruct (exec_cases j a s) as [->|Hs]; [exact H|].
  eapply step_finalRead; eassumption.
Qed.

(** A request that passes [validateRequest] starts a job with a positive
    target: [numMessages] for a bounded request, 10000 otherwise. *)
Lemma valid_request_target (req : ShovelRequest) :
  Shovel.validateRequest req = None ->
  0 < maxMessagesOf req
  /\ maxMessagesOf req = if AllMessages req then 10000 else NumMessages req.
Proof.
  unfold Shovel.validateRequest, maxMessagesOf.
  destruct (decide (SourceSubscription req = EmptyString)); [discriminate|].
  destruct (decide (TargetTopic req = EmptyString)); [discriminate|].
  destruct (AllMessages req); simpl.
  - destruct (0 <? NumMessages req); [discriminate|]. intros _. split; [lia|auto].
  - destruct (Z.leb_spec (NumMessages req) 0); [discriminate|]. auto.
Qed.

(** What the caller returns from a run is a former value of
    [processedCount], hence at most the target. *)
Lemma returned_count_bounded (j : Job) (sched : list Action) (n : Z) (e : error) :
  0 <= maxMessages j ->
  returned (run j sched init) = Some (n, e) ->
  0 <= n <= maxMessages j.
Proof.
  intros Hj Hret.
  set (s := run j sched init) in *.
  assert (HI : Inv j s)
    by (apply reachable_Inv; [exact Hj | exists sched; reflexivity]).
  destruct (run_finalRead j sched init) as [_ Hread].
  { simpl. split; [lia|]. discriminate. }
  fold s in Hread. unfold returned in Hret.
  destruct (main s) eqn:Hm; try discriminate. injection Hret as <- <-.
  specialize (Hread count eq_refl).
  pose proof (inv_bound _ _ HI) as Hb. pose proof (inv_accepted _ _ HI) as Ha.
  pose proof (inv_processed _ _ HI) as Hp.
  assert (processedCount s <= acceptedCount s).
  { rewrite Ha, Hp. apply countIf_le. intros []; simpl; congruence. }
  lia.
Qed.

(** X9: for a request that passes [validateRequest], whatever the environment
    does, the count [processShovelRequest] returns lies between 0 and
    the number of messages asked for (10000 for [allMessages]): the job
    never reports more than was requested. *)
Theorem reported_count_bounded (env : Env) (req : ShovelRequest) (n : Z) (e : error) :
  Shovel.validateRequest req = None ->
  result (processShovelRequest env req) = Some (n, e) ->
  0 <= n <= if AllMessages req then 10000 else NumMessages req.
Proof.
  intros Hvalid. destruct (valid_request_target req Hvalid) as [Hpos <-].
  unfold processShovelRequest.
  (* a start-up failure returns 0 *)
  destruct (newClient env _) as [e0|]; simpl; [intros [= <- _]; lia|].
  destruct (topicExists env _) as [[] [e1|]]; simpl;
    try (intros [= <- _]; lia).
  (* otherwise the job runs *)
  apply (returned_count_bounded (jobOf req)). simpl. lia.
Qed.

(** The mutex is locked exactly when one goroutine stands between a lock
    and its unlock; this needs nothing of the target. *)
Lemma step_crit (j : Job) (a : Action) (s s' : State) :
  countIf isCrit (handlers s) + Z.b2z (mainCrit (main s)) = Z.b2z (mutex s) ->
  step j a s = Some s' ->
  countIf isCrit (handlers s') + Z.b2z (mainCrit (main s')) = Z.b2z (mutex s').
Proof.
  intros Hcrit Hstep.
  pose proof (countIf_nonneg isCrit (handlers s)) as Hnn.
  destruct a as [|t ok|err| | | | |d].
  2: { unfold step in Hstep.
       destruct (handlers s !! t) as [pc|] eqn:Hpc; [|discriminate].
       assert (Hone : isCrit pc = true -> 1 <= countIf isCrit (handlers s))
         by (apply countIf_lookup with (i := t); exact Hpc).
       destruct pc; invert_step Hstep; simpl;
         rewrite (countIf_insert _ _ _ _ _ Hpc); simpl;
         try (specialize (Hone eq_refl));
         destruct (mainCrit (main s)), (mutex s); simpl in *;
         try discriminate; lia. }
  all: invert_step Hstep; simpl; rewrite ?countIf_app; simpl;
    repeat match goal with
           | H : main _ = _ |- _ => rewrite H in Hcrit; simpl in Hcrit
           end;
    destruct (mutex s); simpl in *; try discriminate; lia.
Qed.

Lemma run_crit (j : Job) (sched : list Action) (s : State) :
  countIf isCrit (handlers s) + Z.b2z (mainCrit (main s)) = Z.b2z (mutex s) ->
  countIf isCrit (handlers (run j sched s))
  + Z.b2z (mainCrit (main (run j sched s)))
  = Z.b2z (mutex (run j sched s)).
Proof.
  revert s. induction sched as [|a sched IH]; intros s H; simpl; [exact H|].
  apply IH. destruct (exec_cases j a s) as [->|Hs]; [exact H|].
  eapply step_crit; eassumption.
Qed.

(** X10: whatever the target and the schedule: a goroutine about to call
    [mutex.Unlock()] finds the mutex locked (unlocking an unlocked mutex
    is a fatal error in Go), no second goroutine stands inside the
    critical section with it, and a goroutine about to increment a
    counter or to read the counters holds the lock. *)
Theorem mutex_discipline (j : Job) (s : State) :
  reachable j s ->
  (forall t pc, handlers s !! t = Some pc -> isCrit pc = true ->
                mutex s = true
                /\ mainCrit (main s) = false
                /\ forall t' pc', handlers s !! t' = Some pc' ->
                                  isCrit pc' = true -> t' = t)
  /\ (mainCrit (main s) = true ->
      mutex s = true
      /\ forall t pc, handlers s !! t = Some pc -> isCrit pc = false)
  /\ (mutex s = true ->
      mainCrit (main s) = true
      \/ exists t pc, handlers s !! t = Some pc /\ isCrit pc = true).
Proof.
  intros [sched <-].
  pose proof (run_crit j sched init eq_refl) as Hc.
  set (s := run j sched init) in *.
  pose proof (countIf_nonneg isCrit (handlers s)) as Hnn.
  split; [|split].
  - intros t pc Ht Hpc.
    pose proof (countIf_lookup isCrit _ _ _ Ht Hpc) as H1.
    split; [destruct (mutex s), (mainCrit (main s)); simpl in *; auto; lia|].
    split; [destruct (mutex s), (mainCrit (main s)); simpl in *; auto; lia|].
    intros t' pc' Ht' Hpc'. destruct (decide (t' = t)) as [|Hne]; [assumption|].
    pose proof (countIf_lookup2 isCrit _ _ _ _ _ Hne Ht' Ht Hpc' Hpc).
    destruct (mutex s), (mainCrit (main s)); simpl in *; lia.
  - intros Hm. rewrite Hm in Hc.
    split; [destruct (mutex s); simpl in *; auto; lia|].
    intros t pc Ht. destruct (isCrit pc) eqn:Hpc; [|reflexivity].
    pose proof (countIf_lookup isCrit _ _ _ Ht Hpc).
    destruct (mutex s); simpl in *; lia.
  - intros Hm. rewrite Hm in Hc.
    destruct (mainCrit (main s)); [left; reflexivity|right].
    destruct (countIf_pos_exists isCrit (handlers s)) as (t & pc & Ht & Hpc);
      [simpl in Hc; lia | eauto].
Qed.

(** As [holder_releases], from the exclusion invariant alone. *)
Lemma holder_releases_crit (j : Job) (s : State) :
  countIf isCrit (handlers s) + Z.b2z (mainCrit (main s)) = Z.b2z (mutex s) ->
  mainCrit (main s) = false ->
  exists sched, mutex (run j sched s) = false
                /\ sameControl s (run j sched s).
Proof.
  intros Hc Hm. destruct (mutex s) eqn:Hmx.
  2: { exists []. simpl. unfold sameControl. auto. }
  rewrite Hm in Hc. simpl in Hc.
  destruct (countIf_pos_exists isCrit (handlers s)) as (t & pc & Ht & Hpc);
    [lia|].
  pose proof (lookup_lt_Some _ _ _ Ht) as Hlt.
  destruct pc; try discriminate Hpc;
    try (exists [AHandler t true]; unfold run, exec, step; rewrite Ht;
         simpl; unfold sameControl; auto; fail);
    try (exists [AHandler t true; AHandler t true];
         unfold run, exec, step; rewrite Ht; simpl;
         rewrite list_lookup_insert_eq by assumption; simpl;
         unfold sameControl; auto; fail).
  (* at the check: two more steps if it rejects, three if it admits *)
  destruct (Z.leb_spec (maxMessages j) (acceptedCount s)) as [Hle|Hgt].
  - exists [AHandler t true; AHandler t true].
    unfold run, exec, step. rewrite Ht. simpl.
    destruct (Z.leb_spec (maxMessages j) (acceptedCount s)); [|lia].
    simpl. rewrite list_lookup_insert_eq by assumption. simpl.
    unfold sameControl. auto.
  - exists [AHandler t true; AHandler t true; AHandler t true].
    unfold run, exec, step. rewrite Ht. simpl.
    destruct (Z.leb_spec (maxMessages j) (acceptedCount s)); [lia|].
    simpl. rewrite list_lookup_insert_eq by assumption. simpl.
    rewrite list_lookup_insert_eq by (rewrite length_insert; assumption).
    simpl. unfold sameControl. auto.
Qed.

(** From the [select], whatever [Receive] does: time passes until the
    timeout, the caller takes the timeout case, cancels, sleeps the
    grace period and wakes up. *)
Lemma run_timeout_to_wakeup (j : Job) (s : State) :
  main s = MSelect ->
  let s' := run j [ATick (Z.max 0 (timeout j - now s)); AMainTimeout; AMain;
                   AMain; ATick drainGrace; AMain] s in
  main s' = MLock
  /\ now s' = Z.max (now s) (timeout j) + drainGrace
  /\ processedCount s' = processedCount s
  /\ handlers s' = handlers s /\ mutex s' = mutex s
  /\ ECancel ∈ events s'.
Proof.
  intros Hm. cbv zeta.
  assert (H0 : (0 <=? Z.max 0 (timeout j - now s)) = true)
    by (apply Z.leb_le; lia).
  assert (H1 : (timeout j <=? now s + Z.max 0 (timeout j - now s)) = true)
    by (apply Z.leb_le; lia).
  run_one ltac:(rewrite H0). run_one ltac:(rewrite Hm, H1).
  run_one idtac. run_one idtac. run_one idtac.
  run_one ltac:(rewrite Z.leb_refl).
  simpl. repeat split; [lia|].
  rewrite !elem_of_app, !list_elem_of_singleton. auto.
Qed.

(** X11: whatever [Receive] and the deliveries have done, the caller can
    still return: from any state in which it is still in its [select]
    there is a continuation (time passes until the timeout, the caller
    takes the timeout case, cancels the context, sleeps the grace period
    and reads the counter under the mutex, once the goroutine that holds
    it has let go) at the end of which the caller has returned the value
    of [processedCount] with a nil error, the clock standing at the
    timeout (or at the present, if that is later) plus the grace period.
    The schedule belongs to the environment: this rules out a state that
    keeps the caller from returning, it does not say that every schedule
    makes it return, nor by when. *)
Theorem job_returns_by_timeout (j : Job) (s : State) :
  reachable j s -> main s = MSelect ->
  exists sched,
    let s' := run j sched s in
    returned s' = Some (processedCount s', None)
    /\ processedCount s <= processedCount s'
    /\ now s' = Z.max (now s) (timeout j) + drainGrace
    /\ ECancel ∈ events s'.
Proof.
  intros Hreach Hm.
  set (pre := [ATick (Z.max 0 (timeout j - now s)); AMainTimeout; AMain;
               AMain; ATick drainGrace; AMain]).
  set (s1 := run j pre s).
  destruct (run_timeout_to_wakeup j s Hm) as (Hm1 & Hnow1 & Hp1 & _ & _ & Hev1).
  fold pre in Hm1, Hnow1, Hp1, Hev1. fold s1 in Hm1, Hnow1, Hp1, Hev1.
  assert (Hc1 : countIf isCrit (handlers s1) + Z.b2z (mainCrit (main s1))
                = Z.b2z (mutex s1)).
  { destruct Hreach as [sched0 <-]. unfold s1. rewrite <- run_app.
    apply run_crit. reflexivity. }
  destruct (holder_releases_crit j s1 Hc1) as (rel & Hmx2 & Hm2 & _ & Hnow2);
    [rewrite Hm1; reflexivity|].
  set (s2 := run j rel s1) in *.
  destruct (run_final_read j s2) as (Hret & Hp3 & Hnow3);
    [rewrite Hm2; exact Hm1 | exact Hmx2 |].
  exists (pre ++ rel ++ [AMain; AMain; AMain; AMain; AMain]).
  cbv zeta. rewrite !run_app. fold s1. fold s2.
  set (s3 := run j [AMain; AMain; AMain; AMain; AMain] s2) in *.
  split; [rewrite Hp3; exact Hret|]. split; [|split].
  - rewrite Hp3, <- Hp1. apply run_monotone.
  - rewrite Hnow3, Hnow2, Hnow1. reflexivity.
  - unfold s3, s2. rewrite <- run_app.
    destruct (run_events_grow j (rel ++ [AMain; AMain; AMain; AMain; AMain])
                s1) as [l ->].
    apply elem_of_app. left. exact Hev1.
Qed.

Lemma countIf_replicate {A : Type} (P : A -> bool) (n : nat) (x : A) :
  countIf P (replicate n x) = Z.b2z (P x) * Z.of_nat n.
Proof. induction n as [|n IH]; simpl replicate; simpl countIf; [lia|]. lia. Qed.

(** One more message is delivered, admitted, forwarded, confirmed,
    acknowledged and counted. *)
Lemma run_relayOne (j : Job) (n : nat) (s : State) :
  Z.of_nat n < maxMessages j -> quiet n s ->
  quiet (S n) (run j (relayOne n) s).
Proof.
  intros Hlt (Ha & Hp & Hmx & Hh & Hr & Hm).
  assert (Hleb : (maxMessages j <=? Z.of_nat n) = false)
    by (apply Z.leb_gt; lia).
  unfold relayOne. simpl replicate.
  run_one ltac:(rewrite Hr).
  do 10 run_one ltac:(rewrite ?Hh, ?(replicate_snoc_insert n HPublished),
                        ?(replicate_snoc_lookup n HPublished), ?Hmx, ?Ha, ?Hleb).
  unfold quiet. simpl.
  rewrite ?Hh, ?(replicate_snoc_insert n HPublished), ?replicate_snoc.
  repeat split; try assumption; try reflexivity; lia.
Qed.

Lemma run_relayMany (j : Job) (n : nat) :
  Z.of_nat n <= maxMessages j -> quiet n (run j (relayMany n) init).
Proof.
  induction n as [|n IH]; intros Hle; [repeat split|].
  simpl relayMany. rewrite run_app. apply run_relayOne; [lia|]. apply IH. lia.
Qed.

(** X12: the job can do what it is asked: for every [n] up to the target there
    is a behaviour of the environment (n messages, every publish
    confirmed, [Receive] returning afterwards) under which the job
    forwards and acknowledges exactly [n] messages, gives none back, and
    returns the count [n] with a nil error. *)
Theorem job_can_relay (j : Job) (n : nat) :
  Z.of_nat n <= maxMessages j ->
  exists sched,
    let s := run j sched init in
    returned s = Some (Z.of_nat n, None)
    /\ totalPublishes s = Z.of_nat n
    /\ totalAcks s = Z.of_nat n
    /\ totalNacks s = 0.
Proof.
  intros Hle. exists (relayMany n ++ windUp). cbv zeta. rewrite run_app.
  destruct (run_relayMany j n Hle) as (Ha & Hp & Hmx & Hh & Hr & Hm).
  pose proof (run_totals j (relayMany n ++ windUp) init) as Htot.
  rewrite run_app in Htot.
  set (s := run j (relayMany n) init) in *.
  assert (Hs' : returned (run j windUp s) = Some (Z.of_nat n, None)
                /\ handlers (run j windUp s) = handlers s).
  { unfold windUp.
    run_one ltac:(rewrite Hr). run_one idtac. run_one ltac:(rewrite Hm).
    run_one idtac. run_one idtac. run_one ltac:(rewrite Z.leb_refl).
    run_one ltac:(rewrite Hmx). run_one idtac. run_one idtac. run_one idtac.
    run_one idtac. simpl. rewrite Hp. auto. }
  destruct Hs' as [Hret Hh']. split; [exact Hret|].
  destruct Htot as (Htp & Hta & Htn); [repeat split|].
  rewrite Htp, Hta, Htn, Hh', Hh, !countIf_replicate. simpl. lia.
Qed.

(** * Further properties: the HTTP entry points *)

(** ** The header map *)

Lemma headerGet_drop_ne (key k : string) (h : list (string * string)) :
  k <> key -> headerGet key (headerDrop k h) = headerGet key h.
Proof.
  intros Hne. induction h as [|[k' v] h IH]; simpl; [reflexivity|].
  destruct (decide (k' = k)) as [->|Hk].
  - destruct (decide (k = key)); [contradiction|exact IH].
  - simpl. rewrite IH. reflexivity.
Qed.

Lemma headerGet_set (key k v : string) (w : ResponseWriter) :
  headerGet key (Header (headerSet k v w))
  = if decide (k = key) then Some v else headerGet key (Header w).
Proof.
  simpl. destruct (decide (k = key)); [reflexivity|].
  apply headerGet_drop_ne. assumption.
Qed.

Lemma headerGet_setCORS (key : string) (w : ResponseWriter) :
  headerGet key (Header (setCORS w))
  = if decide (key = "Content-Type"%string) then Some "application/json"%string
    else if decide (key = "Access-Control-Allow-Headers"%string)
         then Some "Content-Type"%string
    else if decide (key = "Access-Control-Allow-Methods"%string)
         then Some "POST, OPTIONS"%string
    else if decide (key = "Access-Control-Allow-Origin"%string)
         then Some "*"%string
    else headerGet key (Header w).
Proof.
  unfold setCORS. rewrite !headerGet_set.
  repeat match goal with
         | |- context [decide (?a = ?b)] => destruct (decide (a = b)); subst
         end; congruence.
Qed.

(** X13: the three CORS headers and the Content-Type [application/json] are
    on every response of [Handler], whatever the request and whatever
    the header map held before. *)
Theorem cors_on_every_response
    (decode : string -> string + ShovelRequest) (nowNano : Z)
    (r : HttpRequest) (w : ResponseWriter) :
  let hs := Header (fst (Shovel.Handler decode nowNano r w)) in
  headerGet "Access-Control-Allow-Origin" hs = Some "*"%string
  /\ headerGet "Access-Control-Allow-Methods" hs = Some "POST, OPTIONS"%string
  /\ headerGet "Access-Control-Allow-Headers" hs = Some "Content-Type"%string
  /\ headerGet "Content-Type" hs = Some "application/json"%string.
Proof.
  assert (Hwh : forall c x, Header (WriteHeader c x) = Header x)
    by (intros c x; unfold WriteHeader; destruct (StatusCode x); reflexivity).
  cbv zeta. unfold Shovel.Handler.
  pose proof (fun key => headerGet_setCORS key w) as Hcors.
  generalize dependent (setCORS w). intros w0 Hcors.
  destruct (decide (Method r = "OPTIONS"%string)) as [Ho|Ho].
  { simpl fst. rewrite !Hwh, !Hcors. repeat split. }
  destruct (decide (Method r <> "POST"%string)) as [Hp|Hp].
  { simpl fst. unfold respondWithError. simpl Header.
    rewrite !Hwh, !Hcors. repeat split. }
  destruct (decode (Body r)) as [err|req]; simpl fst.
  { unfold respondWithError. simpl Header. rewrite !Hwh, !Hcors.
    repeat split. }
  destruct (Shovel.validateRequest req);
    simpl fst; unfold respondWithError; simpl Header;
    rewrite !Hwh, !Hcors; repeat split.
Qed.

(** X14: [ShovelMessages] of package [main] sends the same three CORS headers
    on every response; its Content-Type is [application/json] except on
    the answer to a method other than OPTIONS and POST, which
    [http.Error] turns into plain text with [nosniff]. *)
Theorem main_cors_on_every_response
    (decode : string -> string + ShovelRequest) (nowNano : Z)
    (r : HttpRequest) (w : ResponseWriter) :
  let hm := Header (fst (Main.ShovelMessages decode nowNano r w)) in
  headerGet "Access-Control-Allow-Origin" hm = Some "*"%string
  /\ headerGet "Access-Control-Allow-Methods" hm = Some "POST, OPTIONS"%string
  /\ headerGet "Access-Control-Allow-Headers" hm = Some "Content-Type"%string
  /\ headerGet "Content-Type" hm
     = (if decide (Method r = "OPTIONS"%string \/ Method r = "POST"%string)
        then Some "application/json"%string
        else Some "text/plain; charset=utf-8"%string)
  /\ (headerGet "X-Content-Type-Options" (Header w) = None ->
      headerGet "X-Content-Type-Options" hm
      = if decide (Method r = "OPTIONS"%string \/ Method r = "POST"%string)
        then None else Some "nosniff"%string).
Proof.
  assert (Hwh : forall c x, Header (WriteHeader c x) = Header x)
    by (intros c x; unfold WriteHeader; destruct (StatusCode x); reflexivity).
  cbv zeta. unfold Main.ShovelMessages.
  pose proof (fun key => headerGet_setCORS key w) as Hcors.
  generalize dependent (setCORS w). intros w0 Hcors.
  destruct (decide (Method r = "OPTIONS"%string)) as [Ho|Ho].
  { simpl fst. rewrite !Hwh, !Hcors.
    destruct (decide (_ \/ _)) as [|Hn]; [|exfalso; apply Hn; auto].
    repeat split. intros Hx. exact Hx. }
  destruct (decide (Method r <> "POST"%string)) as [Hp|Hp].
  { simpl fst. unfold Main.httpError. simpl Header.
    rewrite !Hwh, !headerGet_set. unfold headerDel. simpl Header.
    rewrite !headerGet_drop_ne by discriminate.
    rewrite !Hcors.
    destruct (decide (_ \/ _)) as [[|]|]; try contradiction.
    repeat split;
      repeat match goal with
             | |- context [decide (?a = ?b)] =>
                 destruct (decide (a = b)); try discriminate
             end; reflexivity. }
  destruct (decide (_ \/ _)) as [|Hn];
    [|exfalso; apply Hn; right; destruct (decide (Method r = "POST"%string));
      [assumption|contradiction]].
  destruct (decode (Body r)) as [err|req]; simpl fst.
  { unfold respondWithError. simpl Header. rewrite !Hwh, !Hcors.
    repeat split. intros Hx. exact Hx. }
  destruct (Main.validateRequest req);
    simpl fst; unfold respondWithError; simpl Header;
    rewrite !Hwh, !Hcors; repeat split; intros Hx; exact Hx.
Qed.

(** ** Status, body and job *)

(** The five ways through [Handler]. *)
Lemma Handler_cases (decode : string -> string + ShovelRequest) (nowNano : Z)
    (r : HttpRequest) (w : ResponseWriter) :
  (Method r = "OPTIONS"%string
   /\ Shovel.Handler decode nowNano r w = (WriteHeader 204 (setCORS w), None))
  \/ (Method r <> "OPTIONS"%string /\ Method r <> "POST"%string
      /\ Shovel.Handler decode nowNano r w
         = (respondWithError (setCORS w) "Only POST requests are allowed" 405,
            None))
  \/ (Method r = "POST"%string
      /\ exists err, decode (Body r) = inl err
         /\ Shovel.Handler decode nowNano r w
            = (respondWithError (setCORS w) ("Invalid JSON payload: " +:+ err)
                 400, None))
  \/ (Method r = "POST"%string
      /\ exists req err, decode (Body r) = inr req
         /\ Shovel.validateRequest req = Some err
         /\ Shovel.Handler decode nowNano r w
            = (respondWithError (setCORS w) err 400, None))
  \/ (Method r = "POST"%string
      /\ exists req, decode (Body r) = inr req
         /\ Shovel.validateRequest req = None
         /\ Shovel.Handler decode nowNano r w
            = (writeBody
                 (JsonBody {| Status := "accepted";
                              Message := "Message shoveling started asynchronously";
                              ProcessedCount := 0;
                              RequestID := Shovel.requestIDOf nowNano |})
                 (WriteHeader 202 (setCORS w)),
               Some (Shovel.requestIDOf nowNano, req))).
Proof.
  unfold Shovel.Handler.
  destruct (decide (Method r = "OPTIONS"%string)) as [Ho|Ho]; [left; auto|].
  right.
  destruct (decide (Method r <> "POST"%string)) as [Hp|Hp]; [left; auto|].
  right.
  assert (HP : Method r = "POST"%string)
    by (destruct (decide (Method r = "POST"%string)); [assumption|contradiction]).
  destruct (decode (Body r)) as [err|req]; [left; eauto|]. right.
  destruct (Shovel.validateRequest req) as [err|] eqn:Hv; [left; eauto 6|].
  right. eauto 6.
Qed.

Lemma ShovelMessages_cases (decode : string -> string + ShovelRequest)
    (nowNano : Z) (r : HttpRequest) (w : ResponseWriter) :
  (Method r = "OPTIONS"%string
   /\ Main.ShovelMessages decode nowNano r w
      = (WriteHeader 204 (setCORS w), None))
  \/ (Method r <> "OPTIONS"%string /\ Method r <> "POST"%string
      /\ Main.ShovelMessages decode nowNano r w
         = (Main.httpError (setCORS w) "Only POST method allowed" 405, None))
  \/ (Method r = "POST"%string
      /\ exists err, decode (Body r) = inl err
         /\ Main.ShovelMessages decode nowNano r w
            = (respondWithError (setCORS w) "Invalid JSON payload" 400, None))
  \/ (Method r = "POST"%string
      /\ exists req err, decode (Body r) = inr req
         /\ Main.validateRequest req = Some err
         /\ Main.ShovelMessages decode nowNano r w
            = (respondWithError (setCORS w) err 400, None))
  \/ (Method r = "POST"%string
      /\ exists req, decode (Body r) = inr req
         /\ Main.validateRequest req = None
         /\ Main.ShovelMessages decode nowNano r w
            = (writeBody
                 (JsonBody {| Status := "accepted";
                              Message := "Message shoveling started asynchronously";
                              ProcessedCount := 0;
                              RequestID := Main.requestIDOf nowNano |})
                 (WriteHeader 202 (setCORS w)),
               Some (Main.requestIDOf nowNano, req))).
Proof.
  unfold Main.ShovelMessages.
  destruct (decide (Method r = "OPTIONS"%string)) as [Ho|Ho]; [left; auto|].
  right.
  destruct (decide (Method r <> "POST"%string)) as [Hp|Hp]; [left; auto|].
  right.
  assert (HP : Method r = "POST"%string)
    by (destruct (decide (Method r = "POST"%string)); [assumption|contradiction]).
  destruct (decode (Body r)) as [err|req]; [left; eauto|]. right.
  destruct (Main.validateRequest req) as [err|] eqn:Hv; [left; eauto 6|].
  right. eauto 6.
Qed.

Lemma status_setCORS (w : ResponseWriter) : StatusCode (setCORS w) = StatusCode w.
Proof. reflexivity. Qed.

Lemma written_setCORS (w : ResponseWriter) : Written (setCORS w) = Written w.
Proof. reflexivity. Qed.

Lemma status_WriteHeader (code : Z) (w : ResponseWriter) :
  StatusCode (WriteHeader code w) = Some (default code (StatusCode w)).
Proof. unfold WriteHeader. destruct (StatusCode w) eqn:H; simpl; auto. Qed.

Lemma written_WriteHeader (code : Z) (w : ResponseWriter) :
  Written (WriteHeader code w) = Written w.
Proof. unfold WriteHeader. destruct (StatusCode w); reflexivity. Qed.

Lemma status_respondWithError (w : ResponseWriter) (message : string) (code : Z) :
  StatusCode (respondWithError w message code)
  = Some (default code (StatusCode w)).
Proof.
  unfold respondWithError. simpl. rewrite status_WriteHeader. reflexivity.
Qed.

Lemma status_httpError (w : ResponseWriter) (message : string) (code : Z) :
  StatusCode (Main.httpError w message code)
  = Some (default code (StatusCode w)).
Proof.
  unfold Main.httpError. simpl. rewrite status_WriteHeader. reflexivity.
Qed.

Lemma validate_agree (req : ShovelRequest) :
  Shovel.validateRequest req = None <-> Main.validateRequest req = None.
Proof.
  pose proof (shovel_validate_iff req) as Hs.
  pose proof (main_validate_iff req) as Hm.
  destruct (Shovel.validateRequest req), (Main.validateRequest req);
    split; intros H; try reflexivity; try discriminate; exfalso.
  - assert (Hi : invalidRequest req) by (apply Hs; discriminate).
    apply Hm in Hi. apply Hi. reflexivity.
  - assert (Hi : invalidRequest req) by (apply Hm; discriminate).
    apply Hs in Hi. apply Hi. reflexivity.
Qed.

(** X15: on a response writer nothing was written to yet, the status [Handler]
    answers with tells what happened to the request: 204 for OPTIONS,
    405 for a method other than OPTIONS and POST, 202 for a POST whose
    body decodes to a request none of the four reasons turns down, 400
    for every other POST; and a job is started exactly with the 202. *)
Theorem handler_status (decode : string -> string + ShovelRequest)
    (nowNano : Z) (r : HttpRequest) (w : ResponseWriter) :
  StatusCode w = None ->
  let out := Shovel.Handler decode nowNano r w in
  (StatusCode (fst out) = Some 204 <-> Method r = "OPTIONS"%string)
  /\ (StatusCode (fst out) = Some 405
      <-> Method r <> "OPTIONS"%string /\ Method r <> "POST"%string)
  /\ (StatusCode (fst out) = Some 202
      <-> Method r = "POST"%string
          /\ exists req, decode (Body r) = inr req /\ ~ invalidRequest req)
  /\ (StatusCode (fst out) = Some 400
      <-> Method r = "POST"%string
          /\ ((exists err, decode (Body r) = inl err)
              \/ exists req, decode (Body r) = inr req /\ invalidRequest req))
  /\ (snd out <> None <-> StatusCode (fst out) = Some 202).
Proof.
  intros Hw. cbv zeta.
  assert (HOP : "OPTIONS"%string <> "POST"%string) by discriminate.
  destruct (Handler_cases decode nowNano r w)
    as [[Ho ->]|[(Ho & Hp & ->)|[(Hp & err & Hd & ->)
        |[(Hp & req & err & Hd & Hv & ->)|(Hp & req & Hd & Hv & ->)]]]];
    simpl fst; simpl snd; simpl StatusCode;
    rewrite ?status_respondWithError, ?status_WriteHeader, ?status_setCORS, ?Hw;
    simpl default;
    try (assert (Hi : invalidRequest req)
           by (apply shovel_validate_iff; congruence));
    try (assert (Hi : ~ invalidRequest req)
           by (intros Hi; apply shovel_validate_iff in Hi; contradiction));
    (split; [|split; [|split; [|split]]]); split; intros H;
    try discriminate H; try congruence; try tauto;
    try (split; [assumption|]; eauto; fail);
    try (split; [assumption|]; left; eauto; fail);
    try (split; [assumption|]; right; eauto; fail);
    repeat match goal with
           | H : _ /\ _ |- _ => destruct H
           | H : _ \/ _ |- _ => destruct H
           | H : exists _, _ |- _ => destruct H
           end;
    try congruence;
    match goal with
    | Hd : decode _ = inr ?a, Hd' : decode _ = inr ?b |- _ =>
        assert (a = b) by congruence; subst; contradiction
    end.
Qed.

(** X16: what [Handler] writes to the body: nothing on OPTIONS, one JSON
    document otherwise.  When it starts no job the document has status
    ["error"], no count and no request id; when it starts one the
    document has status ["accepted"] and carries the id the job runs
    under, and the job's request is the decoded body, which passes
    [validateRequest]. *)
Theorem handler_body (decode : string -> string + ShovelRequest)
    (nowNano : Z) (r : HttpRequest) (w : ResponseWriter) :
  let out := Shovel.Handler decode nowNano r w in
  (Method r = "OPTIONS"%string -> Written (fst out) = Written w)
  /\ (Method r <> "OPTIONS"%string ->
      exists resp, Written (fst out) = Written w ++ [JsonBody resp]
        /\ ProcessedCount resp = 0
        /\ match snd out with
           | None => Status resp = "error"%string
                     /\ RequestID resp = EmptyString
           | Some (id, req) =>
               Status resp = "accepted"%string /\ RequestID resp = id
               /\ decode (Body r) = inr req
               /\ Shovel.validateRequest req = None
           end).
Proof.
  cbv zeta.
  destruct (Handler_cases decode nowNano r w)
    as [[Ho ->]|[(Ho & Hp & ->)|[(Hp & err & Hd & ->)
        |[(Hp & req & err & Hd & Hv & ->)|(Hp & req & Hd & Hv & ->)]]]];
    simpl fst; simpl snd; unfold respondWithError; simpl Written;
    rewrite ?written_WriteHeader, ?written_setCORS.
  - split; [reflexivity|]. intros Hn. contradiction.
  - split; [intros; contradiction|]. intros _. eexists. split; [reflexivity|].
    simpl. auto.
  - split; [intros; congruence|]. intros _. eexists. split; [reflexivity|].
    simpl. auto.
  - split; [intros; congruence|]. intros _. eexists. split; [reflexivity|].
    simpl. auto.
  - split; [intros; congruence|]. intros _. eexists. split; [reflexivity|].
    simpl. auto.
Qed.

Lemma header_WriteHeader (code : Z) (w : ResponseWriter) :
  Header (WriteHeader code w) = Header w.
Proof. unfold WriteHeader. destruct (StatusCode w); reflexivity. Qed.

Lemma header_respondWithError (w : ResponseWriter) (message : string) (code : Z) :
  Header (respondWithError w message code) = Header w.
Proof. unfold respondWithError. simpl. apply header_WriteHeader. Qed.

Lemma written_respondWithError (w : ResponseWriter) (message : string) (code : Z) :
  Written (respondWithError w message code)
  = Written w
    ++ [JsonBody {| Status := "error"; Message := message;
                    ProcessedCount := 0; RequestID := EmptyString |}].
Proof. unfold respondWithError. simpl. rewrite written_WriteHeader. reflexivity. Qed.

Lemma header_httpError (w : ResponseWriter) (message : string) (code : Z) :
  Header (Main.httpError w message code)
  = Header (headerSet "X-Content-Type-Options" "nosniff"
              (headerSet "Content-Type" "text/plain; charset=utf-8"
                 (headerDel "Content-Length" w))).
Proof. unfold Main.httpError. simpl. apply header_WriteHeader. Qed.

Lemma written_httpError (w : ResponseWriter) (message : string) (code : Z) :
  Written (Main.httpError w message code)
  = Written w ++ [TextBody (message +:+ String "010"%char EmptyString)].
Proof. unfold Main.httpError. simpl. rewrite written_WriteHeader. reflexivity. Qed.

Lemma headerGet_del (key k : string) (w : ResponseWriter) :
  k <> key ->
  headerGet key (Header (headerDel k w)) = headerGet key (Header w).
Proof. intros Hne. simpl. apply headerGet_drop_ne. assumption. Qed.

(** X17: the two entry points treat a request alike: they answer with the
    same status, start a job for the same request or none, and write to
    the body as often; the answers to OPTIONS are the same response.  To
    a POST they send the same headers and one JSON document each, with
    the same status field and count; the documents differ at most in the
    message of an error and in the request id.  To any other method
    [Handler] answers with a JSON document under the Content-Type
    [application/json], [ShovelMessages] with the plain text of
    [http.Error] under [text/plain; charset=utf-8] and [nosniff]; the
    headers other than these two and Content-Length are the same. *)
Theorem handlers_agree (decode : string -> string + ShovelRequest)
    (nowNano : Z) (r : HttpRequest) (w : ResponseWriter) :
  let hs := Shovel.Handler decode nowNano r w in
  let hm := Main.ShovelMessages decode nowNano r w in
  StatusCode (fst hs) = StatusCode (fst hm)
  /\ option_map snd (snd hs) = option_map snd (snd hm)
  /\ length (Written (fst hs)) = length (Written (fst hm))
  /\ (Method r = "OPTIONS"%string -> fst hs = fst hm)
  /\ (Method r = "POST"%string ->
      Header (fst hs) = Header (fst hm)
      /\ exists rs rm,
           Written (fst hs) = Written w ++ [JsonBody rs]
           /\ Written (fst hm) = Written w ++ [JsonBody rm]
           /\ Status rs = Status rm
           /\ ProcessedCount rs = ProcessedCount rm
           /\ ((Status rs = "accepted"%string
                /\ Message rs = Message rm
                /\ RequestID rs = Shovel.requestIDOf nowNano
                /\ RequestID rm = Main.requestIDOf nowNano)
               \/ (Status rs = "error"%string
                   /\ RequestID rs = EmptyString
                   /\ RequestID rm = EmptyString)))
  /\ (Method r <> "OPTIONS"%string -> Method r <> "POST"%string ->
      Written (fst hs)
      = Written w
        ++ [JsonBody {| Status := "error";
                        Message := "Only POST requests are allowed";
                        ProcessedCount := 0; RequestID := EmptyString |}]
      /\ Written (fst hm)
         = Written w
           ++ [TextBody ("Only POST method allowed"
                         +:+ String "010"%char EmptyString)]
      /\ headerGet "Content-Type" (Header (fst hs))
         = Some "application/json"%string
      /\ headerGet "Content-Type" (Header (fst hm))
         = Some "text/plain; charset=utf-8"%string
      /\ headerGet "X-Content-Type-Options" (Header (fst hm))
         = Some "nosniff"%string
      /\ forall key,
           key <> "Content-Type"%string ->
           key <> "X-Content-Type-Options"%string ->
           key <> "Content-Length"%string ->
           headerGet key (Header (fst hs)) = headerGet key (Header (fst hm))).
Proof.
  cbv zeta.
  assert (HOP : "OPTIONS"%string <> "POST"%string) by discriminate.
  destruct (Handler_cases decode nowNano r w)
    as [[Ho ->]|[(Ho & Hp & ->)|[(Hp & err & Hd & ->)
        |[(Hp & req & err & Hd & Hv & ->)|(Hp & req & Hd & Hv & ->)]]]];
    destruct (ShovelMessages_cases decode nowNano r w)
    as [[Ho' ->]|[(Ho' & Hp' & ->)|[(Hp' & err' & Hd' & ->)
        |[(Hp' & req' & err' & Hd' & Hv' & ->)|(Hp' & req' & Hd' & Hv' & ->)]]]];
    try congruence; simpl fst; simpl snd.
  - (* OPTIONS *)
    repeat split; try congruence.
  - (* another method *)
    rewrite status_respondWithError, status_httpError,
      written_respondWithError, header_respondWithError,
      written_httpError, header_httpError, !length_app, written_setCORS.
    split; [reflexivity|]. split; [reflexivity|]. split; [reflexivity|].
    split; [congruence|]. split; [congruence|]. intros _ _.
    split; [reflexivity|]. split; [reflexivity|].
    split; [rewrite headerGet_setCORS; reflexivity|].
    split; [rewrite !headerGet_set; reflexivity|].
    split; [rewrite !headerGet_set; reflexivity|].
    intros key Hk1 Hk2 Hk3. rewrite !headerGet_set.
    destruct (decide ("X-Content-Type-Options"%string = key)); [congruence|].
    destruct (decide ("Content-Type"%string = key)); [congruence|].
    rewrite headerGet_del by congruence. reflexivity.
  - (* POST, the body does not decode *)
    rewrite !status_respondWithError, !written_respondWithError,
      !header_respondWithError, !length_app, written_setCORS.
    split; [reflexivity|]. split; [reflexivity|]. split; [reflexivity|].
    split; [congruence|]. split; [|intros _ Hn; contradiction].
    intros _. split; [reflexivity|].
    eexists. eexists. split; [reflexivity|]. split; [reflexivity|].
    split; [reflexivity|]. split; [reflexivity|]. right. repeat split.
  - (* POST, turned down by both *)
    rewrite !status_respondWithError, !written_respondWithError,
      !header_respondWithError, !length_app, written_setCORS.
    split; [reflexivity|]. split; [reflexivity|]. split; [reflexivity|].
    split; [congruence|]. split; [|intros _ Hn; contradiction].
    intros _. split; [reflexivity|].
    eexists. eexists. split; [reflexivity|]. split; [reflexivity|].
    split; [reflexivity|]. split; [reflexivity|]. right. repeat split.
  - (* turned down by [shovel], passed by [main] *)
    exfalso. assert (req' = req) by congruence. subst req'.
    apply validate_agree in Hv'. congruence.
  - exfalso. assert (req' = req) by congruence. subst req'.
    apply validate_agree in Hv. congruence.
  - (* POST, accepted by both *)
    assert (req' = req) by congruence. subst req'.
    unfold writeBody. simpl StatusCode. simpl Written. simpl Header.
    rewrite !status_WriteHeader, !written_WriteHeader, !header_WriteHeader,
      !length_app, written_setCORS.
    split; [reflexivity|]. split; [reflexivity|]. split; [reflexivity|].
    split; [congruence|]. split; [|intros _ Hn; contradiction].
    intros _. split; [reflexivity|].
    eexists. eexists. split; [reflexivity|]. split; [reflexivity|].
    split; [reflexivity|]. split; [reflexivity|]. left. repeat split.
Qed.

Lemma append_inj_r (p a b : string) : p +:+ a = p +:+ b -> a = b.
Proof.
  induction p as [|c p IH]; [auto|]. rewrite !append_cons.
  intros [= H]. auto.
Qed.

(** X18: the request id of package [shovel] is made of the milliseconds of the
    clock: two requests get the same id exactly when they are accepted
    within the same millisecond, so that ids can collide.  The id of
    package [main] is made of the nanoseconds: different instants give
    different ids. *)
Theorem requestID_collisions (a b : Z) :
  (Shovel.requestIDOf a = Shovel.requestIDOf b
   <-> Z.quot a 1000000 = Z.quot b 1000000)
  /\ (Main.requestIDOf a = Main.requestIDOf b <-> a = b)
  /\ (0 <= a -> Shovel.requestIDOf (a - Z.rem a 1000000 + 999999)
                = Shovel.requestIDOf a).
Proof.
  unfold Shovel.requestIDOf, Main.requestIDOf. split; [|split].
  - split; [|intros ->; reflexivity].
    intros H. apply append_inj_r in H. apply (inj pretty) in H. exact H.
  - split; [|intros ->; reflexivity].
    intros H. apply append_inj_r in H. apply (inj pretty) in H. exact H.
  - intros Ha. f_equal. f_equal.
    pose proof (Z.quot_rem' a 1000000) as Hqr.
    pose proof (Z.rem_bound_pos a 1000000 Ha ltac:(lia)) as Hb.
    symmetry. apply Z.quot_unique with (r := 999999); lia.
Qed.

(** X19: from the HTTP request to the job's result: the job [Handler] hands
    to its goroutine runs under the id written to the response, on the
    request decoded from the body; and whatever the Pub/Sub service
    does, what [processShovelRequest] returns for it is a count between
    0 and the number of messages the body asked for (10000 for
    [allMessages]). *)
Theorem handler_job_bounded (decode : string -> string + ShovelRequest)
    (nowNano : Z) (r : HttpRequest) (w : ResponseWriter)
    (id : string) (req : ShovelRequest) (env : Env) (n : Z) (e : error) :
  snd (Shovel.Handler decode nowNano r w) = Some (id, req) ->
  result (processShovelRequest env req) = Some (n, e) ->
  decode (Body r) = inr req
  /\ id = Shovel.requestIDOf nowNano
  /\ 0 <= n <= (if AllMessages req then 10000 else NumMessages req).
Proof.
  intros Hjob Hres.
  destruct (Handler_cases decode nowNano r w)
    as [[Ho Hh]|[(Ho & Hp & Hh)|[(Hp & err & Hd & Hh)
        |[(Hp & req' & err & Hd & Hv & Hh)|(Hp & req' & Hd & Hv & Hh)]]]];
    rewrite Hh in Hjob; simpl in Hjob; try discriminate Hjob.
  injection Hjob as <- <-.
  split; [exact Hd|]. split; [reflexivity|].
  destruct (valid_request_target req' Hv) as [Hpos <-].
  revert Hres. unfold processShovelRequest.
  destruct (newClient env _) as [e0|]; simpl; [intros [= <- _]; lia|].
  destruct (topicExists env _) as [[] [e1|]]; simpl;
    try (intros [= <- _]; lia).
  apply (returned_count_bounded (jobOf req')). simpl. lia.
Qed.

(** * The further properties at sample inputs *)

Lemma split_joinSlash_witness :
  Forall cleanSegment ["projects"; "p"; "topics"; "t"]%string
  /\ Forall validUTF8 ["projects"; "p"; "topics"; "t"]%string
  /\ splitResourceName "projects/p/topics/t"
     = ["projects"; "p"; "topics"; "t"]%string.
Proof.
  assert (H : Forall cleanSegment ["projects"; "p"; "topics"; "t"]%string)
    by (repeat constructor; discriminate).
  assert (Hv : Forall validUTF8 ["projects"; "p"; "topics"; "t"]%string)
    by (repeat constructor).
  split; [exact H|]. split; [exact Hv|].
  exact (proj1 (proj2 (split_joinSlash ["projects"; "p"; "topics"; "t"]%string H)
                 Hv)).
Defined.

Lemma documented_name_parsed_witness :
  cleanSegment "p" /\ cleanSegment "topics" /\ cleanSegment "t"
  /\ Shovel.extractProjectID "projects/p/topics/t" = "p"%string
  /\ Main.extractResourceName "projects/p/topics/t" = "t"%string.
Proof.
  assert (Hp : cleanSegment "p") by (split; [discriminate|reflexivity]).
  assert (Hk : cleanSegment "topics") by (split; [discriminate|reflexivity]).
  assert (Hn : cleanSegment "t") by (split; [discriminate|reflexivity]).
  split; [exact Hp|]. split; [exact Hk|]. split; [exact Hn|].
  destruct (documented_name_parsed "p" "topics" "t" Hp Hk Hn)
    as (_ & _ & _ & _ & _ & Hproject & Hname).
  split; [exact (proj1 (Hproject eq_refl)) | exact (proj2 (Hname eq_refl))].
Defined.

Lemma forwards_bounded_witness :
  0 <= maxMessages (jobOf boundedReq)
  /\ reachable (jobOf boundedReq) (run (jobOf boundedReq) raceSched init)
  /\ totalPublishes (run (jobOf boundedReq) raceSched init)
     <= acceptedCount (run (jobOf boundedReq) raceSched init).
Proof.
  assert (H0 : 0 <= maxMessages (jobOf boundedReq))
    by (vm_compute; discriminate).
  assert (Hr : reachable (jobOf boundedReq)
                 (run (jobOf boundedReq) raceSched init))
    by (exists raceSched; reflexivity).
  split; [exact H0|]. split; [exact Hr|].
  exact (proj1 (proj2 (proj2 (forwards_bounded _ _ H0 Hr)))).
Defined.

Lemma reported_count_bounded_witness :
  Shovel.validateRequest boundedReq = None
  /\ result (processShovelRequest (healthy receiveFails) boundedReq)
     = Some (0, None)
  /\ 0 <= 0 <= 1.
Proof.
  split; [reflexivity|]. split; [reflexivity|].
  exact (reported_count_bounded (healthy receiveFails) boundedReq 0 None
           eq_refl eq_refl).
Defined.

Lemma mutex_discipline_witness :
  reachable (jobOf boundedReq) (run (jobOf boundedReq) raceAtCheck init)
  /\ handlers (run (jobOf boundedReq) raceAtCheck init) !! 1%nat = Some HCheck
  /\ mutex (run (jobOf boundedReq) raceAtCheck init) = true.
Proof.
  assert (Hr : reachable (jobOf boundedReq)
                 (run (jobOf boundedReq) raceAtCheck init))
    by (exists raceAtCheck; reflexivity).
  split; [exact Hr|]. split; [reflexivity|].
  exact (proj1 (proj1 (mutex_discipline _ _ Hr) 1%nat HCheck eq_refl eq_refl)).
Defined.

Lemma job_returns_by_timeout_witness :
  reachable (jobOf boundedReq) init /\ main init = MSelect
  /\ exists sched,
       returned (run (jobOf boundedReq) sched init)
       = Some (processedCount (run (jobOf boundedReq) sched init), None).
Proof.
  split; [apply reachable_init|]. split; [reflexivity|].
  destruct (job_returns_by_timeout (jobOf boundedReq) init
              (reachable_init _) eq_refl) as (sched & Hret & _).
  exists sched. exact Hret.
Defined.

Lemma job_can_relay_witness :
  Z.of_nat 1 <= maxMessages (jobOf boundedReq)
  /\ exists sched,
       returned (run (jobOf boundedReq) sched init) = Some (1, None).
Proof.
  assert (H1 : Z.of_nat 1 <= maxMessages (jobOf boundedReq))
    by (vm_compute; discriminate).
  split; [exact H1|].
  destruct (job_can_relay (jobOf boundedReq) 1 H1) as (sched & Hret & _).
  exists sched. exact Hret.
Defined.

Lemma handler_status_witness :
  StatusCode newWriter = None
  /\ StatusCode (fst (Shovel.Handler (fun _ => inr boundedReq) 0
                        {| Method := "GET"; Body := EmptyString |} newWriter))
     = Some 405.
Proof.
  split; [reflexivity|].
  apply (proj1 (proj2 (handler_status (fun _ => inr boundedReq) 0
                         {| Method := "GET"; Body := EmptyString |}
                         newWriter eq_refl))).
  split; discriminate.
Defined.

Lemma handler_job_bounded_witness :
  snd (Shovel.Handler (fun _ => inr boundedReq) 0
         {| Method := "POST"; Body := EmptyString |} newWriter)
  = Some (Shovel.requestIDOf 0, boundedReq)
  /\ result (processShovelRequest (healthy receiveFails) boundedReq)
     = Some (0, None)
  /\ 0 <= 0 <= 1.
Proof.
  split; [reflexivity|]. split; [reflexivity|].
  exact (proj2 (proj2 (handler_job_bounded (fun _ => inr boundedReq) 0
                         {| Method := "POST"; Body := EmptyString |} newWriter
                         (Shovel.requestIDOf 0) boundedReq
                         (healthy receiveFails) 0 None eq_refl eq_refl))).
Defined.

(** * The job of package [main] *)

Section MainJobFacts.

Import MainJob.

(** ** The invariants are kept by every step *)

Ltac minvert H :=
  unfold step, cstep, wstep, mstep in H;
  repeat match type of H with
  | context [match ?x with _ => _ end] => destruct x eqn:?; try discriminate
  end;
  first [discriminate H | injection H as <-].

Lemma forallb_lookup {A : Type} (P : A -> bool) (l : list A) (i : nat) (x : A) :
  forallb P l = true -> l !! i = Some x -> P x = true.
Proof.
  revert i. induction l as [|a l IH]; intros [|i] H Hi; simpl in *;
    try discriminate; apply andb_prop in H as [Ha Hl].
  - injection Hi as <-. exact Ha.
  - eapply IH; eassumption.
Qed.

Ltac count_goal s Hd :=
  rewrite !(countIf_insert _ _ _ _ _ Hd);
  repeat match goal with
         | |- context [countIf ?P (deliveries s)] =>
             let n := fresh "n" in
             set (n := countIf P (deliveries s)) in *; clearbody n
         end;
  unfold cCrit, wCrit, counted, wgHeld, callbackOver, published, confirmed;
  simpl; destruct (mutex s); simpl Z.b2z in *; lia.

Lemma mstep_Inv (req : ShovelRequest) (a : Action) (s s' : State) :
  Inv req s -> step req a s = Some s' -> Inv req s'.
Proof.
  intros [Hcrit Hproc Hwg Hshape Hbnd Hheld Htarget Hdone Hover Hwaited Hret]
    Hstep.
  pose proof (countIf_nonneg cCrit (deliveries s)) as Hnc.
  pose proof (countIf_nonneg wCrit (deliveries s)) as Hnw.
  destruct a as [|t|t ok|err|].
  - (* a new delivery *)
    minvert Hstep.
    split; simpl; rewrite ?countIf_app; simpl; try lia; try assumption.
    + intros t d Ht. apply lookup_snoc_Some in Ht as [Ht|[_ ->]];
        [eauto | reflexivity].
    + intros t d Ht. apply lookup_snoc_Some in Ht as [Ht|[_ ->]];
        [eauto | discriminate].
    + intros t d c Ht. apply lookup_snoc_Some in Ht as [Ht|[_ ->]];
        [eauto | intros [|]; discriminate].
    + intros t d Ht. apply lookup_snoc_Some in Ht as [Ht|[_ ->]];
        [eauto | discriminate].
    + intros Hm. congruence.
    + rewrite Heqm. exact I.
    + intros n e Hm. congruence.
  - (* a callback moves on *)
    unfold step in Hstep.
    destruct (deliveries s !! t) as [[c w]|] eqn:Hd; [|discriminate].
    pose proof (Hshape _ _ Hd) as Hwf.
    assert (Hrecv : main s = MReceive \/ exists k, c = CReturned k).
    { destruct (main s) eqn:Hm; [left; reflexivity| | |];
        right; (assert (Hc : callbackOver (c, w) = true)
                  by (eapply Hover; [congruence | exact Hd]));
        destruct c; try discriminate; eauto. }
    assert (Hone : forall P, P (c, w) = true -> 1 <= countIf P (deliveries s))
      by (intros P; apply countIf_lookup with (i := t); exact Hd).
    pose proof (Hone cCrit) as Hc1. pose proof (Hone wCrit) as Hw1.
    pose proof (Hbnd _ _ Hd) as Hb0. pose proof (Htarget _ _ Hd) as Ht0.
    pose proof (fun c => Hheld _ _ c Hd) as Hh0.
    pose proof (Hone wgHeld) as Hg1.
    destruct c as [| | | | |cur| |k|k]; destruct w as [w|];
      try destruct k; try discriminate Hwf; minvert Hstep;
      destruct (AllMessages req) eqn:Hall; try discriminate;
      repeat match goal with
             | H : (_ <=? _) = true |- _ => apply Z.leb_le in H
             | H : (_ <=? _) = false |- _ => apply Z.leb_gt in H
             end;
      simpl in Hc1, Hw1, Hg1, Hb0, Ht0;
      try (specialize (Hc1 eq_refl)); try (specialize (Hw1 eq_refl));
      try (specialize (Hg1 eq_refl)); try (specialize (Hb0 eq_refl));
      try (specialize (Ht0 eq_refl));
      (split; simpl;
       try rewrite Hall in *;
       [ try solve [count_goal s Hd]
       | try solve [count_goal s Hd]
       | try solve [count_goal s Hd]
       | try solve [intros t' d'; pick_lookup t t'; intros Hd';
         [injection Hd' as <-; reflexivity | eauto]]
       | try solve [intros t' d'; pick_lookup t t'; intros Hd' Hb';
         [injection Hd' as <-; simpl in Hb'; try discriminate; auto | eauto]]
       | try solve [intros t' d' c'; pick_lookup t t'; intros Hd' Hc';
         [ injection Hd' as <-; simpl in Hc'; destruct Hc' as [Hc'|Hc'];
           try discriminate; try (injection Hc' as <-); try lia;
           try (apply Hh0; right; simpl; congruence)
         | eauto ]]
       | try solve [intros t' d'; pick_lookup t t'; intros Hd' Hs';
         [ injection Hd' as <-; try (apply Ht0; exact Hs');
           simpl in Hs'; try discriminate;
           try (apply Hdone; assumption); try assumption;
           try (split; [assumption|];
                specialize (Hh0 _ (or_introl eq_refl)); lia)
         | eauto ]]
       | try solve [intros Hdn; try discriminate; try congruence;
                    try (apply Hdone; assumption); try assumption]
       | try solve [intros Hm; destruct Hrecv as [Hr|[k Hr]];
         [contradiction | discriminate]]
       | try solve [destruct Hrecv as [Hr|[k Hr]]; [rewrite Hr; exact I | discriminate]]
       | try solve [assumption] ]).
  - (* a goroutine moves on *)
    unfold step in Hstep.
    destruct (deliveries s !! t) as [[c [w|]]|] eqn:Hd; try discriminate.
    pose proof (Hshape _ _ Hd) as Hwf.
    assert (Hone : forall P, P (c, Some w) = true -> 1 <= countIf P (deliveries s))
      by (intros P; apply countIf_lookup with (i := t); exact Hd).
    pose proof (Hone cCrit) as Hc1. pose proof (Hone wCrit) as Hw1.
    pose proof (Hone wgHeld) as Hg1.
    pose proof (Hbnd _ _ Hd) as Hb0. pose proof (Htarget _ _ Hd) as Ht0.
    pose proof (fun c => Hheld _ _ c Hd) as Hh0.
    assert (Hov0 : main s <> MReceive -> callbackOver (c, Some w) = true)
      by (intros Hm; eapply Hover; eassumption).
    destruct w as [| | | |cur| |k|k]; minvert Hstep;
      destruct (AllMessages req) eqn:Hall; try discriminate;
      repeat match goal with
             | H : (_ && _) = true |- _ => apply andb_prop in H as [? ?]
             | H : (_ <=? _) = true |- _ => apply Z.leb_le in H
             | H : (_ <=? _) = false |- _ => apply Z.leb_gt in H
             end;
      clear Hc1 Hw1 Hg1;
      try (pose proof (Hone cCrit eq_refl)); try (pose proof (Hone wCrit eq_refl));
      try (pose proof (Hone wgHeld eq_refl));
      (split; simpl; try rewrite Hall in *;
       [ try solve [count_goal s Hd]
       | try solve [count_goal s Hd]
       | try solve [count_goal s Hd]
       | try solve [intros t' d'; pick_lookup t t'; intros Hd';
         [injection Hd' as <-; exact Hwf | eauto]]
       | try solve [intros t' d'; pick_lookup t t'; intros Hd' Hb';
         [injection Hd' as <-; apply Hb0; exact Hb' | eauto]]
       | try solve [intros t' d' c'; pick_lookup t t'; intros Hd' Hc';
         [ injection Hd' as <-; simpl in Hc'; destruct Hc' as [Hc'|Hc'];
           try discriminate; try (injection Hc' as <-); try lia;
           try (specialize (Hh0 c' (or_introl Hc')); simpl; lia)
         | specialize (Hheld _ _ _ Hd' Hc'); lia ]]
       | try solve [intros t' d'; pick_lookup t t'; intros Hd' Hs';
         [ injection Hd' as <-;
           first [ assert (Hs0 : sawTarget (c, Some _) = true)
                     by (exact Hs'); destruct (Ht0 Hs0); split; first [assumption|lia]
                 | split; [reflexivity|];
                   specialize (Hh0 _ (or_intror eq_refl)); lia
                 | destruct (Ht0 eq_refl); split; first [assumption|lia]
                 | destruct c as [| | | | | | |[]|[]];
                   destruct (Ht0 eq_refl); split; first [assumption|lia] ]
         | destruct (Htarget _ _ Hd' Hs'); split; first [assumption|lia] ]]
       | try solve [intros Hdn;
                    first [ destruct (Hdone Hdn); split; first [assumption|lia]
                          | destruct (Ht0 eq_refl); split; first [assumption|lia]
                          | destruct c as [| | | | | | |[]|[]];
                            destruct (Ht0 eq_refl); split; first [assumption|lia] ]]
       | try solve [intros Hm t' d'; pick_lookup t t'; intros Hd';
                    [injection Hd' as <-; apply Hov0; exact Hm | eauto]]
       | try solve [destruct (main s); auto; lia]
       | try solve [intros n e Hm; rewrite Hm in Hwaited; simpl in Hwaited;
                    first [eapply Hret; eassumption | lia]] ]).
  - (* Receive returns *)
    minvert Hstep. split; simpl; try assumption.
    + intros _ t d Hd. eapply forallb_lookup; eassumption.
    + intros n e Hm. discriminate.
  - (* the caller *)
    minvert Hstep; split; simpl; try assumption; try (intros; congruence);
      try (intros _; apply Hover; congruence);
      try (apply Z.eqb_eq; assumption).
Qed.

Lemma mInv_init (req : ShovelRequest) : Inv req init.
Proof.
  split; simpl; try reflexivity; try discriminate; try (intros; discriminate).
  all: try (intros t d H; rewrite lookup_nil in H; discriminate).
  all: try (intros t d c H; rewrite lookup_nil in H; discriminate).
  all: try (intros H; contradiction).
Qed.

Ltac mtrace_facts H t :=
  destruct H as [Hack Hpub Hok Herr Hacks Hpubs Hconf];
  pose proof (Hack t); pose proof (Hpub t); pose proof (Hok t);
  pose proof (Herr t); clear Hack Hpub Hok Herr;
  unfold acks, publishes, gets, totalAcks, totalPublishes, totalConfirmed,
    at_ in *; simpl.

Ltac mtrace_total H s Hd :=
  destruct H as [_ _ _ _ Hacks Hpubs Hconf];
  unfold totalAcks, totalPublishes, totalConfirmed in *; simpl;
  rewrite ?countIf_app, ?(countIf_insert _ _ _ _ _ Hd);
  repeat match goal with
         | |- context [countIf ?P (deliveries s)] =>
             let n := fresh "n" in
             set (n := countIf P (deliveries s)) in *; clearbody n
         end;
  unfold callbackOver, published, confirmed; simpl; lia.

Lemma mstep_TraceInv (req : ShovelRequest) (a : Action) (s s' : State) :
  Inv req s -> TraceInv s -> step req a s = Some s' -> TraceInv s'.
Proof.
  intros HI HT Hstep.
  destruct a as [|t|t ok|err|].
  - minvert Hstep.
    split; try (destruct HT as [_ _ _ _ Hacks Hpubs Hconf];
                unfold totalAcks, totalPublishes, totalConfirmed in *; simpl;
                rewrite countIf_app; simpl; lia);
      intros t; mtrace_facts HT t;
      (destruct (deliveries s !! t) as [d|] eqn:Hd;
       [ rewrite lookup_app_l by (eapply lookup_lt_Some; eassumption);
         rewrite Hd; assumption
       | destruct ((deliveries s ++ [(CSelect, None)]) !! t) as [d'|] eqn:Hd';
         [ apply lookup_snoc_Some in Hd' as [Hd'|[_ ->]];
           [congruence | assumption]
         | assumption ] ]).
  - unfold step in Hstep.
    destruct (deliveries s !! t) as [[c w]|] eqn:Hd; [|discriminate].
    pose proof (inv_shape _ _ HI _ _ Hd) as Hwf. clear HI.
    destruct c as [| | | | | | |k|k]; destruct w as [w|]; try destruct k;
      try discriminate Hwf; minvert Hstep;
      (split; try (mtrace_total HT s Hd);
       intros t'; mtrace_facts HT t';
       rewrite ?countIf_app; simpl;
       pick_lookup t t'; try rewrite Hd in *;
       unfold callbackOver, published, confirmed, failed in *; simpl in *;
       repeat case_bool_decide; simpl; try congruence; try lia).
  - unfold step in Hstep.
    destruct (deliveries s !! t) as [[c [w|]]|] eqn:Hd; try discriminate.
    destruct w; minvert Hstep;
      (split; try (mtrace_total HT s Hd);
       intros t'; mtrace_facts HT t';
       rewrite ?countIf_app; simpl;
       pick_lookup t t'; try rewrite Hd in *;
       unfold callbackOver, published, confirmed, failed in *; simpl in *;
       repeat case_bool_decide; simpl; try congruence; try lia).
  - minvert Hstep. destruct HT. split; assumption.
  - minvert Hstep; split;
      try (destruct HT as [_ _ _ _ Hacks Hpubs Hconf];
           unfold totalAcks, totalPublishes, totalConfirmed in *; simpl;
           rewrite ?countIf_app; simpl; lia);
      intros t; mtrace_facts HT t; rewrite ?countIf_app; simpl; lia.
Qed.

(** ** ... hence hold in every state the job can be in *)

Lemma mexec_cases (req : ShovelRequest) (a : Action) (s : State) :
  exec req a s = s \/ step req a s = Some (exec req a s).
Proof. unfold exec. destruct (step req a s); simpl; auto. Qed.

Lemma mrun_app (req : ShovelRequest) (l1 l2 : list Action) (s : State) :
  run req (l1 ++ l2) s = run req l2 (run req l1 s).
Proof. revert s. induction l1 as [|a l1 IH]; intros s; simpl; auto. Qed.

Lemma mrun_Inv (req : ShovelRequest) (sched : list Action) (s : State) :
  Inv req s /\ TraceInv s ->
  Inv req (run req sched s) /\ TraceInv (run req sched s).
Proof.
  revert s. induction sched as [|a sched IH]; intros s H; simpl; [exact H|].
  apply IH. destruct (mexec_cases req a s) as [->|Hs]; [exact H|].
  destruct H as [HI HT]. split.
  - eapply mstep_Inv; eassumption.
  - eapply mstep_TraceInv; eassumption.
Qed.

Lemma mTraceInv_init : TraceInv init.
Proof.
  split; try reflexivity; intros t; unfold at_; simpl;
    rewrite lookup_nil; reflexivity.
Qed.

Lemma mreachable_Inv (req : ShovelRequest) (s : State) :
  reachable req s -> Inv req s /\ TraceInv s.
Proof.
  intros [sched <-]. apply mrun_Inv. split; [apply mInv_init|apply mTraceInv_init].
Qed.

Lemma countIf_length {A : Type} (P : A -> bool) (l : list A) :
  countIf P l <= Z.of_nat (length l).
Proof.
  induction l as [|x l IH]; simpl length; simpl countIf; [lia|].
  rewrite Nat2Z.inj_succ. destruct (P x); simpl; lia.
Qed.

Lemma countIf_ext_in {A : Type} (P Q : A -> bool) (l : list A) :
  (forall i x, l !! i = Some x -> P x = Q x) -> countIf P l = countIf Q l.
Proof.
  induction l as [|a l IH]; intros H; simpl; [reflexivity|].
  rewrite (H 0%nat a eq_refl), IH; [reflexivity|].
  intros i x Hi. apply (H (S i)). exact Hi.
Qed.

Lemma countIf_all {A : Type} (P : A -> bool) (l : list A) :
  (forall i x, l !! i = Some x -> P x = true) ->
  countIf P l = Z.of_nat (length l).
Proof.
  induction l as [|a l IH]; intros H; simpl length; simpl countIf; [reflexivity|].
  rewrite (H 0%nat a eq_refl), IH, Nat2Z.inj_succ; [simpl; lia|].
  intros i x Hi. apply (H (S i)). exact Hi.
Qed.

Lemma countIf_zero_lookup {A : Type} (P : A -> bool) (l : list A) (i : nat) (x : A) :
  countIf P l = 0 -> l !! i = Some x -> P x = false.
Proof.
  intros H0 Hi. destruct (P x) eqn:HP; [|reflexivity].
  pose proof (countIf_lookup P l i x Hi HP). lia.
Qed.

(** X20: whatever the schedule, the counter of the wait group never
    falls below zero (a negative counter makes [wg.Done()] panic);
    [processedCount] never exceeds the number of publishes confirmed by
    [result.Get], which never exceeds the number of publishes, which
    never exceeds the number of messages delivered; and no more acks
    are sent than messages were delivered. *)
Theorem main_counters_invariant (req : ShovelRequest) (s : State) :
  reachable req s ->
  0 <= wg s
  /\ 0 <= processedCount s <= totalConfirmed s
  /\ totalConfirmed s <= totalPublishes s
  /\ totalPublishes s <= Z.of_nat (length (deliveries s))
  /\ totalAcks s <= Z.of_nat (length (deliveries s)).
Proof.
  intros Hr. destruct (mreachable_Inv req s Hr) as [HI HT].
  rewrite (inv_wg _ _ HI), (inv_processed _ _ HI), (tr_confirmed _ HT),
    (tr_publishes _ HT), (tr_acks _ HT).
  pose proof (countIf_nonneg wgHeld (deliveries s)).
  pose proof (countIf_nonneg counted (deliveries s)).
  pose proof (countIf_nonneg confirmed (deliveries s)).
  assert (countIf counted (deliveries s) <= countIf confirmed (deliveries s)).
  { apply countIf_le. intros [c [[]|]]; unfold counted, confirmed, published; simpl; congruence. }
  assert (countIf confirmed (deliveries s) <= countIf published (deliveries s)).
  { apply countIf_le. intros [c [[]|]]; unfold counted, confirmed, published; simpl; congruence. }
  pose proof (countIf_length published (deliveries s)).
  pose proof (countIf_length callbackOver (deliveries s)).
  lia.
Qed.

(** X21: a callback that has returned has acknowledged its message exactly
    once, whatever became of the message: when the callback skipped it
    (the message was never published), and when the goroutine is over,
    whether [result.Get] returned an error or not.  A message whose
    publish failed is thus acknowledged to the source subscription all
    the same. *)
Theorem main_acks_regardless (req : ShovelRequest) (s : State) (t : nat)
    (k : bool) (w : option wpc) :
  reachable req s -> deliveries s !! t = Some (CReturned k, w) ->
  acks t s = 1
  /\ (k = true -> w = None /\ publishes t s = 0)
  /\ (forall ok, w = Some (WExit ok) ->
        publishes t s = 1 /\ gets t ok s = 1 /\ gets t (negb ok) s = 0).
Proof.
  intros Hr Hd. destruct (mreachable_Inv req s Hr) as [HI HT].
  pose proof (tr_ack _ HT t) as Ha. pose proof (tr_publish _ HT t) as Hp.
  pose proof (tr_get_ok _ HT t) as Hok. pose proof (tr_get_err _ HT t) as Herr.
  pose proof (inv_shape _ _ HI _ _ Hd) as Hwf.
  unfold at_ in *. rewrite Hd in *.
  split; [exact Ha|]. split.
  - intros ->. destruct w; [discriminate Hwf|]. auto.
  - intros ok ->. split; [exact Hp|].
    unfold confirmed, failed in *. simpl in *.
    destruct ok; simpl in *; auto.
Qed.

(** X22: the channel [done] holds its value, or a message has been
    skipped, only in a job with [allMessages] false whose
    [processedCount] has reached [numMessages]: with [allMessages] no
    message is ever skipped, and without it none before the target is
    reached. *)
Theorem main_skip_only_after_target (req : ShovelRequest) (s : State) :
  reachable req s ->
  done s = true
  \/ (exists t d, deliveries s !! t = Some d /\ skipped d = true) ->
  AllMessages req = false /\ NumMessages req <= processedCount s.
Proof.
  intros Hr H. destruct (mreachable_Inv req s Hr) as [HI _].
  destruct H as [Hdn|(t & d & Hd & Hs)].
  - apply (inv_done _ _ HI Hdn).
  - apply (inv_target _ _ HI _ _ Hd).
    destruct d as [[| | | | | | |[]|[]] w]; try discriminate Hs; reflexivity.
Qed.

(** X23: when [processMessages] has returned [n], every callback has
    returned and every goroutine it spawned is over (the wait group's
    counter is zero), every delivered message has been acknowledged, and
    [n] is the final value of [processedCount], equal to the number of
    publishes [result.Get] confirmed. *)
Theorem main_return_settled (req : ShovelRequest) (s : State) (n : Z) (e : error) :
  reachable req s -> returned s = Some (n, e) ->
  n = processedCount s
  /\ n = totalConfirmed s
  /\ wg s = 0
  /\ totalAcks s = Z.of_nat (length (deliveries s))
  /\ forall t c w, deliveries s !! t = Some (c, w) ->
       exists k, c = CReturned k
                 /\ (w = None \/ exists ok, w = Some (WExit ok)).
Proof.
  intros Hr Hret. destruct (mreachable_Inv req s Hr) as [HI HT].
  unfold returned in Hret. destruct (main s) eqn:Hm; try discriminate.
  injection Hret as -> ->.
  pose proof (inv_returned _ _ HI _ _ Hm) as Hn.
  pose proof (inv_waited _ _ HI) as Hw. rewrite Hm in Hw.
  assert (Hover : forall t d, deliveries s !! t = Some d -> callbackOver d = true)
    by (apply (inv_over _ _ HI); congruence).
  assert (Hidle : forall t c w, deliveries s !! t = Some (c, w) ->
            exists k, c = CReturned k
                      /\ (w = None \/ exists ok, w = Some (WExit ok))).
  { intros t c w Hd.
    pose proof (Hover _ _ Hd) as Hc.
    assert (Hh : wgHeld (c, w) = false).
    { eapply countIf_zero_lookup; [|exact Hd]. rewrite <- (inv_wg _ _ HI). exact Hw. }
    destruct c; try discriminate Hc. eexists. split; [reflexivity|].
    destruct w as [[]|]; try discriminate Hh; eauto. }
  split; [exact Hn|]. split; [|split; [exact Hw|split; [|exact Hidle]]].
  - rewrite Hn, (inv_processed _ _ HI), (tr_confirmed _ HT).
    apply countIf_ext_in. intros t [c w] Hd.
    destruct (Hidle _ _ _ Hd) as (k & -> & [->|[ok ->]]); reflexivity.
  - rewrite (tr_acks _ HT). apply countIf_all. exact Hover.
Qed.

(** ** Running one callback, one goroutine *)

Lemma mrun_cons_step (req : ShovelRequest) (a : Action) (l : list Action)
    (s s' : State) :
  step req a s = Some s' -> run req (a :: l) s = run req l s'.
Proof. intros H. simpl. unfold exec. rewrite H. reflexivity. Qed.

Lemma mrun_cons_none (req : ShovelRequest) (a : Action) (l : list Action)
    (s : State) :
  step req a s = None -> run req (a :: l) s = run req l s.
Proof. intros H. simpl. unfold exec. rewrite H. reflexivity. Qed.

Ltac mrun_one tac :=
  lazymatch goal with
  | |- context [run ?r (?a :: ?l) ?s] =>
      first
        [ erewrite (mrun_cons_step r a l s)
            by (unfold step, cstep, wstep, mstep; simpl; try tac; simpl;
                try tac; simpl; reflexivity)
        | rewrite (mrun_cons_none r a l s)
            by (unfold step, cstep, wstep, mstep; simpl; try tac; simpl;
                try tac; simpl; reflexivity) ]
  end.

Lemma lookup_mid {A : Type} (l1 l2 : list A) (x : A) :
  (l1 ++ x :: l2) !! length l1 = Some x.
Proof. induction l1 as [|a l1 IH]; simpl; auto. Qed.

Lemma insert_mid {A : Type} (l1 l2 : list A) (x y : A) :
  <[length l1 := y]> (l1 ++ x :: l2) = l1 ++ y :: l2.
Proof. induction l1 as [|a l1 IH]; simpl; [reflexivity|]. rewrite IH. reflexivity. Qed.

Lemma run_callback (req : ShovelRequest) (s : State) :
  main s = MReceive -> mutex s = false ->
  countIf callbackRunning (deliveries s) < maxOutstanding ->
  let s' := run req (callbackOnly (length (deliveries s))) s in
  (if done s
   then deliveries s' = deliveries s ++ [(CReturned true, None)]
        /\ wg s' = wg s /\ done s' = false
   else deliveries s' = deliveries s ++ [(CReturned false, Some WPublish)]
        /\ wg s' = wg s + 1
        /\ done s' = negb (AllMessages req)
                     && (NumMessages req <=? processedCount s))
  /\ processedCount s' = processedCount s /\ mutex s' = false
  /\ main s' = MReceive.
Proof.
  intros Hm Hmx Hout. cbv zeta. unfold callbackOnly. simpl replicate.
  apply Z.ltb_lt in Hout.
  set (l := deliveries s) in *.
  assert (Hl : deliveries s = l) by reflexivity. clearbody l.
  mrun_one ltac:(rewrite ?Hm, ?Hl, ?Hout).
  destruct (done s) eqn:Hdn.
  - do 8 mrun_one ltac:(rewrite ?Hl, ?(insert_mid l []), ?(lookup_mid l []), ?Hdn).
    simpl. rewrite ?Hl, ?(insert_mid l []). auto.
  - destruct (AllMessages req) eqn:Hall.
    + do 8 mrun_one ltac:(rewrite ?Hl, ?(insert_mid l []), ?(lookup_mid l []),
                            ?Hdn, ?Hall, ?Hmx).
      simpl. rewrite ?Hl, ?(insert_mid l []), ?Hdn. auto.
    + destruct (NumMessages req <=? processedCount s) eqn:Hle.
      * do 8 mrun_one ltac:(rewrite ?Hl, ?(insert_mid l []), ?(lookup_mid l []),
                              ?Hdn, ?Hall, ?Hmx, ?Hle).
        simpl. rewrite ?Hl, ?(insert_mid l []), ?Hdn. auto.
      * do 8 mrun_one ltac:(rewrite ?Hl, ?(insert_mid l []), ?(lookup_mid l []),
                              ?Hdn, ?Hall, ?Hmx, ?Hle).
        simpl. rewrite ?Hl, ?(insert_mid l []), ?Hdn. auto.
Qed.

Lemma run_worker (req : ShovelRequest) (s : State) (l1 l2 : list (cpc * option wpc))
    (c : cpc) :
  deliveries s = l1 ++ (c, Some WPublish) :: l2 -> mutex s = false ->
  let s' := run req (workerOnly (length l1)) s in
  deliveries s' = l1 ++ (c, Some (WExit true)) :: l2
  /\ processedCount s' = processedCount s + 1
  /\ wg s' = wg s - 1 /\ mutex s' = false
  /\ done s' = done s || (negb (AllMessages req)
                          && (NumMessages req <=? processedCount s + 1))
  /\ main s' = main s.
Proof.
  intros Hl Hmx. cbv zeta. unfold workerOnly. simpl replicate.
  destruct (negb (AllMessages req) && (NumMessages req <=? processedCount s + 1))
    eqn:Hc.
  - do 8 mrun_one ltac:(rewrite ?Hl, ?(insert_mid l1 l2), ?(lookup_mid l1 l2),
                          ?Hmx, ?Hc).
    simpl. rewrite ?Hl, ?(insert_mid l1 l2), ?orb_true_r. repeat split.
  - do 8 mrun_one ltac:(rewrite ?Hl, ?(insert_mid l1 l2), ?(lookup_mid l1 l2),
                          ?Hmx, ?Hc).
    simpl. rewrite ?Hl, ?(insert_mid l1 l2), ?orb_false_r. repeat split.
Qed.

(** ** Running many *)

Lemma forallb_replicate {A : Type} (P : A -> bool) (n : nat) (x : A) :
  P x = true -> forallb P (replicate n x) = true.
Proof. intros H. induction n as [|n IH]; simpl; [reflexivity|]. rewrite H, IH. reflexivity. Qed.

(** [k] messages delivered one after the other, each callback returned
    before any goroutine has started. *)
Lemma run_callbacksOnly (req : ShovelRequest) (k : nat) :
  Main.validateRequest req = None ->
  let s := run req (callbacksOnly k) init in
  deliveries s = replicate k (CReturned false, Some WPublish)
  /\ wg s = Z.of_nat k /\ processedCount s = 0 /\ mutex s = false
  /\ done s = false /\ main s = MReceive.
Proof.
  intros Hv. cbv zeta.
  assert (Hpos : negb (AllMessages req) && (NumMessages req <=? 0) = false).
  { unfold Main.validateRequest in Hv.
    destruct (decide (SourceSubscription req = EmptyString)); [discriminate|].
    destruct (decide (TargetTopic req = EmptyString)); [discriminate|].
    destruct (negb (AllMessages req) && (NumMessages req <=? 0)); [discriminate|].
    reflexivity. }
  induction k as [|k IH]; [repeat split|].
  simpl callbacksOnly. rewrite mrun_app.
  destruct IH as (Hd & Hw & Hp & Hmx & Hdn & Hm).
  set (s := run req (callbacksOnly k) init) in *.
  assert (Hlen : length (deliveries s) = k) by (rewrite Hd; apply length_replicate).
  replace (callbackOnly k) with (callbackOnly (length (deliveries s)))
    by (rewrite Hlen; reflexivity).
  destruct (run_callback req s Hm Hmx) as (Hcase & Hp' & Hmx' & Hm').
  { rewrite Hd, countIf_replicate. simpl. unfold maxOutstanding. lia. }
  rewrite Hdn in Hcase. destruct Hcase as (Hd' & Hw' & Hdn').
  set (s' := run req (callbackOnly (length (deliveries s))) s) in *.
  clearbody s'.
  rewrite Hd', Hw', Hdn', Hp', Hp, Hd, Hw, Hpos.
  repeat split; try assumption; try lia.
  rewrite replicate_S_end. reflexivity.
Qed.

(** Then the goroutines run, one after the other. *)
Lemma run_workersOnly (req : ShovelRequest) (k i : nat) (s0 : State) :
  Main.validateRequest req = None ->
  deliveries s0 = replicate k (CReturned false, Some WPublish) ->
  wg s0 = Z.of_nat k -> processedCount s0 = 0 -> mutex s0 = false ->
  done s0 = false ->
  (i <= k)%nat ->
  let s := run req (workersOnly i) s0 in
  deliveries s = replicate i (CReturned false, Some (WExit true))
                 ++ replicate (k - i) (CReturned false, Some WPublish)
  /\ wg s = Z.of_nat (k - i) /\ processedCount s = Z.of_nat i
  /\ mutex s = false
  /\ done s = negb (AllMessages req) && (NumMessages req <=? Z.of_nat i)
  /\ main s = main s0.
Proof.
  intros Hv Hd0 Hw0 Hp0 Hmx0 Hdn0. cbv zeta.
  assert (Hpos : negb (AllMessages req) && (NumMessages req <=? 0) = false).
  { unfold Main.validateRequest in Hv.
    destruct (decide (SourceSubscription req = EmptyString)); [discriminate|].
    destruct (decide (TargetTopic req = EmptyString)); [discriminate|].
    destruct (negb (AllMessages req) && (NumMessages req <=? 0)); [discriminate|].
    reflexivity. }
  induction i as [|i IH]; intros Hik.
  - simpl workersOnly. simpl run. change (Z.of_nat 0) with 0.
    rewrite Nat.sub_0_r, Hd0, Hw0, Hp0, Hmx0, Hdn0, Hpos. repeat split.
  - simpl workersOnly. rewrite mrun_app.
    destruct IH as (Hd & Hw & Hp & Hmx & Hdn & Hm); [lia|].
    set (s := run req (workersOnly i) s0) in *.
    assert (Hk : (k - i = S (k - S i))%nat) by lia.
    rewrite Hk in Hd. simpl replicate in Hd.
    pose proof (run_worker req s _ _ _ Hd Hmx) as Hrun. cbv zeta in Hrun.
    rewrite length_replicate in Hrun.
    destruct Hrun as (Hd' & Hp' & Hw' & Hmx' & Hdn' & Hm').
    rewrite Hd', Hp', Hw', Hdn', Hm', Hp, Hw, Hdn, Hm.
    repeat split; try assumption; try lia.
    + rewrite replicate_S_end, <- app_assoc. reflexivity.
    + replace (Z.of_nat i + 1) with (Z.of_nat (S i)) by lia.
      destruct (AllMessages req); simpl; [reflexivity|].
      destruct (Z.leb_spec (NumMessages req) (Z.of_nat i));
        destruct (Z.leb_spec (NumMessages req) (Z.of_nat (S i)));
        simpl; try reflexivity; lia.
Qed.

Lemma run_windUp (req : ShovelRequest) (s : State) :
  main s = MReceive -> wg s = 0 ->
  forallb callbackOver (deliveries s) = true ->
  let s' := run req windUp s in
  returned s' = Some (processedCount s, None)
  /\ deliveries s' = deliveries s.
Proof.
  intros Hm Hw Hall. cbv zeta. unfold windUp.
  mrun_one ltac:(rewrite ?Hm, ?Hall). mrun_one ltac:(rewrite ?Hw).
  mrun_one idtac. simpl. auto.
Qed.

Lemma valid_main_target (req : ShovelRequest) :
  Main.validateRequest req = None ->
  AllMessages req = false -> 0 < NumMessages req.
Proof.
  unfold Main.validateRequest. intros Hv Hall. rewrite Hall in Hv. simpl in Hv.
  destruct (decide (SourceSubscription req = EmptyString)); [discriminate|].
  destruct (decide (TargetTopic req = EmptyString)); [discriminate|].
  destruct (Z.leb_spec (NumMessages req) 0); [discriminate|]. assumption.
Qed.

(** X24: [numMessages] does not bound what the job forwards.  For a
    request that passes [validateRequest] and any number [k] of
    messages the subscription delivers, there is a schedule (every
    callback returns before the goroutines increment the counter) under
    which all [k] are published, confirmed and acknowledged, and the
    job returns [k] with a nil error, also when [k] is larger than
    [numMessages]. *)
Theorem main_count_exceeds_target (req : ShovelRequest) (k : nat) :
  Main.validateRequest req = None ->
  exists sched,
    let s := run req sched init in
    returned s = Some (Z.of_nat k, None)
    /\ totalPublishes s = Z.of_nat k
    /\ totalConfirmed s = Z.of_nat k
    /\ totalAcks s = Z.of_nat k.
Proof.
  intros Hv. exists (callbacksOnly k ++ workersOnly k ++ windUp). cbv zeta.
  assert (Hr : reachable req
                 (run req (callbacksOnly k ++ workersOnly k ++ windUp) init))
    by (eexists; reflexivity).
  destruct (mreachable_Inv _ _ Hr) as [_ HT].
  rewrite (tr_publishes _ HT), (tr_confirmed _ HT), (tr_acks _ HT).
  clear Hr HT. rewrite !mrun_app.
  destruct (run_callbacksOnly req k Hv) as (Hd & Hw & Hp & Hmx & Hdn & Hm).
  set (s1 := run req (callbacksOnly k) init) in *.
  destruct (run_workersOnly req k k s1 Hv Hd Hw Hp Hmx Hdn (Nat.le_refl k))
    as (Hd2 & Hw2 & Hp2 & Hmx2 & Hdn2 & Hm2).
  set (s2 := run req (workersOnly k) s1) in *.
  rewrite Nat.sub_diag in Hd2, Hw2. simpl in Hd2, Hw2. rewrite app_nil_r in Hd2.
  destruct (run_windUp req s2) as (Hret & Hd3).
  { congruence. } { exact Hw2. }
  { rewrite Hd2. apply forallb_replicate. reflexivity. }
  rewrite Hret, Hd3, Hd2, Hp2, !countIf_replicate. simpl. repeat split; lia.
Qed.

(** X25: once the target is reached the value in [done] makes the next
    callback return at once, which takes the value out of the channel
    and acknowledges the message without publishing it; the callback
    after that runs as usual.  For a valid request for [n] messages
    there is a schedule with [n + 2] deliveries under which message
    [n] is acknowledged and never published, [n + 1] messages are
    published, and the job returns [n + 1]. *)
Theorem main_stop_drops_message (req : ShovelRequest) :
  Main.validateRequest req = None -> AllMessages req = false ->
  let n := Z.to_nat (NumMessages req) in
  exists sched,
    let s := run req sched init in
    returned s = Some (NumMessages req + 1, None)
    /\ length (deliveries s) = (n + 2)%nat
    /\ acks n s = 1 /\ publishes n s = 0
    /\ totalAcks s = NumMessages req + 2
    /\ totalPublishes s = NumMessages req + 1.
Proof.
  intros Hv Hall n.
  pose proof (valid_main_target req Hv Hall) as Hpos.
  assert (Hn : Z.of_nat n = NumMessages req) by (unfold n; lia).
  set (sched := callbacksOnly n ++ workersOnly n ++ callbackOnly n
                ++ callbackOnly (S n) ++ workerOnly (S n) ++ windUp).
  exists sched. cbv zeta.
  assert (Hr : reachable req (run req sched init)) by (eexists; reflexivity).
  destruct (mreachable_Inv _ _ Hr) as [_ HT].
  rewrite (tr_publishes _ HT), (tr_acks _ HT), (tr_ack _ HT n),
    (tr_publish _ HT n).
  clear Hr HT. unfold sched, at_. rewrite !mrun_app.
  destruct (run_callbacksOnly req n Hv) as (Hd & Hw & Hp & Hmx & Hdn & Hm).
  set (s1 := run req (callbacksOnly n) init) in *. clearbody s1.
  destruct (run_workersOnly req n n s1 Hv Hd Hw Hp Hmx Hdn (Nat.le_refl n))
    as (Hd2 & Hw2 & Hp2 & Hmx2 & Hdn2 & Hm2).
  set (s2 := run req (workersOnly n) s1) in *. clearbody s2.
  rewrite Nat.sub_diag in Hd2, Hw2. simpl in Hd2, Hw2. rewrite app_nil_r in Hd2.
  rewrite Hall, Hn, Z.leb_refl in Hdn2. simpl in Hdn2. rewrite Hm in Hm2.
  set (E := (CReturned false, Some (WExit true))) in *.
  (* the next message finds the value in [done] and is skipped *)
  assert (Hlen2 : length (deliveries s2) = n)
    by (rewrite Hd2; apply length_replicate).
  pose proof (run_callback req s2 Hm2 Hmx2) as Hcb. cbv zeta in Hcb.
  rewrite Hlen2, Hdn2 in Hcb.
  destruct Hcb as ((Hd3 & Hw3 & Hdn3) & Hp3 & Hmx3 & Hm3).
  { rewrite Hd2, countIf_replicate. simpl. unfold maxOutstanding. lia. }
  set (s3 := run req (callbackOnly n) s2) in *. clearbody s3.
  (* the one after it is forwarded *)
  assert (Hlen3 : length (deliveries s3) = S n)
    by (rewrite Hd3, length_app, Hlen2; simpl; lia).
  pose proof (run_callback req s3 Hm3 Hmx3) as Hcb. cbv zeta in Hcb.
  rewrite Hlen3, Hdn3 in Hcb.
  destruct Hcb as ((Hd4 & Hw4 & Hdn4) & Hp4 & Hmx4 & Hm4).
  { rewrite Hd3, countIf_app, Hd2, countIf_replicate. simpl.
    unfold maxOutstanding. lia. }
  set (s4 := run req (callbackOnly (S n)) s3) in *. clearbody s4.
  rewrite Hd3, Hd2 in Hd4. rewrite <- app_assoc in Hd4. simpl in Hd4.
  assert (Hd4' : deliveries s4
                 = (replicate n E ++ [(CReturned true, None)])
                   ++ (CReturned false, Some WPublish) :: [])
    by (rewrite Hd4, <- app_assoc; reflexivity).
  pose proof (run_worker req s4 _ _ _ Hd4' Hmx4) as Hrun. cbv zeta in Hrun.
  rewrite length_app, length_replicate in Hrun. simpl length in Hrun.
  replace (n + 1)%nat with (S n) in Hrun by lia.
  destruct Hrun as (Hd5 & Hp5 & Hw5 & Hmx5 & Hdn5 & Hm5).
  set (s5 := run req (workerOnly (S n)) s4) in *. clearbody s5.
  destruct (run_windUp req s5) as (Hret & Hd6).
  { congruence. } { lia. }
  { rewrite Hd5, !forallb_app, forallb_replicate by reflexivity. reflexivity. }
  rewrite Hret, Hd6, Hd5, Hp5, Hp4, Hp3, Hp2, Hn.
  split; [reflexivity|]. split.
  { rewrite !length_app, length_replicate. simpl. lia. }
  rewrite <- app_assoc.
  replace ((replicate n E ++ [(CReturned true, None)] ++ [(CReturned false, Some (WExit true))]) !! n)
    with (Some (CReturned true, @None wpc)).
  2: { symmetry. pose proof (lookup_mid (replicate n E)
                                [(CReturned false, Some (WExit true))]
                                (CReturned true, @None wpc)) as Hmid.
       rewrite length_replicate in Hmid. exact Hmid. }
  simpl. rewrite !countIf_app, !countIf_replicate. simpl. repeat split; lia.
Qed.

(** ** These properties at sample inputs *)

Lemma main_counters_invariant_witness :
  reachable boundedReq (run boundedReq lostOnFailure init)
  /\ 0 <= wg (run boundedReq lostOnFailure init).
Proof.
  assert (Hr : reachable boundedReq (run boundedReq lostOnFailure init))
    by (exists lostOnFailure; reflexivity).
  split; [exact Hr|]. exact (proj1 (main_counters_invariant _ _ Hr)).
Defined.

Lemma main_acks_regardless_witness :
  reachable boundedReq (run boundedReq lostOnFailure init)
  /\ deliveries (run boundedReq lostOnFailure init) !! 0%nat
     = Some (CReturned false, Some (WExit false))
  /\ acks 0 (run boundedReq lostOnFailure init) = 1
  /\ gets 0 false (run boundedReq lostOnFailure init) = 1.
Proof.
  assert (Hr : reachable boundedReq (run boundedReq lostOnFailure init))
    by (exists lostOnFailure; reflexivity).
  assert (Hd : deliveries (run boundedReq lostOnFailure init) !! 0%nat
               = Some (CReturned false, Some (WExit false))) by reflexivity.
  split; [exact Hr|]. split; [exact Hd|].
  destruct (main_acks_regardless _ _ _ _ _ Hr Hd) as (Ha & _ & Hw).
  split; [exact Ha|]. exact (proj1 (proj2 (Hw false eq_refl))).
Defined.

Lemma main_skip_only_after_target_witness :
  reachable boundedReq (run boundedReq (callbackOnly 0 ++ workerOnly 0) init)
  /\ done (run boundedReq (callbackOnly 0 ++ workerOnly 0) init) = true
  /\ AllMessages boundedReq = false
  /\ NumMessages boundedReq
     <= processedCount (run boundedReq (callbackOnly 0 ++ workerOnly 0) init).
Proof.
  assert (Hr : reachable boundedReq
                 (run boundedReq (callbackOnly 0 ++ workerOnly 0) init))
    by (eexists; reflexivity).
  split; [exact Hr|]. split; [reflexivity|].
  exact (main_skip_only_after_target _ _ Hr (or_introl eq_refl)).
Defined.

Lemma main_count_exceeds_target_witness :
  Main.validateRequest boundedReq = None
  /\ NumMessages boundedReq < 3
  /\ exists sched, returned (run boundedReq sched init) = Some (3, None).
Proof.
  split; [reflexivity|]. split; [reflexivity|].
  destruct (main_count_exceeds_target boundedReq 3 eq_refl)
    as (sched & Hret & _).
  exists sched. exact Hret.
Defined.

Lemma main_return_settled_witness :
  reachable boundedReq
    (run boundedReq (callbacksOnly 1 ++ workersOnly 1 ++ windUp) init)
  /\ returned (run boundedReq (callbacksOnly 1 ++ workersOnly 1 ++ windUp) init)
     = Some (1, None)
  /\ 1 = totalConfirmed
           (run boundedReq (callbacksOnly 1 ++ workersOnly 1 ++ windUp) init).
Proof.
  assert (Hr : reachable boundedReq
                 (run boundedReq (callbacksOnly 1 ++ workersOnly 1 ++ windUp)
                    init))
    by (eexists; reflexivity).
  split; [exact Hr|]. split; [reflexivity|].
  exact (proj1 (proj2 (main_return_settled _ _ 1 None Hr eq_refl))).
Defined.

Lemma main_stop_drops_message_witness :
  Main.validateRequest boundedReq = None /\ AllMessages boundedReq = false
  /\ exists sched,
       returned (run boundedReq sched init) = Some (2, None)
       /\ acks 1 (run boundedReq sched init) = 1
       /\ publishes 1 (run boundedReq sched init) = 0.
Proof.
  split; [reflexivity|]. split; [reflexivity|].
  destruct (main_stop_drops_message boundedReq eq_refl eq_refl)
    as (sched & Hret & _ & Ha & Hp & _).
  exists sched. split; [exact Hret|]. split; [exact Ha | exact Hp].
Defined.

End MainJobFacts.

(** * The test-message generator *)

Section GeneratorFacts.

Import Generator.

Lemma wrap_small (z : Z) : minInt <= z <= maxInt -> wrap z = z.
Proof.
  unfold minInt, maxInt, wrap. intros H.
  rewrite Z.mod_small by lia. lia.
Qed.

(** Without overflow the number of batches is the quotient rounded up. *)
Lemma batchCount_spec (config : Config) :
  0 <= NumMessages config -> 1 <= BatchSize config ->
  NumMessages config + BatchSize config <= maxInt ->
  batchCount config
  = (NumMessages config + BatchSize config - 1) / BatchSize config
  /\ 0 <= batchCount config
  /\ NumMessages config <= batchCount config * BatchSize config
  /\ batchCount config * BatchSize config < NumMessages config + BatchSize config.
Proof.
  intros HN HB Hmax. unfold batchCount, intQuo, intSub, intAdd.
  set (N := NumMessages config) in *. set (B := BatchSize config) in *.
  assert (Hmin : minInt < 0) by (unfold minInt; lia).
  rewrite (wrap_small (N + B)) by lia.
  rewrite (wrap_small (N + B - 1)) by lia.
  rewrite Z.quot_div_nonneg by lia.
  pose proof (Z.div_mod (N + B - 1) B ltac:(lia)) as Hdm.
  pose proof (Z.mod_pos_bound (N + B - 1) B ltac:(lia)) as Hm.
  pose proof (Z.div_pos (N + B - 1) B ltac:(lia) ltac:(lia)).
  assert (Hq : (N + B - 1) / B <= N + B - 1) by nia.
  rewrite wrap_small by lia.
  split; [reflexivity|]. nia.
Qed.

(** Batch [i] holds the numbers from [i * BatchSize + 1] up to
    [(i + 1) * BatchSize], cut off at [NumMessages]. *)
Lemma numbered_batchAt (config : Config) (i : Z) :
  1 <= BatchSize config -> 0 <= i ->
  i * BatchSize config < NumMessages config ->
  NumMessages config + BatchSize config <= maxInt ->
  numbered (batchAt config i)
  = seqZ (i * BatchSize config + 1)
      (Z.min ((i + 1) * BatchSize config) (NumMessages config)
       - i * BatchSize config)
  /\ end_ (batchAt config i) <= NumMessages config.
Proof.
  intros HB Hi Hlt Hmax. unfold numbered, batchAt, intAdd, intSub, intMul.
  assert (Hmin : minInt < 0) by (unfold minInt; lia).
  assert (0 <= i * BatchSize config) by nia.
  rewrite (wrap_small (i * BatchSize config)) by lia.
  rewrite (wrap_small (i * BatchSize config + 1)) by lia.
  rewrite (wrap_small (i * BatchSize config + 1 + BatchSize config)) by lia.
  rewrite (wrap_small (i * BatchSize config + 1 + BatchSize config - 1)) by lia.
  simpl.
  destruct (Z.ltb_spec (NumMessages config)
              (i * BatchSize config + 1 + BatchSize config - 1));
    (split; [f_equal; lia | lia]).
Qed.

Lemma concat_batches_prefix (config : Config) (k : nat) :
  0 <= NumMessages config -> 1 <= BatchSize config ->
  NumMessages config + BatchSize config <= maxInt ->
  Z.of_nat k <= batchCount config ->
  concat (map numbered (map (batchAt config) (seqZ 0 (Z.of_nat k))))
  = seqZ 1 (Z.min (Z.of_nat k * BatchSize config) (NumMessages config)).
Proof.
  intros HN HB Hmax.
  destruct (batchCount_spec config HN HB Hmax) as (_ & Hc0 & Hc1 & Hc2).
  induction k as [|k IH]; intros Hk.
  - change (Z.of_nat 0) with 0. rewrite Z.mul_0_l, Z.min_l by lia. reflexivity.
  - rewrite seqZ_S, !map_app, concat_app, IH by lia. simpl.
    rewrite app_nil_r, Z.add_0_l.
    assert (Hlt : Z.of_nat k * BatchSize config < NumMessages config) by nia.
    rewrite (proj1 (numbered_batchAt config (Z.of_nat k) HB ltac:(lia) Hlt Hmax)).
    rewrite Z.min_l by lia.
    replace (Z.of_nat k * BatchSize config + 1)
      with (1 + Z.of_nat k * BatchSize config) by lia.
    rewrite <- seqZ_app by lia. f_equal. lia.
Qed.

Lemma concat_batches (config : Config) :
  0 <= NumMessages config -> 1 <= BatchSize config ->
  NumMessages config + BatchSize config <= maxInt ->
  concat (map numbered (workBatches config)) = seqZ 1 (NumMessages config).
Proof.
  intros HN HB Hmax.
  destruct (batchCount_spec config HN HB Hmax) as (_ & Hc0 & Hc1 & Hc2).
  unfold workBatches.
  rewrite <- (Z2Nat.id (batchCount config)) at 1 by lia.
  rewrite concat_batches_prefix by lia.
  rewrite Z2Nat.id, Z.min_r by lia. reflexivity.
Qed.

(** Every batch queued ends below the largest [int], has between one and
    [BatchSize] numbers, and its loop in [publishBatch] ends. *)
Lemma batches_wellformed (config : Config) :
  0 <= NumMessages config -> 1 <= BatchSize config ->
  NumMessages config + BatchSize config <= maxInt ->
  Forall (fun batch => msgNums batch = Some (numbered batch)
                       /\ 1 <= Z.of_nat (length (numbered batch))
                          <= BatchSize config)
    (workBatches config).
Proof.
  intros HN HB Hmax.
  destruct (batchCount_spec config HN HB Hmax) as (_ & Hc0 & Hc1 & Hc2).
  unfold workBatches. rewrite Forall_fmap. apply Forall_seqZ.
  intros i Hi. simpl.
  assert (Hlt : i * BatchSize config < NumMessages config) by nia.
  destruct (numbered_batchAt config i HB ltac:(lia) Hlt Hmax) as [Hnum Hend].
  split.
  - unfold msgNums.
    destruct (Z.eqb_spec (end_ (batchAt config i)) maxInt); [lia|reflexivity].
  - rewrite Hnum, length_seqZ. lia.
Qed.

(** X26: for a count [NumMessages >= 0] and a batch size of at least one
    whose sum does not overflow [int], the batches [generateMessages]
    queues hold the message numbers 1 to [NumMessages], each once and in
    order; no batch is empty, none holds more than [BatchSize] numbers,
    and the loop of [publishBatch] over each of them ends; and there are
    as many batches as it takes, the quotient rounded up. *)
Theorem batches_partition (config : Config) :
  0 <= NumMessages config -> 1 <= BatchSize config ->
  NumMessages config + BatchSize config <= maxInt ->
  concat (map numbered (workBatches config)) = seqZ 1 (NumMessages config)
  /\ Forall (fun batch => msgNums batch = Some (numbered batch)
                          /\ 1 <= Z.of_nat (length (numbered batch))
                             <= BatchSize config) (workBatches config)
  /\ (Z.of_nat (length (workBatches config)) - 1) * BatchSize config
     < NumMessages config
     <= Z.of_nat (length (workBatches config)) * BatchSize config.
Proof.
  intros HN HB Hmax.
  destruct (batchCount_spec config HN HB Hmax) as (_ & Hc0 & Hc1 & Hc2).
  split; [apply concat_batches; assumption|].
  split; [apply batches_wellformed; assumption|].
  unfold workBatches. rewrite length_map, length_seqZ, Z2Nat.id by lia. lia.
Qed.

(** ** The total the workers add up *)

Lemma foldl_add_sum {A : Type} (f : A -> Z) (l : list A) (a : Z) :
  foldl (fun acc x => acc + f x) a l = a + foldr Z.add 0 (map f l).
Proof.
  revert a. induction l as [|x l IH]; intros a; simpl; [lia|].
  rewrite IH. lia.
Qed.

Lemma sum_Permutation {A : Type} (f : A -> Z) (l1 l2 : list A) :
  l1 ≡ₚ l2 -> foldr Z.add 0 (map f l1) = foldr Z.add 0 (map f l2).
Proof. induction 1; simpl; lia. Qed.

Lemma filter_filter_andb {A : Type} (P Q : A -> bool) (l : list A) :
  List.filter Q (List.filter P l) = List.filter (fun x => P x && Q x) l.
Proof.
  induction l as [|x l IH]; simpl; [reflexivity|].
  destruct (P x); simpl; [destruct (Q x); rewrite IH; reflexivity | exact IH].
Qed.

Lemma sum_filter_concat {A : Type} (P : A -> bool) (ls : list (list A)) :
  foldr Z.add 0 (map (fun l => Z.of_nat (length (List.filter P l))) ls)
  = Z.of_nat (length (List.filter P (concat ls))).
Proof.
  induction ls as [|l ls IH]; simpl; [reflexivity|].
  rewrite IH, List.filter_app, length_app. lia.
Qed.

Lemma filter_length_le {A : Type} (P : A -> bool) (l : list A) :
  (length (List.filter P l) <= length l)%nat.
Proof. induction l as [|x l IH]; simpl; [lia|]. destruct (P x); simpl; lia. Qed.

Lemma filter_length_all {A : Type} (P : A -> bool) (l : list A) :
  length (List.filter P l) = length l <-> forall x, x ∈ l -> P x = true.
Proof.
  induction l as [|x l IH]; simpl.
  - split; [intros _ y Hy; inversion Hy | reflexivity].
  - pose proof (filter_length_le P l). destruct (P x) eqn:HP; simpl.
    + split.
      * intros Hlen y Hy. apply elem_of_cons in Hy as [->|Hy]; [exact HP|].
        apply IH; [lia | exact Hy].
      * intros Hall. f_equal. apply IH. intros y Hy. apply Hall.
        apply elem_of_cons. auto.
    + split; [lia|]. intros Hall.
      rewrite (Hall x) in HP by (apply elem_of_cons; auto). discriminate.
Qed.

(** The messages of a batch that get through. *)
Lemma publishBatch_count (env : Env) (batch : workBatch) :
  msgNums batch = Some (numbered batch) ->
  Z.of_nat (length (numbered batch)) <= maxInt ->
  publishBatch env batch
  = Some (Z.of_nat (length (List.filter (delivered env) (numbered batch)))).
Proof.
  intros Hnums Hlen. unfold publishBatch. rewrite Hnums.
  rewrite filter_filter_andb. fold (delivered env).
  pose proof (filter_length_le (delivered env) (numbered batch)).
  rewrite wrap_small; [reflexivity|]. unfold minInt. lia.
Qed.

Lemma publishedAfter_sum (env : Env) (l : list workBatch) (a : Z) :
  Forall (fun batch => msgNums batch = Some (numbered batch)
                       /\ Z.of_nat (length (numbered batch)) <= maxInt) l ->
  0 <= a ->
  a + foldr Z.add 0
        (map (fun batch =>
                Z.of_nat (length (List.filter (delivered env) (numbered batch))))
           l) <= maxInt ->
  foldl (fun published batch =>
           match published, publishBatch env batch with
           | Some p, Some n => Some (wrap (p + n))
           | _, _ => None
           end) (Some a) l
  = Some (a + foldr Z.add 0
                (map (fun batch =>
                        Z.of_nat (length (List.filter (delivered env)
                                            (numbered batch)))) l)).
Proof.
  revert a. induction l as [|batch l IH]; intros a Hwf Ha Hsum; simpl in *.
  - f_equal. lia.
  - inversion Hwf as [|? ? [Hnums Hlen] Hrest]; subst.
    rewrite (publishBatch_count env batch Hnums Hlen).
    set (n := Z.of_nat (length (List.filter (delivered env) (numbered batch))))
      in *.
    assert (Hn : 0 <= n) by (unfold n; lia).
    assert (Hs : 0 <= foldr Z.add 0
                        (map (fun batch =>
                                Z.of_nat (length (List.filter (delivered env)
                                                    (numbered batch)))) l)).
    { clear. induction l as [|b l IH]; simpl; lia. }
    rewrite wrap_small by (unfold minInt; lia).
    rewrite IH by (try assumption; lia). f_equal. lia.
Qed.

Lemma published_total (env : Env) (config : Config) (taken : list workBatch) :
  0 <= NumMessages config -> 1 <= BatchSize config ->
  NumMessages config + BatchSize config <= maxInt ->
  taken ≡ₚ workBatches config ->
  publishedAfter env taken
  = Some (Z.of_nat (length (List.filter (delivered env)
                              (seqZ 1 (NumMessages config))))).
Proof.
  intros HN HB Hmax Hperm. unfold publishedAfter.
  pose proof (filter_length_le (delivered env) (seqZ 1 (NumMessages config)))
    as Hle.
  rewrite length_seqZ in Hle.
  assert (Hsum : foldr Z.add 0
                   (map (fun batch =>
                           Z.of_nat (length (List.filter (delivered env)
                                               (numbered batch)))) taken)
                 = Z.of_nat (length (List.filter (delivered env)
                                       (seqZ 1 (NumMessages config))))).
  { rewrite (sum_Permutation _ _ _ Hperm).
    rewrite <- (concat_batches config HN HB Hmax).
    rewrite <- (sum_filter_concat (delivered env)), map_map. reflexivity. }
  rewrite publishedAfter_sum; [f_equal; lia | | lia | lia].
  apply Forall_forall. intros batch Hin.
  pose proof (batches_wellformed config HN HB Hmax) as Hwf.
  rewrite Forall_forall in Hwf.
  destruct (Hwf batch) as [Hnums Hlen]; [rewrite <- Hperm; exact Hin|].
  split; [exact Hnums | lia].
Qed.

(** X27: with a count [NumMessages >= 0], a batch size of at least one, the
    two not overflowing [int] when added, at least one worker, and the
    two channels made, in whatever order the workers take the batches:
    [published] ends as the number of messages from 1 to [NumMessages]
    that marshal and whose publish is confirmed, never more than
    [NumMessages] (so that the sends to [progressChan], of that
    capacity, never block); [generateMessages] returns, and returns nil
    exactly when every one of these messages got through. *)
Theorem generateMessages_nil_iff (env : Env) (config : Config)
    (taken : list workBatch) :
  0 <= NumMessages config -> 1 <= BatchSize config ->
  NumMessages config + BatchSize config <= maxInt ->
  1 <= Concurrency config ->
  chanFits env 8 (NumMessages config) = true ->
  chanFits env 16 (batchCount config) = true ->
  taken ≡ₚ workBatches config ->
  (exists published,
     publishedAfter env taken = Some published
     /\ 0 <= published <= NumMessages config
     /\ published
        = Z.of_nat (length (List.filter (delivered env)
                              (seqZ 1 (NumMessages config)))))
  /\ (exists err, generateMessages env config taken = Returns err)
  /\ (generateMessages env config taken = Returns None
      <-> forall m, 1 <= m <= NumMessages config ->
                    marshalOk env m = true /\ getOk env m = true).
Proof.
  intros HN HB Hmax HC Hc1 Hc2 Hperm.
  destruct (batchCount_spec config HN HB Hmax) as (_ & Hc0 & _ & _).
  pose proof (published_total env config taken HN HB Hmax Hperm) as Hpub.
  pose proof (filter_length_le (delivered env) (seqZ 1 (NumMessages config)))
    as Hle.
  rewrite length_seqZ in Hle.
  set (published := Z.of_nat (length (List.filter (delivered env)
                                        (seqZ 1 (NumMessages config))))) in *.
  split; [exists published; split; [exact Hpub|]; split; [lia|reflexivity]|].
  unfold generateMessages. rewrite Hc1, Hc2, Hpub.
  destruct (Z.ltb_spec (NumMessages config) 0); [lia|].
  destruct (Z.eqb_spec (BatchSize config) 0); [lia|].
  destruct (Z.ltb_spec (batchCount config) 0); [lia|].
  destruct (Z.ltb_spec 0 (Concurrency config)); [|lia].
  simpl.
  split; [destruct (negb _); eexists; reflexivity|].
  assert (Hall : published = NumMessages config
                 <-> forall m, 1 <= m <= NumMessages config ->
                               marshalOk env m = true /\ getOk env m = true).
  { pose proof (filter_length_all (delivered env)
                  (seqZ 1 (NumMessages config))) as Hfa.
    rewrite length_seqZ in Hfa. unfold published. split.
    - intros Heq m Hm. apply andb_prop.
      apply Hfa; [lia|]. apply elem_of_seqZ. lia.
    - intros Hall.
      assert (Hlen : length (List.filter (delivered env)
                               (seqZ 1 (NumMessages config)))
                     = Z.to_nat (NumMessages config)).
      { apply Hfa. intros m Hm. apply elem_of_seqZ in Hm.
        unfold delivered. destruct (Hall m ltac:(lia)) as [-> ->]. reflexivity. }
      rewrite Hlen. lia. }
  destruct (Z.eqb_spec published (NumMessages config)) as [Heq|Hne]; simpl.
  - split; [intros _; apply Hall; exact Heq | reflexivity].
  - split; [discriminate|]. intros Hok. exfalso. apply Hne. apply Hall.
    exact Hok.
Qed.

(** Outside these bounds the arithmetic wraps: with the largest [int] as
    batch size and five messages asked for, no batch is queued and
    [generateMessages] returns an error; a negative count makes [make]
    panic; and a batch that ends at the largest [int] is never done. *)
Lemma generateMessages_out_of_range :
  batchCount hugeBatch = 0
  /\ workBatches hugeBatch = []
  /\ generateMessages allFine hugeBatch []
     = Returns (Some "expected to publish 5 messages, but published 0"%string)
  /\ generateMessages allFine
       {| ProjectID := "p"; TopicName := "t"; NumMessages := -1;
          Concurrency := 1; BatchSize := 1 |} []
     = Crashes "makechan: size out of range"
  /\ generateMessages allFine
       {| ProjectID := "p"; TopicName := "t"; NumMessages := 1;
          Concurrency := 1; BatchSize := 0 |} []
     = Crashes "integer divide by zero"
  /\ publishBatch allFine {| start := 1; end_ := maxInt |} = None.
Proof. repeat split; vm_compute; reflexivity. Qed.

Lemma batches_partition_witness :
  0 <= NumMessages sampleConfig /\ 1 <= BatchSize sampleConfig
  /\ NumMessages sampleConfig + BatchSize sampleConfig <= maxInt
  /\ concat (map numbered (workBatches sampleConfig)) = [1; 2; 3; 4; 5].
Proof.
  split; [vm_compute; discriminate|]. split; [vm_compute; discriminate|].
  split; [vm_compute; discriminate|].
  refine (proj1 (batches_partition sampleConfig _ _ _));
    vm_compute; discriminate.
Defined.

Lemma generateMessages_nil_iff_witness :
  0 <= NumMessages sampleConfig /\ 1 <= BatchSize sampleConfig
  /\ NumMessages sampleConfig + BatchSize sampleConfig <= maxInt
  /\ 1 <= Concurrency sampleConfig
  /\ chanFits allFine 8 (NumMessages sampleConfig) = true
  /\ chanFits allFine 16 (batchCount sampleConfig) = true
  /\ rev (workBatches sampleConfig) ≡ₚ workBatches sampleConfig
  /\ generateMessages allFine sampleConfig (rev (workBatches sampleConfig))
     = Returns None.
Proof.
  assert (HN : 0 <= NumMessages sampleConfig) by (vm_compute; discriminate).
  assert (HB : 1 <= BatchSize sampleConfig) by (vm_compute; discriminate).
  assert (HM : NumMessages sampleConfig + BatchSize sampleConfig <= maxInt)
    by (vm_compute; discriminate).
  assert (HC : 1 <= Concurrency sampleConfig) by (vm_compute; discriminate).
  assert (HP : rev (workBatches sampleConfig) ≡ₚ workBatches sampleConfig)
    by (symmetry; apply Permutation_rev).
  split; [exact HN|]. split; [exact HB|]. split; [exact HM|].
  split; [exact HC|]. split; [reflexivity|]. split; [reflexivity|].
  split; [exact HP|].
  apply (proj2 (proj2 (generateMessages_nil_iff allFine sampleConfig _
                         HN HB HM HC eq_refl eq_refl HP))).
  intros m _. split; reflexivity.
Defined.

End GeneratorFacts.

(** * Admission, relay and timeouts in the two jobs *)

(** ** What the callback of [processMessages] decides on *)

Section MainJobSteps.

Import MainJob.





(** After [Receive] the caller stands at [wg.Wait()] and passes it
    exactly when no goroutine is left; no clock is involved. *)
Lemma main_wait_step (req : ShovelRequest) (s : State)
    (err : Main.receiveResult) :
  main s = MWait err ->
  (wg s = 0 ->
   exists s', step req AMain s = Some s' /\ main s' = MReturn err
              /\ events s' = events s
              /\ processedCount s' = processedCount s)
  /\ (wg s <> 0 -> step req AMain s = None).
Proof.
  intros Hm. unfold step, mstep. rewrite Hm. split.
  - intros ->. eexists. split; [reflexivity|]. auto.
  - intros Hne. destruct (Z.eqb_spec (wg s) 0); [contradiction|reflexivity].
Qed.

End MainJobSteps.

(** ** C1: admission *)





(** ** C3: a message that comes after the target was reached *)




(** ** C2: the relay of an admitted message *)







(** ** C8: timeouts *)

(** C8 as stated fails for [processMessages]: its one timeout is ten
    minutes for the bounded [boundedReq] and for the unbounded
    [unboundedReq] alike; and it has no grace period: with a goroutine
    still at work the caller is held at [wg.Wait()], and it returns
    once that goroutine is over. *)
Lemma main_single_timeout :
  AllMessages boundedReq = false /\ AllMessages unboundedReq = true
  /\ Main.validateRequest boundedReq = None
  /\ Main.validateRequest unboundedReq = None
  /\ MainJob.receiveTimeout boundedReq = MainJob.receiveTimeout unboundedReq
  /\ ~ MainJob.receiveTimeout boundedReq < MainJob.receiveTimeout unboundedReq
  /\ MainJob.main (MainJob.run boundedReq MainJob.returnedEarly MainJob.init)
     = MainJob.MWait Main.ReceiveNil
  /\ MainJob.step boundedReq MainJob.AMain
       (MainJob.run boundedReq MainJob.returnedEarly MainJob.init) = None
  /\ MainJob.returned
       (MainJob.run boundedReq
          (MainJob.returnedEarly ++ MainJob.workerOnly 0
           ++ [MainJob.AMain; MainJob.AMain]) MainJob.init)
     = Some (1, None).
Proof.
  split; [reflexivity|]. split; [reflexivity|]. split; [reflexivity|].
  split; [reflexivity|]. split; [reflexivity|].
  split; [unfold MainJob.receiveTimeout; lia|].
  split; [reflexivity|]. split; reflexivity.
Qed.

(** C8, as the source has it.  [processShovelRequest] has two timeouts.  The
    wall-clock timeout of the [select] is 5 minutes for a bounded job and
    10 minutes for an unbounded one; the grace period slept afterwards,
    whichever case of the [select] was taken, is 2 seconds, shorter than
    either.  The first can fire exactly when the clock has reached it:
    the caller then cancels the context and goes on to the sleep; the
    sleep ends exactly when the clock has reached the wake-up time, and
    the caller goes on to read the counters; neither touches a delivery
    or the Receive goroutine.  Nothing is ever started again: the caller
    and the Receive goroutine only move forward, and a message is
    forwarded at most once.
    [processMessages] has one timeout, ten minutes whatever the request,
    and no grace period: the caller passes [wg.Wait()] exactly when the
    goroutines are over. *)
Theorem two_timeouts :
  (forall req, timeout (jobOf req)
               = if AllMessages req then 10 * Minute else 5 * Minute)
  /\ (forall b u, AllMessages b = false -> AllMessages u = true ->
                  timeout (jobOf b) < timeout (jobOf u))
  /\ (forall req, 0 < drainGrace < timeout (jobOf req))
  /\ (forall j s,
        main s = MSelect ->
        (timeout j <= now s ->
         exists s',
           step j AMainTimeout s = Some s'
           /\ main s' = MCancel
           /\ handlers s' = handlers s /\ recv s' = recv s
           /\ cancelled s' = cancelled s /\ counters s' = counters s)
        /\ (now s < timeout j -> step j AMainTimeout s = None))
  /\ (forall j s,
        main s = MSelect ->
        (recv s = RSend ->
         exists s',
           step j AMainDone s = Some s'
           /\ main s' = MSleepCall
           /\ handlers s' = handlers s /\ cancelled s' = cancelled s
           /\ counters s' = counters s)
        /\ (recv s <> RSend -> step j AMainDone s = None))
  /\ (forall j s,
        main s <> MSelect ->
        step j AMainTimeout s = None /\ step j AMainDone s = None)
  /\ (forall j s,
        main s = MCancel ->
        exists s',
          step j AMain s = Some s'
          /\ main s' = MSleepCall /\ cancelled s' = true
          /\ handlers s' = handlers s /\ recv s' = recv s
          /\ counters s' = counters s)
  /\ (forall j s,
        main s = MSleepCall ->
        exists s',
          step j AMain s = Some s'
          /\ main s' = MSleeping (now s + drainGrace)
          /\ handlers s' = handlers s
          /\ recv s' = recv s /\ counters s' = counters s)
  /\ (forall j s wakeAt,
        main s = MSleeping wakeAt ->
        (wakeAt <= now s ->
         exists s',
           step j AMain s = Some s'
           /\ main s' = MLock /\ handlers s' = handlers s
           /\ recv s' = recv s /\ counters s' = counters s)
        /\ (now s < wakeAt -> step j AMain s = None))
  /\ (forall j a s s',
        step j a s = Some s' ->
        (mrank (main s) <= mrank (main s'))%nat
        /\ (rrank (recv s) <= rrank (recv s'))%nat)
  /\ (forall j s t, reachable j s -> publishes t s <= 1)
  /\ (forall req, MainJob.receiveTimeout req = 10 * Minute)
  /\ (forall req ms err,
        MainJob.main ms = MainJob.MWait err ->
        (MainJob.wg ms = 0 ->
         exists ms',
           MainJob.step req MainJob.AMain ms = Some ms'
           /\ MainJob.main ms' = MainJob.MReturn err
           /\ MainJob.events ms' = MainJob.events ms
           /\ MainJob.processedCount ms' = MainJob.processedCount ms)
        /\ (MainJob.wg ms <> 0 ->
            MainJob.step req MainJob.AMain ms = None)).
Proof.
  split; [reflexivity|].
  split; [intros b u Hb Hu; simpl; unfold timeoutOf; rewrite Hb, Hu;
          unfold Minute, Second; lia|].
  split; [intros req; simpl; unfold timeoutOf, drainGrace, Minute, Second;
          destruct (AllMessages req); lia|].
  split; [|split; [|split; [|split; [|split; [|split; [|split; [|split;
    [|split]]]]]]]].
  - intros j s Hm. unfold step. rewrite Hm. split.
    + intros Hle. destruct (Z.leb_spec (timeout j) (now s)); [|lia].
      eexists. split; [reflexivity|]. simpl. auto 10.
    + intros Hlt. destruct (Z.leb_spec (timeout j) (now s)); [lia|reflexivity].
  - intros j s Hm. unfold step. rewrite Hm. split.
    + intros ->. eexists. split; [reflexivity|]. simpl. auto 10.
    + intros Hne. destruct (recv s); try reflexivity. contradiction.
  - intros j s Hm. unfold step.
    destruct (main s); try contradiction; split; reflexivity.
  - intros j s Hm. unfold step, mstep. rewrite Hm.
    eexists. split; [reflexivity|]. simpl. auto 10.
  - intros j s Hm. unfold step, mstep. rewrite Hm.
    eexists. split; [reflexivity|]. simpl. auto 10.
  - intros j s w Hm. unfold step, mstep. rewrite Hm. split.
    + intros Hle. destruct (Z.leb_spec w (now s)); [|lia].
      eexists. split; [reflexivity|]. simpl. auto 10.
    + intros Hlt. destruct (Z.leb_spec w (now s)); [lia|reflexivity].
  - intros j a s s'. apply step_forward.
  - intros j s t Hreach. pose proof (reachable_TraceInv j s Hreach) as HT.
    rewrite (tr_publish _ HT). destruct (standsAt isForwarded s t); simpl; lia.
  - intros req. reflexivity.
  - intros req ms err Hm. apply (main_wait_step req ms err Hm).
Qed.

Lemma two_timeouts_witness :
  main (run (jobOf boundedReq) [ATick (5 * Minute)] init) = MSelect
  /\ timeout (jobOf boundedReq)
     <= now (run (jobOf boundedReq) [ATick (5 * Minute)] init)
  /\ exists s',
       step (jobOf boundedReq) AMainTimeout
         (run (jobOf boundedReq) [ATick (5 * Minute)] init) = Some s'
       /\ main s' = MCancel.
Proof.
  assert (Hle : timeout (jobOf boundedReq)
                <= now (run (jobOf boundedReq) [ATick (5 * Minute)] init))
    by (vm_compute; discriminate).
  split; [reflexivity|]. split; [exact Hle|].
  destruct (proj1 (proj1 (proj2 (proj2 (proj2 two_timeouts)))
                     (jobOf boundedReq)
                     (run (jobOf boundedReq) [ATick (5 * Minute)] init)
                     eq_refl) Hle) as (s' & Hs & Hm & _).
  exists s'. split; [exact Hs | exact Hm].
Defined.
